(** * go-fluent-bit-metrics: the monitoring client and its retrying fetch

    A shallow embedding of [client.go]: the payload types with their
    JSON field tags, the four accessor methods of [Client], and the polling
    loop of [fetchJSON].  The Go runtime and the standard library packages
    the code calls ([context], [time], [net/http], [encoding/json]) are
    modelled by small executable definitions on a virtual clock counted in
    nanoseconds, as [time.Duration] does.

    The model fixes what follows.  Only a round trip and the wait of a
    select take time; building the request, creating the ticker and decoding
    a body take none.  So a response is there whole, status and body, the
    instant its round trip returns: a body still on its way when the context
    is done, which the decoder would then fail to read, is outside the
    model.  The transport honours the context of a request,
    as the one of [net/http] does: a round trip whose context is done
    returns an error.  A context is never nil.  The loop may turn for
    ever, so the functions that run it take a number of turns, [fuel], and
    return [None] when it is spent before the loop is left. *)

From stdpp Require Import gmap strings list pretty.
From Stdlib Require Import ZArith Ascii String Lia.

Local Open Scope string_scope.
Local Open Scope Z_scope.

(** ** Package time *)

Definition Duration := Z.
Definition Nanosecond : Duration := 1.
Definition Microsecond : Duration := 1000 * Nanosecond.
Definition Millisecond : Duration := 1000 * Microsecond.
Definition Second : Duration := 1000 * Millisecond.

(** [client.go], lines 11-14. *)
Definition DefaultHTTPRetryTimeout : Duration := 3 * Second.
Definition DefaultHTTPRetryBackoff : Duration := 150 * Millisecond.

(** A ticker owns a channel [C] of capacity one.  Ticks are due every
    [period] after the creation of the ticker; a tick that finds the channel
    full is dropped, and the phase of the later ticks is kept. *)
Record Ticker := mkTicker {
  period : Duration;
  due : Z;
  C : bool
}.

Definition NewTicker (d : Duration) (now : Z) : Ticker :=
  {| period := d; due := now + d; C := false |}.

(** The ticks due up to the instant [t] are sent to the channel. *)
Definition deliver (t : Z) (tk : Ticker) : Ticker :=
  if due tk <=? t
  then {| period := period tk;
          due := due tk + period tk * ((t - due tk) / period tk + 1);
          C := true |}
  else tk.

Definition receive (tk : Ticker) : Ticker :=
  {| period := period tk; due := due tk; C := false |}.

(** ** Package context

    A context is known by the instant at which its [Done] channel is closed,
    by a deadline or by the caller's cancellation; [None] for a context that
    is never done, such as [context.Background()]. *)
Record Context := mkContext { done_at : option Z }.

Definition Background : Context := {| done_at := None |}.

Definition tighter (parent : option Z) (d : Z) : Z :=
  match parent with
  | Some p => Z.min p d
  | None => d
  end.

Definition WithTimeout (parent : Context) (now : Z) (timeout : Duration) : Context :=
  {| done_at := Some (tighter (done_at parent) (now + timeout)) |}.

Definition isDone (ctx : Context) (t : Z) : bool :=
  match done_at ctx with
  | Some d => d <=? t
  | None => false
  end.

(** ** Package encoding/json

    The part of the decoder that the payload types exercise: a JSON value is
    scanned from the front of the body, then stored into the destination
    following the field tags.  Scanning fails as a whole; a value of the
    wrong kind for its destination is skipped, the first such mismatch is
    reported once the whole value has been stored. *)

#[warnings="-register-all"]
Inductive JSON :=
| JNull
| JBool (b : bool)
| JNumber (literal : string)
| JString (s : string)
| JArray (elems : list JSON)
| JObject (members : list (string * JSON)).

Inductive JSONError :=
| EOF
| ErrUnexpectedEOF
| SyntaxError
| UnmarshalTypeError (value : string) (type : string).

Definition is_space (c : ascii) : bool :=
  match c with
  | " "%char | "009"%char | "010"%char | "013"%char => true
  | _ => false
  end.

Definition is_digit (c : ascii) : bool :=
  let n := N_of_ascii c in ((48 <=? n) && (n <=? 57))%N.

Definition digit_val (c : ascii) : Z := Z.of_N (N_of_ascii c) - 48.

Definition hex_val (c : ascii) : option Z :=
  let n := Z.of_N (N_of_ascii c) in
  if (48 <=? n) && (n <=? 57) then Some (n - 48)
  else if (97 <=? n) && (n <=? 102) then Some (n - 87)
  else if (65 <=? n) && (n <=? 70) then Some (n - 55)
  else None.

Fixpoint skip_space (s : string) : string :=
  match s with
  | String c r => if is_space c then skip_space r else s
  | EmptyString => s
  end.

Fixpoint take_digits (s : string) : string * string :=
  match s with
  | String c r =>
      if is_digit c
      then let '(ds, rest) := take_digits r in (String c ds, rest)
      else (EmptyString, s)
  | EmptyString => (EmptyString, s)
  end.

Fixpoint drop_prefix (p s : string) : JSONError + string :=
  match p, s with
  | EmptyString, _ => inr s
  | String _ _, EmptyString => inl ErrUnexpectedEOF
  | String a p', String b s' =>
      if Ascii.eqb a b then drop_prefix p' s' else inl SyntaxError
  end.

Definition is_empty (s : string) : bool :=
  match s with EmptyString => true | _ => false end.

Definition need_digits (s : string) : JSONError + (string * string) :=
  let '(ds, rest) := take_digits s in
  if is_empty ds
  then inl (if is_empty rest then ErrUnexpectedEOF else SyntaxError)
  else inr (ds, rest).

(** A number literal: sign, integer part without a leading zero, fraction,
    exponent.  The literal is kept as written. *)
Definition scan_number (s : string) : JSONError + (string * string) :=
  let '(sign, s1) :=
    match s with
    | String "-"%char r => (String "-"%char EmptyString, r)
    | _ => (EmptyString, s)
    end in
  match (match s1 with
         | String "0"%char r => inr (String "0"%char EmptyString, r)
         | _ => need_digits s1
         end) with
  | inl e => inl e
  | inr (ip, s2) =>
      match (match s2 with
             | String "."%char r =>
                 match need_digits r with
                 | inl e => inl e
                 | inr (fp, r') => inr (String "."%char fp, r')
                 end
             | _ => inr (EmptyString, s2)
             end) with
      | inl e => inl e
      | inr (fp, s3) =>
          match s3 with
          | String e r =>
              if Ascii.eqb e "e"%char || Ascii.eqb e "E"%char then
                let '(es, r1) :=
                  match r with
                  | String "+"%char r' => (String "+"%char EmptyString, r')
                  | String "-"%char r' => (String "-"%char EmptyString, r')
                  | _ => (EmptyString, r)
                  end in
                match need_digits r1 with
                | inl err => inl err
                | inr (ds, r2) =>
                    inr (sign ++ ip ++ fp ++ String e es ++ ds, r2)
                end
              else inr (sign ++ ip ++ fp, s3)
          | EmptyString => inr (sign ++ ip ++ fp, s3)
          end
      end
  end.

(** The UTF-8 bytes of a code point. *)
Definition byte_of (n : Z) : ascii := ascii_of_N (Z.to_N (n mod 256)).

Definition utf8 (cp : Z) : string :=
  if cp <? 128 then String (byte_of cp) EmptyString
  else if cp <? 2048 then
    String (byte_of (192 + cp / 64))
      (String (byte_of (128 + cp mod 64)) EmptyString)
  else if cp <? 65536 then
    String (byte_of (224 + cp / 4096))
      (String (byte_of (128 + (cp / 64) mod 64))
         (String (byte_of (128 + cp mod 64)) EmptyString))
  else
    String (byte_of (240 + cp / 262144))
      (String (byte_of (128 + (cp / 4096) mod 64))
         (String (byte_of (128 + (cp / 64) mod 64))
            (String (byte_of (128 + cp mod 64)) EmptyString))).

Definition replacement_char : string := utf8 65533.

Definition is_high_surrogate (cp : Z) : bool := (55296 <=? cp) && (cp <? 56320).
Definition is_low_surrogate (cp : Z) : bool := (56320 <=? cp) && (cp <? 57344).

Definition flush_surrogate (hi : option Z) : string :=
  match hi with
  | Some _ => replacement_char
  | None => EmptyString
  end.

Definition simple_escape (c : ascii) : option ascii :=
  match c with
  | "034"%char => Some "034"%char
  | "\"%char => Some "\"%char
  | "/"%char => Some "/"%char
  | "b"%char => Some "008"%char
  | "f"%char => Some "012"%char
  | "n"%char => Some "010"%char
  | "r"%char => Some "013"%char
  | "t"%char => Some "009"%char
  | _ => None
  end.

Definition between (lo hi : N) (c : ascii) : bool :=
  ((lo <=? N_of_ascii c) && (N_of_ascii c <=? hi))%N.

(** The first byte of a UTF-8 sequence of more than one byte: how many
    bytes follow it, and the range of the first of them
    ([utf8.DecodeRune]: no overlong form, no surrogate, nothing above
    U+10FFFF). *)
Definition lead_byte (c : ascii) : option (nat * N * N) :=
  let n := N_of_ascii c in
  if ((194 <=? n) && (n <=? 223))%N then Some (1%nat, 128, 191)%N
  else if (n =? 224)%N then Some (2%nat, 160, 191)%N
  else if (n =? 237)%N then Some (2%nat, 128, 159)%N
  else if ((225 <=? n) && (n <=? 239))%N then Some (2%nat, 128, 191)%N
  else if (n =? 240)%N then Some (3%nat, 144, 191)%N
  else if ((241 <=? n) && (n <=? 243))%N then Some (3%nat, 128, 191)%N
  else if (n =? 244)%N then Some (3%nat, 128, 143)%N
  else None.

(** [piece] in front of what the rest of the literal gives. *)
Definition emit (piece : string) (after : JSONError + (string * string))
  : JSONError + (string * string) :=
  match after with
  | inl e => inl e
  | inr (t, rest) => inr (piece ++ t, rest)
  end.

(** The text of a string literal after its opening quote.  [hi] holds a
    high surrogate written as a [\u] escape and still waiting for its low
    half; an unpaired half becomes U+FFFD, and so does every byte that does
    not start a well-formed UTF-8 sequence. *)
Fixpoint scan_string (s : string) (hi : option Z) : JSONError + (string * string) :=
  match s with
  | EmptyString => inl ErrUnexpectedEOF
  | String "034"%char r => inr (flush_surrogate hi, r)
  | String "\"%char EmptyString => inl ErrUnexpectedEOF
  | String "\"%char (String "u"%char (String h1 (String h2 (String h3 (String h4 r))))) =>
      match hex_val h1, hex_val h2, hex_val h3, hex_val h4 with
      | Some a, Some b, Some c, Some d =>
          let cp := ((a * 16 + b) * 16 + c) * 16 + d in
          match hi with
          | Some h =>
              if is_low_surrogate cp then
                match scan_string r None with
                | inl e => inl e
                | inr (t, rest) =>
                    inr (utf8 (65536 + (h - 55296) * 1024 + (cp - 56320)) ++ t, rest)
                end
              else if is_high_surrogate cp then
                match scan_string r (Some cp) with
                | inl e => inl e
                | inr (t, rest) => inr (replacement_char ++ t, rest)
                end
              else
                match scan_string r None with
                | inl e => inl e
                | inr (t, rest) => inr (replacement_char ++ utf8 cp ++ t, rest)
                end
          | None =>
              if is_high_surrogate cp then scan_string r (Some cp)
              else
                match scan_string r None with
                | inl e => inl e
                | inr (t, rest) =>
                    inr ((if is_low_surrogate cp then replacement_char else utf8 cp) ++ t, rest)
                end
          end
      | _, _, _, _ => inl SyntaxError
      end
  | String "\"%char (String "u"%char r) =>
      inl (if (String.length r <? 4)%nat then ErrUnexpectedEOF else SyntaxError)
  | String "\"%char (String e r) =>
      match simple_escape e with
      | Some c =>
          match scan_string r None with
          | inl err => inl err
          | inr (t, rest) => inr (flush_surrogate hi ++ String c t, rest)
          end
      | None => inl SyntaxError
      end
  | String c r =>
      if (N_of_ascii c <? 32)%N then inl SyntaxError
      else if (N_of_ascii c <? 128)%N then
        emit (flush_surrogate hi ++ String c EmptyString) (scan_string r None)
      else
        let invalid := emit (flush_surrogate hi ++ replacement_char) (scan_string r None) in
        match lead_byte c, r with
        | Some (1%nat, lo, hi2), String c2 r2 =>
            if between lo hi2 c2 then
              emit (flush_surrogate hi ++ String c (String c2 EmptyString))
                (scan_string r2 None)
            else invalid
        | Some (2%nat, lo, hi2), String c2 (String c3 r3) =>
            if between lo hi2 c2 && between 128 191 c3 then
              emit (flush_surrogate hi ++ String c (String c2 (String c3 EmptyString)))
                (scan_string r3 None)
            else invalid
        | Some (3%nat, lo, hi2), String c2 (String c3 (String c4 r4)) =>
            if between lo hi2 c2 && between 128 191 c3 && between 128 191 c4 then
              emit
                (flush_surrogate hi
                   ++ String c (String c2 (String c3 (String c4 EmptyString))))
                (scan_string r4 None)
            else invalid
        | _, _ => invalid
        end
  end.

(** The scanner refuses the array or object that would be nested deeper
    than this ([maxNestingDepth]). *)
Definition maxNestingDepth : N := 10000.

(** One JSON value at the front of [s]; what follows it is returned
    unread.  [depth] counts the arrays and objects that are open around it;
    [fuel] bounds the recursion. *)
Fixpoint scan_value (fuel : nat) (depth : N) (s : string) : JSONError + (JSON * string) :=
  match fuel with
  | O => inl SyntaxError
  | S fuel' =>
      match skip_space s with
      | EmptyString => inl ErrUnexpectedEOF
      | String "n"%char r =>
          match drop_prefix "ull" r with
          | inl e => inl e
          | inr rest => inr (JNull, rest)
          end
      | String "t"%char r =>
          match drop_prefix "rue" r with
          | inl e => inl e
          | inr rest => inr (JBool true, rest)
          end
      | String "f"%char r =>
          match drop_prefix "alse" r with
          | inl e => inl e
          | inr rest => inr (JBool false, rest)
          end
      | String "034"%char r =>
          match scan_string r None with
          | inl e => inl e
          | inr (t, rest) => inr (JString t, rest)
          end
      | String "["%char r =>
          if (maxNestingDepth <=? depth)%N then inl SyntaxError
          else
            match skip_space r with
            | String "]"%char rest => inr (JArray [], rest)
            | _ =>
                match scan_elems fuel' (depth + 1) r with
                | inl e => inl e
                | inr (l, rest) => inr (JArray l, rest)
                end
            end
      | String "{"%char r =>
          if (maxNestingDepth <=? depth)%N then inl SyntaxError
          else
            match skip_space r with
            | String "}"%char rest => inr (JObject [], rest)
            | _ =>
                match scan_members fuel' (depth + 1) r with
                | inl e => inl e
                | inr (l, rest) => inr (JObject l, rest)
                end
            end
      | String c r =>
          if is_digit c || Ascii.eqb c "-"%char then
            match scan_number (String c r) with
            | inl e => inl e
            | inr (lit, rest) => inr (JNumber lit, rest)
            end
          else inl SyntaxError
      end
  end
with scan_elems (fuel : nat) (depth : N) (s : string) : JSONError + (list JSON * string) :=
  match fuel with
  | O => inl SyntaxError
  | S fuel' =>
      match scan_value fuel' depth s with
      | inl e => inl e
      | inr (v, r) =>
          match skip_space r with
          | String ","%char r' =>
              match scan_elems fuel' depth r' with
              | inl e => inl e
              | inr (l, rest) => inr (v :: l, rest)
              end
          | String "]"%char rest => inr ([v], rest)
          | EmptyString => inl ErrUnexpectedEOF
          | _ => inl SyntaxError
          end
      end
  end
with scan_members (fuel : nat) (depth : N) (s : string)
  : JSONError + (list (string * JSON) * string) :=
  match fuel with
  | O => inl SyntaxError
  | S fuel' =>
      match skip_space s with
      | String "034"%char r =>
          match scan_string r None with
          | inl e => inl e
          | inr (k, r1) =>
              match skip_space r1 with
              | String ":"%char r2 =>
                  match scan_value fuel' depth r2 with
                  | inl e => inl e
                  | inr (v, r3) =>
                      match skip_space r3 with
                      | String ","%char r4 =>
                          match scan_members fuel' depth r4 with
                          | inl e => inl e
                          | inr (l, rest) => inr ((k, v) :: l, rest)
                          end
                      | String "}"%char rest => inr ([(k, v)], rest)
                      | EmptyString => inl ErrUnexpectedEOF
                      | _ => inl SyntaxError
                      end
                  end
              | EmptyString => inl ErrUnexpectedEOF
              | _ => inl SyntaxError
              end
          end
      | EmptyString => inl ErrUnexpectedEOF
      | _ => inl SyntaxError
      end
  end.

(** The next value of the stream; an exhausted stream is [EOF]. *)
Definition scan (body : string) : JSONError + JSON :=
  if is_empty (skip_space body) then inl EOF
  else
    match scan_value (2 * String.length body + 2) 0 body with
    | inl e => inl e
    | inr (v, _) => inr v
    end.

(** *** Storing a value

    An unmarshaller stores a JSON value into a destination that already
    holds a value, and reports the first mismatch.  [null] leaves scalars
    and structs untouched and resets slices and maps. *)
Definition Unmarshal (T : Type) := JSON -> T -> T * option JSONError.

Definition first_error (e1 e2 : option JSONError) : option JSONError :=
  match e1 with
  | Some _ => e1
  | None => e2
  end.

(** How a mismatch names the value it met.  A number that a numeric
    destination cannot hold is named with its literal (see
    [unmarshal_uint64]); everywhere else it is just a number. *)
Definition kind_of (j : JSON) : string :=
  match j with
  | JNull => "null"
  | JBool _ => "bool"
  | JNumber _ => "number"
  | JString _ => "string"
  | JArray _ => "array"
  | JObject _ => "object"
  end.

Definition mismatch {T} (j : JSON) (type : string) (v : T) : T * option JSONError :=
  (v, Some (UnmarshalTypeError (kind_of j) type)).

Definition all_digits (s : string) : bool :=
  let '(_, rest) := take_digits s in is_empty rest.

Fixpoint decimal (s : string) (acc : Z) : Z :=
  match s with
  | String c r => decimal r (acc * 10 + digit_val c)
  | EmptyString => acc
  end.

(** [strconv.ParseUint(literal, 10, 64)]. *)
Definition ParseUint64 (lit : string) : option Z :=
  if all_digits lit && negb (is_empty lit) then
    let n := decimal lit 0 in
    if n <? 2 ^ 64 then Some n else None
  else None.

Definition unmarshal_uint64 : Unmarshal Z := fun j v =>
  match j with
  | JNull => (v, None)
  | JNumber lit =>
      match ParseUint64 lit with
      | Some n => (n, None)
      | None => (v, Some (UnmarshalTypeError ("number " ++ lit) "uint64"))
      end
  | _ => mismatch j "uint64" v
  end.

Definition unmarshal_string : Unmarshal string := fun j v =>
  match j with
  | JNull => (v, None)
  | JString s => (s, None)
  | _ => mismatch j "string" v
  end.

Definition unmarshal_bool : Unmarshal bool := fun j v =>
  match j with
  | JNull => (v, None)
  | JBool b => (b, None)
  | _ => mismatch j "bool" v
  end.

(** A slice is refilled from an array, every element starting from the zero
    value of its type.  The nil slice and the empty slice are both [[]]. *)
Definition unmarshal_slice {T} (zero : T) (elem : Unmarshal T) (type : string)
  : Unmarshal (list T) := fun j v =>
  match j with
  | JNull => ([], None)
  | JArray l =>
      fold_left
        (fun (acc : list T * option JSONError) (x : JSON) =>
           let '(e, err) := elem x zero in
           ((fst acc ++ [e])%list, first_error (snd acc) err))
        l ([], None)
  | _ => mismatch j type v
  end.

(** A map receives one entry per member, each decoded into a fresh zero
    value; a repeated key overwrites.  The nil map and the empty map are
    both [∅]. *)
Definition unmarshal_map {T} (zero : T) (elem : Unmarshal T) (type : string)
  : Unmarshal (gmap string T) := fun j v =>
  match j with
  | JNull => (∅, None)
  | JObject l =>
      fold_left
        (fun (acc : gmap string T * option JSONError) (kv : string * JSON) =>
           let '(e, err) := elem (snd kv) zero in
           (<[fst kv := e]> (fst acc), first_error (snd acc) err))
        l (v, None)
  | _ => mismatch j type v
  end.

Definition lower (c : ascii) : ascii :=
  let n := N_of_ascii c in
  if ((65 <=? n) && (n <=? 90))%N then ascii_of_N (n + 32) else c.

(** Names are compared up to Unicode simple case folding.  The tags of the
    payload types are ASCII, and the only characters outside ASCII that
    fold to an ASCII letter are U+212A (Kelvin sign, folds to [k]) and
    U+017F (long s, folds to [s]), here in their UTF-8 bytes. *)
Fixpoint fold_case (s : string) : string :=
  match s with
  | String "226"%char (String "132"%char (String "170"%char r)) =>
      String "k"%char (fold_case r)
  | String "197"%char (String "191"%char r) => String "s"%char (fold_case r)
  | String c r => String (lower c) (fold_case r)
  | EmptyString => EmptyString
  end.

(** The field a member name selects: the tag equal to it, or else the first
    tag equal to it up to letter case. *)
Definition find_field {T} (fields : list (string * Unmarshal T)) (key : string)
  : option (Unmarshal T) :=
  match find (fun f => String.eqb (fst f) key) fields with
  | Some f => Some (snd f)
  | None =>
      match find (fun f => String.eqb (fold_case (fst f)) (fold_case key)) fields with
      | Some f => Some (snd f)
      | None => None
      end
  end.

Definition unmarshal_struct {T} (fields : list (string * Unmarshal T)) (type : string)
  : Unmarshal T := fun j v =>
  match j with
  | JNull => (v, None)
  | JObject l =>
      fold_left
        (fun (acc : T * option JSONError) (kv : string * JSON) =>
           match find_field fields (fst kv) with
           | Some store =>
               let '(v', err) := store (snd kv) (fst acc) in
               (v', first_error (snd acc) err)
           | None => acc
           end)
        l (v, None)
  | _ => mismatch j type v
  end.

(** A struct field, read with [get] and written with [set]. *)
Definition field {T F} (tag : string) (get : T -> F) (set : F -> T -> T)
  (store : Unmarshal F) : string * Unmarshal T :=
  (tag, fun j v => let '(f, err) := store j (get v) in (set f v, err)).

(** A type that [Decode] can fill: its zero value and its unmarshaller. *)
Class Decodable (T : Type) := {
  zero : T;
  unmarshal : Unmarshal T
}.

(** [json.NewDecoder(body).Decode(ptr)]. *)
Definition Decode {T} `{Decodable T} (body : string) (ptr : T) : T * option JSONError :=
  match scan body with
  | inl e => (ptr, Some e)
  | inr j => unmarshal j ptr
  end.

(** ** Payload types ([client.go], lines 22-86)

    Unsigned 64-bit counters are integers in the range that [ParseUint64]
    accepts.  Each unmarshaller lists the [json] tags of its struct, and
    names its type as a mismatch would; an anonymous struct type, which Go
    prints in full, is named [struct] for short. *)

(** [BuildInfo] payload returned by [GET /]. *)
Record BuildInfo_FluentBit := {
  Version : string;
  Edition : string;
  Flags : list string
}.

Record BuildInfo := { FluentBit : BuildInfo_FluentBit }.

(** [UpTime] payload returned by [GET /api/v1/uptime]. *)
Record UpTime := {
  UpTimeSec : Z;
  UpTimeHr : string
}.

Record MetricInput := {
  Records : Z;
  Bytes : Z
}.

Record MetricOutput := {
  ProcRecords : Z;
  ProcBytes : Z;
  Errors : Z;
  Retries : Z;
  RetriesFailed : Z
}.

(** [Metrics] payload returned by [GET /api/v1/metrics], maps keyed by
    metric name. *)
Record Metrics := {
  Input : gmap string MetricInput;
  Output : gmap string MetricOutput
}.

Record PluginStorage_Status := {
  Overlimit : bool;
  MemSize : string;
  MemLimit : string
}.

Record PluginStorage_Chunks := {
  Total : Z;
  Up : Z;
  Down : Z;
  Busy : Z;
  BusySize : string
}.

Record PluginStorage := {
  Status : PluginStorage_Status;
  Chunks : PluginStorage_Chunks
}.

Record StorageLayer_Chunks := {
  TotalChunks : Z;
  MemChunks : Z;
  FsChunks : Z;
  FsChunksUp : Z;
  FsChunksDown : Z
}.

(** The field [Chunks] of the anonymous struct [StorageLayer]. *)
Record StorageMetrics_StorageLayer := { LayerChunks : StorageLayer_Chunks }.

Record StorageMetrics := {
  StorageLayer : StorageMetrics_StorageLayer;
  InputChunks : gmap string PluginStorage
}.

#[export] Instance uint64_decodable : Decodable Z :=
  {| zero := 0; unmarshal := unmarshal_uint64 |}.

#[export] Instance string_decodable : Decodable string :=
  {| zero := EmptyString; unmarshal := unmarshal_string |}.

#[export] Instance bool_decodable : Decodable bool :=
  {| zero := false; unmarshal := unmarshal_bool |}.

#[export] Instance strings_decodable : Decodable (list string) :=
  {| zero := []; unmarshal := unmarshal_slice zero unmarshal "[]string" |}.

#[export] Instance BuildInfo_FluentBit_decodable : Decodable BuildInfo_FluentBit :=
  {| zero := {| Version := zero; Edition := zero; Flags := zero |};
     unmarshal := unmarshal_struct
       [ field "version" Version
           (fun x v => {| Version := x; Edition := Edition v; Flags := Flags v |}) unmarshal;
         field "edition" Edition
           (fun x v => {| Version := Version v; Edition := x; Flags := Flags v |}) unmarshal;
         field "flags" Flags
           (fun x v => {| Version := Version v; Edition := Edition v; Flags := x |}) unmarshal ]
       "struct" |}.

#[export] Instance BuildInfo_decodable : Decodable BuildInfo :=
  {| zero := {| FluentBit := zero |};
     unmarshal := unmarshal_struct
       [ field "fluent-bit" FluentBit (fun x _ => {| FluentBit := x |}) unmarshal ]
       "fluentbit.BuildInfo" |}.

#[export] Instance UpTime_decodable : Decodable UpTime :=
  {| zero := {| UpTimeSec := zero; UpTimeHr := zero |};
     unmarshal := unmarshal_struct
       [ field "uptime_sec" UpTimeSec
           (fun x v => {| UpTimeSec := x; UpTimeHr := UpTimeHr v |}) unmarshal;
         field "uptime_hr" UpTimeHr
           (fun x v => {| UpTimeSec := UpTimeSec v; UpTimeHr := x |}) unmarshal ]
       "fluentbit.UpTime" |}.

#[export] Instance MetricInput_decodable : Decodable MetricInput :=
  {| zero := {| Records := zero; Bytes := zero |};
     unmarshal := unmarshal_struct
       [ field "records" Records (fun x v => {| Records := x; Bytes := Bytes v |}) unmarshal;
         field "bytes" Bytes (fun x v => {| Records := Records v; Bytes := x |}) unmarshal ]
       "fluentbit.MetricInput" |}.

#[export] Instance MetricOutput_decodable : Decodable MetricOutput :=
  {| zero := {| ProcRecords := zero; ProcBytes := zero; Errors := zero;
                Retries := zero; RetriesFailed := zero |};
     unmarshal := unmarshal_struct
       [ field "proc_records" ProcRecords
           (fun x v => {| ProcRecords := x; ProcBytes := ProcBytes v; Errors := Errors v;
                          Retries := Retries v; RetriesFailed := RetriesFailed v |}) unmarshal;
         field "proc_bytes" ProcBytes
           (fun x v => {| ProcRecords := ProcRecords v; ProcBytes := x; Errors := Errors v;
                          Retries := Retries v; RetriesFailed := RetriesFailed v |}) unmarshal;
         field "errors" Errors
           (fun x v => {| ProcRecords := ProcRecords v; ProcBytes := ProcBytes v; Errors := x;
                          Retries := Retries v; RetriesFailed := RetriesFailed v |}) unmarshal;
         field "retries" Retries
           (fun x v => {| ProcRecords := ProcRecords v; ProcBytes := ProcBytes v;
                          Errors := Errors v; Retries := x;
                          RetriesFailed := RetriesFailed v |}) unmarshal;
         field "retries_failed" RetriesFailed
           (fun x v => {| ProcRecords := ProcRecords v; ProcBytes := ProcBytes v;
                          Errors := Errors v; Retries := Retries v;
                          RetriesFailed := x |}) unmarshal ]
       "fluentbit.MetricOutput" |}.

#[export] Instance Metrics_decodable : Decodable Metrics :=
  {| zero := {| Input := ∅; Output := ∅ |};
     unmarshal := unmarshal_struct
       [ field "input" Input (fun x v => {| Input := x; Output := Output v |})
           (unmarshal_map zero unmarshal "map[string]fluentbit.MetricInput");
         field "output" Output (fun x v => {| Input := Input v; Output := x |})
           (unmarshal_map zero unmarshal "map[string]fluentbit.MetricOutput") ]
       "fluentbit.Metrics" |}.

#[export] Instance PluginStorage_Status_decodable : Decodable PluginStorage_Status :=
  {| zero := {| Overlimit := zero; MemSize := zero; MemLimit := zero |};
     unmarshal := unmarshal_struct
       [ field "overlimit" Overlimit
           (fun x v => {| Overlimit := x; MemSize := MemSize v; MemLimit := MemLimit v |})
           unmarshal;
         field "mem_size" MemSize
           (fun x v => {| Overlimit := Overlimit v; MemSize := x; MemLimit := MemLimit v |})
           unmarshal;
         field "mem_limit" MemLimit
           (fun x v => {| Overlimit := Overlimit v; MemSize := MemSize v; MemLimit := x |})
           unmarshal ]
       "struct" |}.

#[export] Instance PluginStorage_Chunks_decodable : Decodable PluginStorage_Chunks :=
  {| zero := {| Total := zero; Up := zero; Down := zero; Busy := zero; BusySize := zero |};
     unmarshal := unmarshal_struct
       [ field "total" Total
           (fun x v => {| Total := x; Up := Up v; Down := Down v; Busy := Busy v;
                          BusySize := BusySize v |}) unmarshal;
         field "up" Up
           (fun x v => {| Total := Total v; Up := x; Down := Down v; Busy := Busy v;
                          BusySize := BusySize v |}) unmarshal;
         field "down" Down
           (fun x v => {| Total := Total v; Up := Up v; Down := x; Busy := Busy v;
                          BusySize := BusySize v |}) unmarshal;
         field "busy" Busy
           (fun x v => {| Total := Total v; Up := Up v; Down := Down v; Busy := x;
                          BusySize := BusySize v |}) unmarshal;
         field "busy_size" BusySize
           (fun x v => {| Total := Total v; Up := Up v; Down := Down v; Busy := Busy v;
                          BusySize := x |}) unmarshal ]
       "struct" |}.

#[export] Instance PluginStorage_decodable : Decodable PluginStorage :=
  {| zero := {| Status := zero; Chunks := zero |};
     unmarshal := unmarshal_struct
       [ field "status" Status (fun x v => {| Status := x; Chunks := Chunks v |}) unmarshal;
         field "chunks" Chunks (fun x v => {| Status := Status v; Chunks := x |}) unmarshal ]
       "fluentbit.PluginStorage" |}.

#[export] Instance StorageLayer_Chunks_decodable : Decodable StorageLayer_Chunks :=
  {| zero := {| TotalChunks := zero; MemChunks := zero; FsChunks := zero;
                FsChunksUp := zero; FsChunksDown := zero |};
     unmarshal := unmarshal_struct
       [ field "total_chunks" TotalChunks
           (fun x v => {| TotalChunks := x; MemChunks := MemChunks v; FsChunks := FsChunks v;
                          FsChunksUp := FsChunksUp v; FsChunksDown := FsChunksDown v |})
           unmarshal;
         field "mem_chunks" MemChunks
           (fun x v => {| TotalChunks := TotalChunks v; MemChunks := x; FsChunks := FsChunks v;
                          FsChunksUp := FsChunksUp v; FsChunksDown := FsChunksDown v |})
           unmarshal;
         field "fs_chunks" FsChunks
           (fun x v => {| TotalChunks := TotalChunks v; MemChunks := MemChunks v; FsChunks := x;
                          FsChunksUp := FsChunksUp v; FsChunksDown := FsChunksDown v |})
           unmarshal;
         field "fs_chunks_up" FsChunksUp
           (fun x v => {| TotalChunks := TotalChunks v; MemChunks := MemChunks v;
                          FsChunks := FsChunks v; FsChunksUp := x;
                          FsChunksDown := FsChunksDown v |}) unmarshal;
         field "fs_chunks_down" FsChunksDown
           (fun x v => {| TotalChunks := TotalChunks v; MemChunks := MemChunks v;
                          FsChunks := FsChunks v; FsChunksUp := FsChunksUp v;
                          FsChunksDown := x |}) unmarshal ]
       "struct" |}.

#[export] Instance StorageMetrics_StorageLayer_decodable
  : Decodable StorageMetrics_StorageLayer :=
  {| zero := {| LayerChunks := zero |};
     unmarshal := unmarshal_struct
       [ field "chunks" LayerChunks (fun x _ => {| LayerChunks := x |}) unmarshal ]
       "struct" |}.

#[export] Instance StorageMetrics_decodable : Decodable StorageMetrics :=
  {| zero := {| StorageLayer := zero; InputChunks := ∅ |};
     unmarshal := unmarshal_struct
       [ field "storage_layer" StorageLayer
           (fun x v => {| StorageLayer := x; InputChunks := InputChunks v |}) unmarshal;
         field "input_chunks" InputChunks
           (fun x v => {| StorageLayer := StorageLayer v; InputChunks := x |})
           (unmarshal_map zero unmarshal "map[string]fluentbit.PluginStorage") ]
       "fluentbit.StorageMetrics" |}.

(** ** Package net/http and the scheduler *)

Definition StatusBadRequest : Z := 400.
Definition StatusNotFound : Z := 404.

(** What one call of [HTTPClient.Do] comes back with. *)
Inductive RoundTrip :=
| TransportError (cause : string)
| Response (StatusCode : Z) (Body : string).

(** The context travels with the request. *)
Record Request := {
  req_ctx : Context;
  Method : string;
  URL : string
}.

(** Client for the Fluent Bit monitoring HTTP API ([client.go], lines
    16-20).  The HTTP client is known by the peer it reaches: a GET of [url]
    sent after [i] earlier requests is answered by [snd (HTTPClient url i)],
    which takes [fst (HTTPClient url i)] nanoseconds to arrive. *)
Record Client := {
  HTTPClient : string -> nat -> Duration * RoundTrip;
  BaseURL : string
}.

(** What the program does not decide: the error of [url.Parse] on a string,
    if any, and which case a [select] takes when both are ready ([true] for
    [ctx.Done()]), select after select. *)
Record Runtime := {
  url_error : string -> option string;
  race : nat -> bool
}.

(** A round trip that was made: when [Do] was called, when it returned, and
    with what. *)
Record Exchange := {
  started : Z;
  finished : Z;
  outcome : RoundTrip
}.

(** The clock, the requests sent so far, and the number of selects run. *)
Record World := {
  now : Z;
  sent : list Exchange;
  selects : nat
}.

(** The errors that [fetchJSON] builds with [fmt.Errorf], lines 113, 122,
    134 and 138. *)
Inductive error :=
| errCreateRequest (cause : string)
| errTimeout (endpoint : string)
| errStatus (StatusCode : Z)
| errUnmarshal (cause : JSONError).

(** The message of a cause, in short.  [SyntaxError] stands for every
    error of the scanner, whose messages name the character met and what
    was expected, or the depth exceeded; a mismatch is rendered without the
    struct field that the decoder adds.  The causes here record neither. *)
Definition JSONError_string (e : JSONError) : string :=
  match e with
  | EOF => "EOF"
  | ErrUnexpectedEOF => "unexpected EOF"
  | SyntaxError => "invalid character"
  | UnmarshalTypeError value type =>
      "json: cannot unmarshal " ++ value ++ " into Go value of type " ++ type
  end.

(** The message of each [fmt.Errorf] of [fetchJSON]. *)
Definition error_string (e : error) : string :=
  match e with
  | errCreateRequest cause => "could not create request: " ++ cause
  | errTimeout endpoint => "timeout while trying to reach: " ++ endpoint
  | errStatus code => "failed with status code " ++ pretty code
  | errUnmarshal cause => "could not json unmarshal response: " ++ JSONError_string cause
  end.

Definition retried (r : RoundTrip) : bool :=
  match r with
  | TransportError _ => true
  | Response code _ => code =? StatusNotFound
  end.

Inductive Selected := CaseDone | CaseTick.

(** The outcome of the polling loop: left through [ctx.Done()], or through
    [break loop] with a response. *)
Inductive Polled :=
| Cancelled
| Final (StatusCode : Z) (Body : string).

Section Fetch.

Variable rt : Runtime.

Definition NewRequestWithContext (ctx : Context) (method url : string)
  : string + Request :=
  match url_error rt url with
  | Some e => inl e
  | None => inr {| req_ctx := ctx; Method := method; URL := url |}
  end.

(** [c.HTTPClient.Do(req)].  The round trip returns the answer of the peer
    after its latency, unless the context of the request is done by then:
    the round trip is given up the instant the context is done, at once if
    it already is, with an error, named here by its cause, which [net/http]
    wraps with the method and the URL.  The body of a response takes no
    further time to read. *)
Definition Do (c : Client) (req : Request) (w : World) : RoundTrip * World :=
  let '(latency, answer) := HTTPClient c (URL req) (List.length (sent w)) in
  let arrival := now w + Z.max 0 latency in
  let '(t, r) :=
    match done_at (req_ctx req) with
    | Some d =>
        if d <=? arrival
        then (Z.max (now w) d, TransportError "context deadline exceeded")
        else (arrival, answer)
    | None => (arrival, answer)
    end in
  (r, {| now := t;
         sent := (sent w ++ [{| started := now w; finished := t; outcome := r |}])%list;
         selects := selects w |}).

(** [select { case <-ctx.Done(): ... case <-ticker.C: ... }]: the goroutine
    sleeps until a case is ready; when both are, the scheduler picks. *)
Definition select (ctx : Context) (tk : Ticker) (w : World)
  : Selected * Ticker * World :=
  let tk0 := deliver (now w) tk in
  let t :=
    if isDone ctx (now w) || C tk0 then now w
    else match done_at ctx with
         | Some d => Z.min d (due tk0)
         | None => due tk0
         end in
  let tk1 := deliver t tk0 in
  let w1 := {| now := t; sent := sent w; selects := S (selects w) |} in
  if isDone ctx t && (negb (C tk1) || race rt (selects w))
  then (CaseDone, tk1, w1)
  else (CaseTick, receive tk1, w1).

(** The loop of [fetchJSON], lines 118-129. *)
Fixpoint poll (fuel : nat) (c : Client) (ctx : Context) (req : Request)
  (ticker : Ticker) (w : World) : option (Polled * World) :=
  match fuel with
  | O => None
  | S fuel' =>
      match select ctx ticker w with
      | (CaseDone, _, w1) => Some (Cancelled, w1)
      | (CaseTick, ticker1, w1) =>
          match Do c req w1 with
          | (Response code body, w2) =>
              if negb (code =? StatusNotFound)
              then Some (Final code body, w2)
              else poll fuel' c ctx req ticker1 w2
          | (TransportError _, w2) => poll fuel' c ctx req ticker1 w2
          end
      end
  end.

(** [fetchJSON], lines 110-142: what [*ptr] holds at the end, the error
    returned, and the world left behind; [None] while the loop still runs
    when [fuel] is spent. *)
Definition fetchJSON {T} `{Decodable T} (fuel : nat) (c : Client) (ctx : Context)
  (endpoint : string) (ptr : T) (w : World) : option (T * option error * World) :=
  match NewRequestWithContext ctx "GET" (BaseURL c ++ endpoint) with
  | inl e => Some (ptr, Some (errCreateRequest e), w)
  | inr req =>
      let ticker := NewTicker DefaultHTTPRetryBackoff (now w) in
      match poll fuel c ctx req ticker w with
      | None => None
      | Some (Cancelled, w') => Some (ptr, Some (errTimeout endpoint), w')
      | Some (Final code body, w') =>
          if StatusBadRequest <=? code
          then Some (ptr, Some (errStatus code), w')
          else
            match Decode body ptr with
            | (ptr', Some e) => Some (ptr', Some (errUnmarshal e), w')
            | (ptr', None) => Some (ptr', None, w')
            end
      end
  end.

(** The four accessors, lines 88-108.  The variable handed to [fetchJSON] by
    address is read for the result once the call is over: the tests read
    the decoded fields from it. *)
Definition Client_BuildInfo (fuel : nat) (c : Client) (ctx : Context) (w : World)
  : option (BuildInfo * option error * World) :=
  let info : BuildInfo := zero in
  fetchJSON fuel c ctx "/" info w.

Definition Client_UpTime (fuel : nat) (c : Client) (ctx : Context) (w : World)
  : option (UpTime * option error * World) :=
  let up : UpTime := zero in
  fetchJSON fuel c ctx "/api/v1/uptime" up w.

Definition Client_Metrics (fuel : nat) (c : Client) (ctx : Context) (w : World)
  : option (Metrics * option error * World) :=
  let mm : Metrics := zero in
  fetchJSON fuel c ctx "/api/v1/metrics" mm w.

Definition Client_StorageMetrics (fuel : nat) (c : Client) (ctx : Context) (w : World)
  : option (StorageMetrics * option error * World) :=
  let mm : StorageMetrics := zero in
  let ctxWithTimeout := WithTimeout ctx (now w) DefaultHTTPRetryTimeout in
  fetchJSON fuel c ctxWithTimeout "/api/v1/storage" mm w.

End Fetch.

(** ** Vocabulary of the statements *)

(** The instant at which a select returns. *)
Definition wake (ctx : Context) (tk : Ticker) (w : World) : Z :=
  let tk0 := deliver (now w) tk in
  if isDone ctx (now w) || C tk0 then now w
  else match done_at ctx with
       | Some d => Z.min d (due tk0)
       | None => due tk0
       end.

(** The time the peer takes over [n] requests, from the one sent after
    [from] earlier ones. *)
Fixpoint latencies (serve : nat -> Duration * RoundTrip) (from n : nat) : Z :=
  match n with
  | O => 0
  | S n' => Z.max 0 (fst (serve from)) + latencies serve (S from) n'
  end.

(** The context leaves time for [n] attempts: a period of waiting and the
    latency of the answer, for each. *)
Definition in_time (ctx : Context) (serve : nat -> Duration * RoundTrip)
  (w : World) (n : nat) : Prop :=
  forall d, done_at ctx = Some d ->
    now w + Z.of_nat n * DefaultHTTPRetryBackoff
      + latencies serve (List.length (sent w)) n < d.

Definition exchanged (w w' : World) (new : list Exchange) : Prop :=
  sent w' = (sent w ++ new)%list.

(** A round trip under a context done at [d]: it is over by then, and one
    that lasts until then has been given up. *)
Definition given_up_at (d : Z) (x : Exchange) : Prop :=
  started x <= finished x <= Z.max (started x) d /\
  (d <= finished x -> outcome x = TransportError "context deadline exceeded").

Definition was_retried (x : Exchange) : Prop := retried (outcome x) = true.

(** The ticks that can still be received before [d]: at most [m]. *)
Definition budget (d : Z) (m : nat) (tk : Ticker) : Prop :=
  d < due tk + (Z.of_nat m - (if C tk then 1 else 0)) * period tk /\
  (C tk = true -> (1 <= m)%nat).

(** What a caller can observe of the world: the clock, the selects run, and
    when each request started and finished. *)
Definition course (w : World) : Z * nat * list (Z * Z) :=
  (now w, selects w, map (fun x => (started x, finished x)) (sent w)).

(** Two clients whose peers answer after the same time, and with the same
    answer unless both answers are retried ones. *)
Definition alike (c c' : Client) : Prop :=
  BaseURL c = BaseURL c' /\
  forall url i,
    fst (HTTPClient c url i) = fst (HTTPClient c' url i) /\
    (snd (HTTPClient c url i) = snd (HTTPClient c' url i) \/
     (retried (snd (HTTPClient c url i)) = true /\
      retried (snd (HTTPClient c' url i)) = true)).

Definition StatusOK : Z := 200.

(** What [fetchJSON] makes of a final response. *)
Definition settle {T} `{Decodable T} (code : Z) (body : string) (ptr : T)
  : T * option error :=
  if StatusBadRequest <=? code then (ptr, Some (errStatus code))
  else
    match Decode body ptr with
    | (ptr', Some e) => (ptr', Some (errUnmarshal e))
    | (ptr', None) => (ptr', None)
    end.

(** The first [n] answers to come are retried ones, the next is [final]. *)
Definition retried_then (serve : nat -> Duration * RoundTrip) (w : World) (n : nat)
  (final : RoundTrip) : Prop :=
  (forall i, (i < n)%nat -> retried (snd (serve (List.length (sent w) + i)%nat)) = true) /\
  snd (serve (List.length (sent w) + n)%nat) = final.

(** The first [n] answers to come are 404 responses, the next is [final]. *)
Definition not_found_then (serve : nat -> Duration * RoundTrip) (w : World) (n : nat)
  (final : RoundTrip) : Prop :=
  (forall i, (i < n)%nat ->
     exists body, snd (serve (List.length (sent w) + i)%nat) = Response StatusNotFound body) /\
  snd (serve (List.length (sent w) + n)%nat) = final.

(** The four operations of the client. *)
Inductive Operation := OpBuildInfo | OpUpTime | OpMetrics | OpStorageMetrics.

Definition result_type (op : Operation) : Type :=
  match op with
  | OpBuildInfo => BuildInfo
  | OpUpTime => UpTime
  | OpMetrics => Metrics
  | OpStorageMetrics => StorageMetrics
  end.

Definition endpoint_of (op : Operation) : string :=
  match op with
  | OpBuildInfo => "/"
  | OpUpTime => "/api/v1/uptime"
  | OpMetrics => "/api/v1/metrics"
  | OpStorageMetrics => "/api/v1/storage"
  end.

#[export] Instance result_decodable (op : Operation) : Decodable (result_type op) :=
  match op with
  | OpBuildInfo => BuildInfo_decodable
  | OpUpTime => UpTime_decodable
  | OpMetrics => Metrics_decodable
  | OpStorageMetrics => StorageMetrics_decodable
  end.

Definition call (rt : Runtime) (op : Operation) (fuel : nat) (c : Client)
  (ctx : Context) (w : World) : option (result_type op * option error * World) :=
  match op with
  | OpBuildInfo => Client_BuildInfo rt fuel c ctx w
  | OpUpTime => Client_UpTime rt fuel c ctx w
  | OpMetrics => Client_Metrics rt fuel c ctx w
  | OpStorageMetrics => Client_StorageMetrics rt fuel c ctx w
  end.

(** The context under which an operation polls. *)
Definition polling_ctx (op : Operation) (ctx : Context) (w : World) : Context :=
  match op with
  | OpStorageMetrics => WithTimeout ctx (now w) DefaultHTTPRetryTimeout
  | _ => ctx
  end.

(** The clock goes from [t] to [t'] through the round trips of [l], one
    after the other. *)
Fixpoint sequential (t : Z) (l : list Exchange) (t' : Z) : Prop :=
  match l with
  | [] => t <= t'
  | x :: l' => t <= started x /\ started x <= finished x /\ sequential (finished x) l' t'
  end.

(** The first tick after [t] of a ticker made at [t0]. *)
Definition next_tick (t0 t : Z) : Z :=
  t0 + DefaultHTTPRetryBackoff * ((t - t0) / DefaultHTTPRetryBackoff + 1).

(** The round trips of [l] follow the ticks of a ticker made at [t0]: each
    starts at the first tick after the start of the one before, or when the
    one before ends if that tick has come by then.  [s] and [f] are the
    start and the end of the round trip before [l]. *)
Fixpoint on_ticks (t0 s f : Z) (l : list Exchange) : Prop :=
  match l with
  | [] => True
  | x :: l' =>
      started x = Z.max f (next_tick t0 s) /\ on_ticks t0 (started x) (finished x) l'
  end.

(** The request that [fetchJSON] builds. *)
Definition request_of (c : Client) (ctx : Context) (endpoint : string) : Request :=
  {| req_ctx := ctx; Method := "GET"; URL := BaseURL c ++ endpoint |}.

(** A list of round trips that ends with the response [code], [body],
    received at [t'], after retried ones only. *)
Definition ends_with (new : list Exchange) (t' code : Z) (body : string) : Prop :=
  exists pre t,
    new = (pre ++ [{| started := t; finished := t'; outcome := Response code body |}])%list /\
    Forall was_retried pre.

(** What the error returned by a call tells of its course. *)
Definition course_of_outcome {T} `{Decodable T} (rt : Runtime) (c : Client)
  (ctx : Context) (endpoint : string) (ptr : T) (w : World)
  (v : T) (e : option error) (w' : World) (new : list Exchange) : Prop :=
  match e with
  | None =>
      exists code body,
        ends_with new (now w') code body /\ code <> StatusNotFound /\
        code < StatusBadRequest /\ Decode body ptr = (v, None)
  | Some (errUnmarshal cause) =>
      exists code body t',
        ends_with new t' code body /\ code <> StatusNotFound /\
        code < StatusBadRequest
  | Some (errStatus code) =>
      exists body,
        ends_with new (now w') code body /\ code <> StatusNotFound /\
        StatusBadRequest <= code /\ v = ptr
  | Some (errTimeout ep) =>
      ep = endpoint /\ v = ptr /\ Forall was_retried new /\
      isDone ctx (now w') = true
  | Some (errCreateRequest cause) =>
      url_error rt (BaseURL c ++ endpoint) = Some cause /\ v = ptr /\
      new = [] /\ w' = w
  end.

(** A peer that answers [url] as [c] does and every other URL with a 500. *)
Definition only_route (c : Client) (url : string) : Client :=
  {| HTTPClient := fun u i =>
       if String.eqb u url then HTTPClient c u i
       else (0, Response 500 "Internal Server Error");
     BaseURL := BaseURL c |}.

(** The values of an unsigned 64-bit counter. *)
Definition in_uint64 (n : Z) : Prop := 0 <= n < 2 ^ 64.

Definition UpTime_ok (v : UpTime) : Prop := in_uint64 (UpTimeSec v).

Definition MetricInput_ok (v : MetricInput) : Prop :=
  in_uint64 (Records v) /\ in_uint64 (Bytes v).

Definition MetricOutput_ok (v : MetricOutput) : Prop :=
  in_uint64 (ProcRecords v) /\ in_uint64 (ProcBytes v) /\ in_uint64 (Errors v) /\
  in_uint64 (Retries v) /\ in_uint64 (RetriesFailed v).

Definition Metrics_ok (v : Metrics) : Prop :=
  map_Forall (fun _ => MetricInput_ok) (Input v) /\
  map_Forall (fun _ => MetricOutput_ok) (Output v).

Definition PluginStorage_Chunks_ok (v : PluginStorage_Chunks) : Prop :=
  in_uint64 (Total v) /\ in_uint64 (Up v) /\ in_uint64 (Down v) /\ in_uint64 (Busy v).

Definition PluginStorage_ok (v : PluginStorage) : Prop :=
  PluginStorage_Chunks_ok (Chunks v).

Definition StorageLayer_Chunks_ok (v : StorageLayer_Chunks) : Prop :=
  in_uint64 (TotalChunks v) /\ in_uint64 (MemChunks v) /\ in_uint64 (FsChunks v) /\
  in_uint64 (FsChunksUp v) /\ in_uint64 (FsChunksDown v).

Definition StorageMetrics_ok (v : StorageMetrics) : Prop :=
  StorageLayer_Chunks_ok (LayerChunks (StorageLayer v)) /\
  map_Forall (fun _ => PluginStorage_ok) (InputChunks v).

(** Every counter of a result is a [uint64]. *)
Definition result_ok (op : Operation) : result_type op -> Prop :=
  match op with
  | OpBuildInfo => fun _ => True
  | OpUpTime => UpTime_ok
  | OpMetrics => Metrics_ok
  | OpStorageMetrics => StorageMetrics_ok
  end.

(** The only errors of storing: a value of the wrong kind. *)
Definition mismatch_only (o : option JSONError) : Prop :=
  match o with
  | None | Some (UnmarshalTypeError _ _) => True
  | Some _ => False
  end.

(** An unmarshaller that keeps [P] and reports mismatches only. *)
Definition keeps {T} (P : T -> Prop) (u : Unmarshal T) : Prop :=
  forall j v, P v -> P (fst (u j v)) /\ mismatch_only (snd (u j v)).

(** The tags of the members that an operation reads at the top of the
    payload ([client.go], lines 22-86). *)
Definition tags_of (op : Operation) : list string :=
  match op with
  | OpBuildInfo => ["fluent-bit"]
  | OpUpTime => ["uptime_sec"; "uptime_hr"]
  | OpMetrics => ["input"; "output"]
  | OpStorageMetrics => ["storage_layer"; "input_chunks"]
  end.

(** A string of decimal digits. *)
Fixpoint only_digits (s : string) : bool :=
  match s with
  | String c r => is_digit c && only_digits r
  | EmptyString => true
  end.

(** A natural number as JSON writes it: digits, with no zero in front. *)
Definition numeral (s : string) : Prop :=
  only_digits s = true /\
  (s = "0" \/ exists c r, s = String c r /\ c <> "0"%char).

(** ** Sample runs *)

(** JSON text written with single quotes for the double ones. *)
Fixpoint json_text (s : string) : string :=
  match s with
  | String c r => String (if Ascii.eqb c "'"%char then "034"%char else c) (json_text r)
  | EmptyString => EmptyString
  end.

Fixpoint has_control (s : string) : bool :=
  match s with
  | String c r => (N_of_ascii c <? 32)%N || (N_of_ascii c =? 127)%N || has_control r
  | EmptyString => false
  end.

(** A runtime whose URL parser rejects control characters and whose
    scheduler favours [ctx.Done()]. *)
Definition go_runtime : Runtime :=
  {| url_error := fun url =>
       if has_control url then Some "net/url: invalid control character in URL"
       else None;
     race := fun _ => true |}.

Definition boot : World := {| now := 0; sent := []; selects := O |}.

Definition within (d : Duration) : Context := {| done_at := Some d |}.

Definition agent_url : string := "http://127.0.0.1:2020".

Definition uptime_body : string := json_text "{'uptime_sec': 5, 'uptime_hr': '5s'}".

Definition metrics_body : string :=
  json_text "{'input':{'cpu.0':{'records':10,'bytes':200}},'output':{'stdout.0':{'proc_records':10,'proc_bytes':200,'errors':0,'retries':0,'retries_failed':0}}}".

Definition metrics_value : Metrics :=
  {| Input := {[ "cpu.0" := {| Records := 10; Bytes := 200 |} ]};
     Output := {[ "stdout.0" := {| ProcRecords := 10; ProcBytes := 200; Errors := 0;
                                   Retries := 0; RetriesFailed := 0 |} ]} |}.

Definition page (url : string) : string :=
  if String.eqb url (agent_url ++ "/api/v1/uptime") then uptime_body
  else if String.eqb url (agent_url ++ "/api/v1/metrics") then metrics_body
  else json_text "{}".

(** An agent whose routes appear after three requests. *)
Definition starting_agent : Client :=
  {| HTTPClient := fun url i =>
       if (i <? 3)%nat then (10 * Millisecond, Response StatusNotFound "Not Found")
       else (100 * Millisecond, Response StatusOK (page url));
     BaseURL := agent_url |}.

(** An agent that fails inside, after one refused connection. *)
Definition broken_agent : Client :=
  {| HTTPClient := fun url i =>
       if (i <? 1)%nat then (Millisecond, TransportError "connection refused")
       else (20 * Millisecond, Response 500 "Internal Server Error");
     BaseURL := agent_url |}.

(** Something else listens on the port. *)
Definition other_server : Client :=
  {| HTTPClient := fun url i => (5 * Millisecond, Response StatusOK "<html></html>");
     BaseURL := agent_url |}.

Definition down_agent : Client :=
  {| HTTPClient := fun url i => (Millisecond, TransportError "connection refused");
     BaseURL := agent_url |}.

Definition missing_route : Client :=
  {| HTTPClient := fun url i => (Millisecond, Response StatusNotFound "Not Found");
     BaseURL := agent_url |}.

(** The first 404 takes 400 ms, the later ones come at once. *)
Definition slow_agent : Client :=
  {| HTTPClient := fun url i =>
       if (i <? 1)%nat then (400 * Millisecond, Response StatusNotFound "Not Found")
       else (0, Response StatusNotFound "Not Found");
     BaseURL := agent_url |}.

(** A ready agent that takes 100 ms to answer. *)
Definition late_agent : Client :=
  {| HTTPClient := fun url i => (100 * Millisecond, Response StatusOK (page url));
     BaseURL := agent_url |}.

(** The sentences of the specification on cancellation, at one call: no
    request in flight is interrupted, each comes back with the answer of the
    peer after its latency; and a timeout is returned at a tick. *)
Definition stated_no_interruption {T} `{Decodable T} (rt : Runtime) (c : Client)
  (ctx : Context) (endpoint : string) (ptr : T) (w : World) : Prop :=
  forall fuel v e w' new,
    fetchJSON rt fuel c ctx endpoint ptr w = Some (v, e, w') ->
    exchanged w w' new ->
    forall i x, new !! i = Some x ->
      let answer := HTTPClient c (BaseURL c ++ endpoint) (List.length (sent w) + i) in
      outcome x = snd answer /\ finished x = started x + Z.max 0 (fst answer).

Definition stated_exit_at_tick {T} `{Decodable T} (rt : Runtime) (c : Client)
  (ctx : Context) (endpoint : string) (ptr : T) (w : World) : Prop :=
  forall fuel v w',
    fetchJSON rt fuel c ctx endpoint ptr w = Some (v, Some (errTimeout endpoint), w') ->
    (now w' - now w) mod DefaultHTTPRetryBackoff = 0.

Definition stated_cancellation {T} `{Decodable T} (rt : Runtime) (c : Client)
  (ctx : Context) (endpoint : string) (ptr : T) (w : World) : Prop :=
  stated_no_interruption rt c ctx endpoint ptr w /\
  stated_exit_at_tick rt c ctx endpoint ptr w.


(** The world after a call that polled a missing route once and timed out
    at 200 ms. *)
Definition timed_out : World :=
  {| now := 200 * Millisecond;
     sent := [{| started := 150 * Millisecond; finished := 151 * Millisecond;
                 outcome := Response StatusNotFound "Not Found" |}];
     selects := 2 |}.

(** The world after the call of [slow_agent] under 700 ms. *)
Definition slow_course : World :=
  {| now := 700 * Millisecond;
     sent := [{| started := 150 * Millisecond; finished := 550 * Millisecond;
                 outcome := Response StatusNotFound "Not Found" |};
              {| started := 550 * Millisecond; finished := 550 * Millisecond;
                 outcome := Response StatusNotFound "Not Found" |};
              {| started := 600 * Millisecond; finished := 600 * Millisecond;
                 outcome := Response StatusNotFound "Not Found" |}];
     selects := 4 |}.

(** The world after the call of [broken_agent]. *)
Definition broken_course : World :=
  {| now := 320 * Millisecond;
     sent := [{| started := 150 * Millisecond; finished := 151 * Millisecond;
                 outcome := TransportError "connection refused" |};
              {| started := 300 * Millisecond; finished := 320 * Millisecond;
                 outcome := Response 500 "Internal Server Error" |}];
     selects := 2 |}.

(** An agent that is ready but takes four seconds to answer. *)
Definition sleepy_agent : Client :=
  {| HTTPClient := fun url i => (4 * Second, Response StatusOK (page url));
     BaseURL := agent_url |}.

(** The world after the call of [other_server]. *)
Definition html_course : World :=
  {| now := 155 * Millisecond;
     sent := [{| started := 150 * Millisecond; finished := 155 * Millisecond;
                 outcome := Response StatusOK "<html></html>" |}];
     selects := 1 |}.

(** * Properties *)

(** ** The ticker *)

Lemma backoff_pos : 0 < DefaultHTTPRetryBackoff.
Proof. reflexivity. Qed.

Lemma deliver_period t tk : period (deliver t tk) = period tk.
Proof. unfold deliver. destruct (due tk <=? t); reflexivity. Qed.

Lemma deliver_idle t tk : t < due tk -> deliver t tk = tk.
Proof.
  intros Hlt. unfold deliver.
  destruct (Z.leb_spec (due tk) t) as [Hle|_]; [lia | reflexivity].
Qed.

Lemma deliver_due t tk :
  0 < period tk -> due tk <= t ->
  C (deliver t tk) = true /\
  t < due (deliver t tk) <= t + period tk /\
  due tk + period tk <= due (deliver t tk).
Proof.
  intros Hp Hle. unfold deliver.
  destruct (Z.leb_spec (due tk) t) as [_|Hlt]; [|lia]. simpl.
  pose proof (Z.div_mod (t - due tk) (period tk) ltac:(lia)) as Hdm.
  pose proof (Z.mod_pos_bound (t - due tk) (period tk) Hp) as Hb.
  pose proof (Z.div_pos (t - due tk) (period tk) ltac:(lia) Hp) as Hq.
  split; [reflexivity|]. nia.
Qed.

Lemma deliver_after t tk : 0 < period tk -> t < due (deliver t tk).
Proof.
  intros Hp. destruct (Z_lt_le_dec t (due tk)) as [Hlt|Hle].
  - rewrite deliver_idle by assumption. assumption.
  - apply deliver_due; assumption.
Qed.

Lemma deliver_mono t tk : 0 < period tk -> due tk <= due (deliver t tk).
Proof.
  intros Hp. destruct (Z_lt_le_dec t (due tk)) as [Hlt|Hle].
  - rewrite deliver_idle by assumption. lia.
  - pose proof (deliver_due t tk Hp Hle). lia.
Qed.

(** ** The select *)

Section Select.

Variable rt : Runtime.

Lemma isDone_true ctx t : isDone ctx t = true <-> exists d, done_at ctx = Some d /\ d <= t.
Proof.
  unfold isDone. destruct (done_at ctx) as [d|].
  - rewrite Z.leb_le. split; [eauto|]. intros (d' & [= <-] & Hle). exact Hle.
  - split; [discriminate|]. intros (d' & [=] & _).
Qed.

Lemma isDone_false ctx t :
  isDone ctx t = false <-> forall d, done_at ctx = Some d -> t < d.
Proof.
  unfold isDone. destruct (done_at ctx) as [d|].
  - rewrite Z.leb_gt. split; [intros H d' [= <-]; exact H | eauto].
  - split; [discriminate | reflexivity].
Qed.

Lemma select_world ctx tk w :
  (select rt ctx tk w).2 =
  {| now := wake ctx tk w; sent := sent w; selects := S (selects w) |}.
Proof.
  unfold select, wake.
  destruct (isDone ctx _ && _); reflexivity.
Qed.

Lemma wake_bounds ctx tk w :
  0 < period tk ->
  now w <= wake ctx tk w /\
  (wake ctx tk w = now w /\
   (isDone ctx (now w) = true \/ C (deliver (now w) tk) = true) \/
   (isDone ctx (now w) = false /\ C (deliver (now w) tk) = false /\
    now w < wake ctx tk w /\
    wake ctx tk w <= due (deliver (now w) tk) /\
    (forall d, done_at ctx = Some d -> wake ctx tk w <= d) /\
    (wake ctx tk w < due (deliver (now w) tk) -> done_at ctx = Some (wake ctx tk w)))).
Proof.
  intros Hp. unfold wake.
  pose proof (deliver_after (now w) tk Hp) as Haft.
  destruct (isDone ctx (now w)) eqn:Hd; simpl; [split; [lia|left; auto]|].
  destruct (C (deliver (now w) tk)) eqn:HC; [split; [lia|left; auto]|].
  rewrite isDone_false in Hd.
  destruct (done_at ctx) as [d|] eqn:Hctx.
  - specialize (Hd d eq_refl). split; [lia|]. right.
    repeat split; try lia.
    + intros d' [= <-]. lia.
    + intros Hlt. f_equal. lia.
  - split; [lia|]. right. repeat split; try lia; discriminate.
Qed.

Lemma select_inv ctx tk w s tk' w' :
  0 < period tk ->
  select rt ctx tk w = (s, tk', w') ->
  let t := wake ctx tk w in
  w' = {| now := t; sent := sent w; selects := S (selects w) |} /\
  period tk' = period tk /\ t < due tk' /\ due tk <= due tk' /\
  due tk' <= Z.max (due tk) (t + period tk) /\
  (due tk <= t -> due tk + period tk <= due tk') /\
  match s with
  | CaseDone =>
      isDone ctx t = true /\ C tk' = C (deliver t tk) /\
      (C tk' = true -> race rt (selects w) = true)
  | CaseTick =>
      C tk' = false /\
      (isDone ctx t = true -> race rt (selects w) = false) /\
      (C tk = true \/ due tk <= t)
  end.
Proof.
  intros Hp Hsel.
  pose proof (select_world ctx tk w) as Hw'. rewrite Hsel in Hw'. simpl in Hw'.
  pose proof (wake_bounds ctx tk w Hp) as [Hge Hw].
  revert Hsel. unfold select. fold (wake ctx tk w).
  generalize dependent (wake ctx tk w). intros t Hw' Hge Hw. cbv zeta.
  set (tk0 := deliver (now w) tk) in *.
  assert (Hp0 : 0 < period tk0) by (unfold tk0; rewrite deliver_period; exact Hp).
  pose proof (deliver_period t tk0) as Hper.
  pose proof (deliver_period (now w) tk) as Hper0. fold tk0 in Hper0.
  pose proof (deliver_after t tk0 Hp0) as Haft.
  pose proof (deliver_mono t tk0 Hp0) as Hm1.
  pose proof (deliver_mono (now w) tk Hp) as Hm0. fold tk0 in Hm0.
  pose proof (deliver_after (now w) tk Hp) as Haft0. fold tk0 in Haft0.
  assert (Hub : due (deliver t tk0) <= Z.max (due tk) (t + period tk)).
  { destruct (Z_lt_le_dec t (due tk0)) as [Hlt|Hle].
    - rewrite deliver_idle by assumption.
      destruct (Z_lt_le_dec (now w) (due tk)) as [Hlt'|Hle'].
      + unfold tk0. rewrite deliver_idle by assumption. lia.
      + pose proof (deliver_due (now w) tk Hp Hle') as Hd. fold tk0 in Hd. lia.
    - pose proof (deliver_due t tk0 Hp0 Hle). lia. }
  assert (Hstep : due tk <= t -> due tk + period tk <= due (deliver t tk0)).
  { intros Hle. destruct (Z_lt_le_dec (now w) (due tk)) as [Hlt'|Hle'].
    - revert Hm1 Haft. unfold tk0. rewrite deliver_idle by assumption.
      intros _ _. pose proof (deliver_due t tk Hp Hle). lia.
    - pose proof (deliver_due (now w) tk Hp Hle') as Hd. fold tk0 in Hd. lia. }
  assert (HC : C (deliver t tk0) = C (deliver t tk) /\
               (C (deliver t tk0) = true -> C tk = true \/ due tk <= t)).
  { destruct (Z_lt_le_dec t (due tk)) as [Hlt|Hle].
    - unfold tk0. rewrite (deliver_idle (now w)) by lia.
      rewrite deliver_idle by lia. auto.
    - pose proof (deliver_due t tk Hp Hle) as [-> _].
      split; [|auto].
      destruct (Z_lt_le_dec t (due tk0)) as [Hlt'|Hle'].
      + rewrite deliver_idle by assumption.
        destruct (Z_lt_le_dec (now w) (due tk)) as [Hlt''|Hle''].
        * unfold tk0 in Hlt'. rewrite deliver_idle in Hlt' by assumption. lia.
        * apply (deliver_due (now w) tk Hp Hle'').
      + apply (deliver_due t tk0 Hp0 Hle'). }
  destruct HC as [HC1 HC2].
  assert (Hfed : isDone ctx t = false -> C (deliver t tk0) = true).
  { intros Hd.
    destruct Hw as [[Heq [Hd0|HC0]] | (Hnd & HC0 & Hlt & Hle & Hdl & Hdone)].
    - rewrite Heq in Hd. congruence.
    - rewrite deliver_idle; [exact HC0|lia].
    - destruct (Z_lt_le_dec t (due tk0)) as [Hlt'|Hle'].
      + specialize (Hdone Hlt'). exfalso.
        assert (isDone ctx t = true)
          by (apply isDone_true; exists t; split; [assumption|lia]).
        congruence.
      + apply (deliver_due t tk0 Hp0 Hle'). }
  destruct (isDone ctx t) eqn:Hd; simpl.
  - destruct (C (deliver t tk0)) eqn:HCt; simpl.
    + destruct (race rt (selects w)) eqn:Hr; simpl; intros [= <- <- <-]; simpl;
        repeat split; auto; try lia; congruence.
    + intros [= <- <- <-]. repeat split; auto; try lia; congruence.
  - intros [= <- <- <-]. simpl. repeat split; auto; try lia; try discriminate.
Qed.

(** While no case can be ready before the next tick is due, the select takes
    the tick, within one period. *)
Lemma select_tick ctx tk w :
  0 < period tk -> due tk <= now w + period tk ->
  isDone ctx (now w + period tk) = false ->
  exists tk' w',
    select rt ctx tk w = (CaseTick, tk', w') /\
    sent w' = sent w /\ selects w' = S (selects w) /\
    now w <= now w' <= now w + period tk /\
    period tk' = period tk /\ due tk' <= now w' + period tk.
Proof.
  intros Hp Hdue Hnd.
  destruct (select rt ctx tk w) as [[s tk'] w'] eqn:Hsel.
  pose proof (select_inv _ _ _ _ _ _ Hp Hsel) as (Hw' & Hper & Haft & Hmono & Hub & _ & Hs).
  pose proof (wake_bounds ctx tk w Hp) as [Hge Hw].
  cbv zeta in *.
  assert (Ht : wake ctx tk w <= now w + period tk).
  { destruct Hw as [[-> _] | (_ & _ & _ & Hle & _ & Hdone)]; [lia|].
    destruct (Z_lt_le_dec (now w) (due tk)) as [Hlt|Hle'].
    - rewrite deliver_idle in Hle by assumption. lia.
    - pose proof (deliver_due (now w) tk Hp Hle'). lia. }
  assert (Hnd' : isDone ctx (wake ctx tk w) = false).
  { rewrite isDone_false in Hnd |- *. intros d Hd. specialize (Hnd d Hd). lia. }
  exists tk', w'. destruct s.
  - destruct Hs as [Hd _]. congruence.
  - subst w'. simpl. repeat split; auto; lia.
Qed.

End Select.

(** ** The polling loop: up to a final answer *)

Section Poll.

Variable rt : Runtime.

Lemma latencies_nonneg serve from n : 0 <= latencies serve from n.
Proof. revert from. induction n as [|n IH]; intros from; simpl; [lia|]. specialize (IH (S from)). lia. Qed.

Lemma Do_inv c req w r w' :
  Do c req w = (r, w') ->
  let arrival := now w + Z.max 0 (fst (HTTPClient c (URL req) (List.length (sent w)))) in
  sent w' = (sent w ++ [{| started := now w; finished := now w'; outcome := r |}])%list /\
  selects w' = selects w /\
  now w <= now w' /\
  ((isDone (req_ctx req) arrival = false /\ now w' = arrival /\
    r = snd (HTTPClient c (URL req) (List.length (sent w)))) \/
   (exists d, done_at (req_ctx req) = Some d /\ d <= arrival /\
              now w' = Z.max (now w) d /\
              r = TransportError "context deadline exceeded")).
Proof.
  unfold Do, isDone.
  destruct (HTTPClient c (URL req) (List.length (sent w))) as [lat ans]. simpl.
  destruct (done_at (req_ctx req)) as [d|].
  - destruct (Z.leb_spec d (now w + Z.max 0 lat)) as [Hle|Hlt];
      intros [= <- <-]; simpl; repeat split; try lia.
    + right. exists d. repeat split; auto.
    + left. repeat split; auto.
  - intros [= <- <-]. simpl. repeat split; try lia. left. auto.
Qed.

Lemma poll_more fuel k c ctx req tk w r :
  poll rt fuel c ctx req tk w = Some r ->
  poll rt (fuel + k) c ctx req tk w = Some r.
Proof.
  revert tk w. induction fuel as [|fuel IH]; intros tk w; simpl; [discriminate|].
  destruct (select rt ctx tk w) as [[[|] tk1] w1]; [auto|].
  destruct (Do c req w1) as [[cause|code body] w2]; [apply IH|].
  destruct (negb (code =? StatusNotFound)); [auto|apply IH].
Qed.

Lemma poll_agree fuel fuel' c ctx req tk w r r' :
  poll rt fuel c ctx req tk w = Some r ->
  poll rt fuel' c ctx req tk w = Some r' -> r = r'.
Proof.
  intros H H'.
  apply (poll_more _ fuel') in H. apply (poll_more _ fuel) in H'.
  rewrite (Nat.add_comm fuel' fuel) in H'. congruence.
Qed.

(** One turn of the loop when the context leaves the time for it: the tick
    is taken within one period and the answer of the peer comes back. *)
Lemma poll_turn c ctx req tk w :
  req_ctx req = ctx ->
  period tk = DefaultHTTPRetryBackoff ->
  due tk <= now w + DefaultHTTPRetryBackoff ->
  in_time ctx (HTTPClient c (URL req)) w 1 ->
  let answer := HTTPClient c (URL req) (List.length (sent w)) in
  exists tk1 w1 w2,
    select rt ctx tk w = (CaseTick, tk1, w1) /\
    Do c req w1 = (snd answer, w2) /\
    sent w2 = (sent w ++ [{| started := now w1; finished := now w2;
                             outcome := snd answer |}])%list /\
    now w <= now w1 /\
    now w2 = now w1 + Z.max 0 (fst answer) /\
    now w2 <= now w + DefaultHTTPRetryBackoff + Z.max 0 (fst answer) /\
    period tk1 = DefaultHTTPRetryBackoff /\
    due tk1 <= now w2 + DefaultHTTPRetryBackoff.
Proof.
  intros Hctx Hper Hdue Hin answer. pose proof backoff_pos as HI.
  unfold in_time in Hin. simpl latencies in Hin. fold answer in Hin.
  assert (Hp : 0 < period tk) by (rewrite Hper; exact HI).
  assert (Hnd : isDone ctx (now w + period tk) = false).
  { rewrite Hper. apply isDone_false. intros d Hd. specialize (Hin d Hd). lia. }
  rewrite <- Hper in Hdue.
  destruct (select_tick rt ctx tk w Hp Hdue Hnd)
    as (tk1 & w1 & Hsel & Hsent1 & _ & Hnow1 & Hper1 & Hdue1).
  rewrite Hper in Hnow1, Hper1, Hdue1.
  destruct (Do c req w1) as [r w2] eqn:HDo.
  pose proof (Do_inv _ _ _ _ _ HDo) as (Hsent2 & _ & Hnow2 & Hres). cbv zeta in Hres.
  rewrite Hsent1, Hctx in Hres. fold answer in Hres.
  exists tk1, w1, w2.
  destruct Hres as [(_ & Harr & ->) | (d & Hd & Hle & _)].
  - rewrite Hsent2, Hsent1. repeat split; auto; lia.
  - exfalso. specialize (Hin d Hd). lia.
Qed.

Lemma in_time_first ctx serve w n : in_time ctx serve w (S n) -> in_time ctx serve w 1.
Proof.
  intros Hin d Hd. specialize (Hin d Hd). simpl latencies in *.
  pose proof (latencies_nonneg serve (S (List.length (sent w))) n).
  pose proof backoff_pos. nia.
Qed.

(** After [n] retried answers the loop is left with the first answer that
    is final, provided the context leaves the time. *)
Lemma poll_reaches c ctx req code body :
  req_ctx req = ctx ->
  code <> StatusNotFound ->
  forall n tk w k,
    period tk = DefaultHTTPRetryBackoff ->
    due tk <= now w + DefaultHTTPRetryBackoff ->
    (forall i, (i < n)%nat ->
       retried (snd (HTTPClient c (URL req) (List.length (sent w) + i))) = true) ->
    snd (HTTPClient c (URL req) (List.length (sent w) + n)) = Response code body ->
    in_time ctx (HTTPClient c (URL req)) w (S n) ->
    exists w' new t,
      poll rt (S n + k) c ctx req tk w = Some (Final code body, w') /\
      exchanged w w' new /\ List.length new = S n /\
      last new = Some {| started := t; finished := now w';
                         outcome := Response code body |} /\
      now w' <= now w + Z.of_nat (S n) * DefaultHTTPRetryBackoff
                + latencies (HTTPClient c (URL req)) (List.length (sent w)) (S n).
Proof.
  intros Hctx Hcode.
  induction n as [|n IH]; intros tk w k Hper Hdue Hretry Hfinal Hin.
  all: destruct (poll_turn c ctx req tk w Hctx Hper Hdue (in_time_first _ _ _ _ Hin))
         as (tk1 & w1 & w2 & Hsel & HDo & Hsent2 & Hnow1 & _ & Hnow2 & Hper1 & Hdue1).
  all: change (poll rt (S ?a + k)) with (poll rt (S (a + k))); cbn [poll].
  all: rewrite Hsel, HDo.
  - rewrite Nat.add_0_r in Hfinal. rewrite Hfinal in *.
    destruct (Z.eqb_spec code StatusNotFound) as [|_]; [contradiction|]. simpl.
    eexists w2, [_], (now w1). unfold exchanged. rewrite Hsent2.
    repeat split; auto. simpl latencies. lia.
  - assert (Hr : retried (snd (HTTPClient c (URL req) (List.length (sent w)))) = true).
    { specialize (Hretry O ltac:(lia)). rewrite Nat.add_0_r in Hretry. exact Hretry. }
    assert (Hlen2 : List.length (sent w2) = S (List.length (sent w))).
    { rewrite Hsent2, length_app. simpl. lia. }
    destruct (IH tk1 w2 k) as (w' & new & t & Hpoll & Hex & Hlen & Hlast & Hnow').
    + exact Hper1.
    + exact Hdue1.
    + intros i Hi. rewrite Hlen2. specialize (Hretry (S i) ltac:(lia)).
      rewrite <- Nat.add_succ_comm in Hretry. exact Hretry.
    + rewrite Hlen2. rewrite <- Nat.add_succ_comm in Hfinal. exact Hfinal.
    + intros d Hd. specialize (Hin d Hd). rewrite Hlen2.
      simpl latencies in Hin |- *. lia.
    + eexists w', (_ :: new), t.
      split; [|split; [|split; [|split]]].
      * unfold retried in Hr.
        destruct (snd (HTTPClient c (URL req) (List.length (sent w))))
          as [cause|code' body']; [exact Hpoll|].
        rewrite Hr. simpl. exact Hpoll.
      * unfold exchanged in *. rewrite Hex, Hsent2, <- app_assoc. reflexivity.
      * simpl. lia.
      * destruct new as [|x new]; [discriminate|]. exact Hlast.
      * rewrite Hlen2 in Hnow'. simpl latencies in Hnow' |- *. lia.
Qed.

End Poll.

(** ** The polling loop: what a finished loop tells, and when it finishes *)

Section Safety.

Variable rt : Runtime.

Lemma poll_sound c ctx req :
  req_ctx req = ctx ->
  forall fuel tk w r w',
    0 < period tk ->
    poll rt fuel c ctx req tk w = Some (r, w') ->
    exists new,
      exchanged w w' new /\ now w <= now w' /\
      (forall d, done_at ctx = Some d ->
         Forall (given_up_at d) new /\ now w' <= Z.max (now w) d) /\
      match r with
      | Cancelled =>
          Forall was_retried new /\ isDone ctx (now w') = true /\
          (forall d, done_at ctx = Some d -> now w' = Z.max (now w) d)
      | Final code body =>
          code <> StatusNotFound /\ isDone ctx (now w') = false /\
          exists pre t,
            new = (pre ++ [{| started := t; finished := now w';
                              outcome := Response code body |}])%list /\
            Forall was_retried pre
      end.
Proof.
  intros Hctx. induction fuel as [|fuel IH]; intros tk w r w' Hp; simpl; [discriminate|].
  destruct (select rt ctx tk w) as [[s tk1] w1] eqn:Hsel.
  pose proof (select_inv rt _ _ _ _ _ _ Hp Hsel) as (Hw1 & Hper1 & _ & _ & _ & _ & Hs).
  pose proof (wake_bounds ctx tk w Hp) as [Hge Hwake].
  cbv zeta in *.
  assert (Hcap : forall d, done_at ctx = Some d -> wake ctx tk w <= Z.max (now w) d).
  { intros d Hd. destruct Hwake as [[-> _] | (_ & _ & _ & _ & Hle & _)]; [lia|].
    specialize (Hle d Hd). lia. }
  destruct s.
  - intros [= <- <-]. exists []. destruct Hs as (Hdone & _).
    unfold exchanged. rewrite Hw1. simpl. rewrite app_nil_r.
    repeat split; auto.
    intros d Hd. apply isDone_true in Hdone as (d' & Hd' & Hle).
    assert (d' = d) by congruence. subst d'. specialize (Hcap d Hd). lia.
  - destruct (Do c req w1) as [a w2] eqn:HDo.
    pose proof (Do_inv _ _ _ _ _ HDo) as (Hsent2 & _ & Hnow2 & Hres). cbv zeta in Hres.
    rewrite Hctx in Hres.
    assert (Hnow1 : now w1 = wake ctx tk w) by (rewrite Hw1; reflexivity).
    assert (Hsent1 : sent w1 = sent w) by (rewrite Hw1; reflexivity).
    set (x := {| started := now w1; finished := now w2; outcome := a |}) in *.
    assert (Hx : forall d, done_at ctx = Some d ->
                 given_up_at d x /\ now w2 <= Z.max (now w) d).
    { intros d Hd. specialize (Hcap d Hd). unfold given_up_at. simpl.
      destruct Hres as [(Hnd & Harr & _) | (d' & Hd' & Hle & Hmax & Ha)].
      - rewrite isDone_false in Hnd. specialize (Hnd d Hd). repeat split; lia.
      - assert (d' = d) by congruence. subst d'. repeat split; auto; lia. }
    assert (Hrec : forall r w',
      poll rt fuel c ctx req tk1 w2 = Some (r, w') -> was_retried x ->
      exists new,
        exchanged w w' new /\ now w <= now w' /\
        (forall d, done_at ctx = Some d ->
           Forall (given_up_at d) new /\ now w' <= Z.max (now w) d) /\
        match r with
        | Cancelled =>
            Forall was_retried new /\ isDone ctx (now w') = true /\
            (forall d, done_at ctx = Some d -> now w' = Z.max (now w) d)
        | Final code body =>
            code <> StatusNotFound /\ isDone ctx (now w') = false /\
            exists pre t,
              new = (pre ++ [{| started := t; finished := now w';
                                outcome := Response code body |}])%list /\
              Forall was_retried pre
        end).
    { intros r0 w0 Hpoll Hretried.
      destruct (IH tk1 w2 r0 w0 ltac:(lia) Hpoll) as (new & Hex & Hle & Hall & Hr).
      exists (x :: new). unfold exchanged in *.
      split; [rewrite Hex, Hsent2, Hsent1, <- app_assoc; reflexivity|].
      split; [lia|]. split.
      - intros d Hd. destruct (Hall d Hd) as [Hf Hb]. destruct (Hx d Hd) as [Hg Hb2].
        split; [constructor; assumption | lia].
      - destruct r0 as [|code body].
        + destruct Hr as (Hf & Hdone & Heq). repeat split; auto.
          intros d Hd. specialize (Heq d Hd). destruct (Hx d Hd) as [_ Hb2]. lia.
        + destruct Hr as (Hcode & Hnd & pre & t & -> & Hf). repeat split; auto.
          exists (x :: pre), t. split; [reflexivity | constructor; assumption]. }
    destruct a as [cause|code body].
    + intros Hpoll. apply Hrec; [exact Hpoll | reflexivity].
    + destruct (Z.eqb_spec code StatusNotFound) as [Heq|Hne]; simpl.
      * intros Hpoll. apply Hrec; [exact Hpoll|].
        unfold was_retried. simpl. subst code. reflexivity.
      * intros [= <- <-]. exists [x]. unfold exchanged.
        rewrite Hsent2, Hsent1. repeat split; auto; try lia.
        -- constructor; [apply (Hx d H) | constructor].
        -- apply (Hx d H).
        -- destruct Hres as [(Hnd & Harr & _) | (d' & _ & _ & _ & [=])].
           rewrite Harr. exact Hnd.
        -- exists [], (now w1). split; [reflexivity | constructor].
Qed.

(** Under a context that is done at some instant the loop is left. *)
Lemma poll_terminates c ctx req d :
  req_ctx req = ctx -> done_at ctx = Some d ->
  forall m tk w k,
    0 < period tk -> now w <= d \/ now w < due tk -> budget d m tk ->
    exists r, poll rt (S m + k) c ctx req tk w = Some r.
Proof.
  intros Hctx Hd.
  assert (Hturn : forall m tk w s tk1 w1,
    0 < period tk -> now w <= d \/ now w < due tk -> budget d m tk ->
    select rt ctx tk w = (s, tk1, w1) ->
    s = CaseDone \/
    exists m', m = S m' /\ budget d m' tk1 /\ 0 < period tk1 /\
      forall a w2, Do c req w1 = (a, w2) -> now w2 <= d \/ now w2 < due tk1).
  { intros m tk w s tk1 w1 Hp Hinv [Hb HbC] Hsel.
    pose proof (select_inv rt _ _ _ _ _ _ Hp Hsel)
      as (Hw1 & Hper1 & Haft & Hmono & _ & Hstep & Hs).
    pose proof (wake_bounds ctx tk w Hp) as [Hge Hwake]. cbv zeta in *.
    destruct s; [left; reflexivity | right].
    destruct Hs as (HC1 & _ & Hfed).
    assert (Hcap : wake ctx tk w = now w \/ wake ctx tk w <= d).
    { destruct Hwake as [[-> _] | (_ & _ & _ & _ & Hle & _)]; [left; reflexivity|].
      right. apply Hle. exact Hd. }
    assert (Hm : exists m', m = S m' /\ budget d m' tk1).
    { unfold budget. rewrite HC1, Hper1.
      destruct (C tk) eqn:HC.
      - specialize (HbC eq_refl). destruct m as [|m']; [lia|]. exists m'.
        split; [reflexivity|]. split; [nia | discriminate].
      - destruct Hfed as [|Hle]; [discriminate|]. specialize (Hstep Hle).
        destruct m as [|m'].
        + exfalso. lia.
        + exists m'. split; [reflexivity|]. split; [nia | discriminate]. }
    destruct Hm as (m' & -> & Hb'). exists m'. repeat split; try apply Hb'; try lia.
    intros a w2 HDo.
    pose proof (Do_inv _ _ _ _ _ HDo) as (_ & _ & Hnow2 & Hres). cbv zeta in Hres.
    rewrite Hctx in Hres. rewrite Hw1 in Hres, Hnow2. simpl in Hres, Hnow2.
    destruct Hres as [(Hnd & Harr & _) | (d' & Hd' & Hle & Hmax & _)].
    - rewrite isDone_false in Hnd. specialize (Hnd d Hd). lia.
    - assert (d' = d) by congruence. subst d'. lia. }
  induction m as [|m IH]; intros tk w k Hp Hinv Hb.
  - simpl. destruct (select rt ctx tk w) as [[s tk1] w1] eqn:Hsel.
    destruct (Hturn _ _ _ _ _ _ Hp Hinv Hb Hsel) as [-> | (m' & [=] & _)]. eauto.
  - change (poll rt (S (S m) + k)) with (poll rt (S (S m + k))). cbn [poll].
    destruct (select rt ctx tk w) as [[s tk1] w1] eqn:Hsel.
    destruct (Hturn _ _ _ _ _ _ Hp Hinv Hb Hsel)
      as [-> | (m' & [= <-] & Hb' & Hp' & Hnext)]; [eauto|].
    destruct s; [eauto|].
    destruct (Do c req w1) as [a w2] eqn:HDo. specialize (Hnext a w2 eq_refl).
    destruct a as [cause|code body]; [apply IH; assumption|].
    destruct (negb (code =? StatusNotFound)); [eauto | apply IH; assumption].
Qed.

(** The budget of a new ticker. *)
Lemma budget_new d t0 :
  budget d (Z.to_nat ((d - t0) / DefaultHTTPRetryBackoff))
    (NewTicker DefaultHTTPRetryBackoff t0).
Proof.
  pose proof backoff_pos as HI. unfold budget, NewTicker. simpl.
  split; [|discriminate].
  pose proof (Z.div_mod (d - t0) DefaultHTTPRetryBackoff ltac:(lia)) as Hdm.
  pose proof (Z.mod_pos_bound (d - t0) DefaultHTTPRetryBackoff HI) as Hb.
  nia.
Qed.

(** Without a deadline, a peer that never gives a final answer keeps the
    loop turning for ever. *)
Lemma poll_forever c ctx req :
  req_ctx req = ctx -> done_at ctx = None ->
  (forall i, retried (snd (HTTPClient c (URL req) i)) = true) ->
  forall fuel tk w, 0 < period tk -> poll rt fuel c ctx req tk w = None.
Proof.
  intros Hctx Hnone Hretry. induction fuel as [|fuel IH]; intros tk w Hp; simpl; [reflexivity|].
  destruct (select rt ctx tk w) as [[s tk1] w1] eqn:Hsel.
  pose proof (select_inv rt _ _ _ _ _ _ Hp Hsel) as (_ & Hper1 & _ & _ & _ & _ & Hs).
  destruct s.
  - destruct Hs as (Hdone & _). apply isDone_true in Hdone as (d & Hd & _). congruence.
  - destruct (Do c req w1) as [a w2] eqn:HDo.
    pose proof (Do_inv _ _ _ _ _ HDo) as (_ & _ & _ & Hres). cbv zeta in Hres.
    rewrite Hctx in Hres.
    destruct Hres as [(_ & _ & ->) | (d & Hd & _)]; [|congruence].
    specialize (Hretry (List.length (sent w1))). unfold retried in Hretry.
    destruct (snd (HTTPClient c (URL req) (List.length (sent w1)))) as [cause|code body].
    + apply IH. lia.
    + rewrite Hretry. simpl. apply IH. lia.
Qed.

End Safety.

(** ** Retried answers are interchangeable *)

Section Alike.

Variable rt : Runtime.

Lemma select_course ctx tk w w' :
  course w = course w' ->
  exists s tk1 w1 w1',
    select rt ctx tk w = (s, tk1, w1) /\ select rt ctx tk w' = (s, tk1, w1') /\
    course w1 = course w1'.
Proof.
  unfold course. intros [= Hnow Hsel Hsent]. unfold select.
  rewrite <- Hnow, <- Hsel.
  destruct (isDone ctx _ && _); eexists _, _, _, _;
    (split; [reflexivity|split; [reflexivity|]]); unfold course; simpl; congruence.
Qed.

Lemma Do_course c c' req w w' :
  alike c c' -> course w = course w' ->
  exists a a' w2 w2',
    Do c req w = (a, w2) /\ Do c' req w' = (a', w2') /\
    course w2 = course w2' /\
    (a = a' \/ (retried a = true /\ retried a' = true)).
Proof.
  intros [_ Hal]. unfold course. intros [= Hnow Hsel Hsent].
  assert (Hlen : List.length (sent w) = List.length (sent w')).
  { apply (f_equal (@List.length _)) in Hsent. rewrite !length_map in Hsent. exact Hsent. }
  unfold Do. rewrite <- Hlen, <- Hnow, <- Hsel.
  destruct (Hal (URL req) (List.length (sent w))) as [Hlat Hans].
  destruct (HTTPClient c (URL req) (List.length (sent w))) as [lat ans].
  destruct (HTTPClient c' (URL req) (List.length (sent w))) as [lat' ans'].
  simpl in Hlat, Hans. subst lat'.
  destruct (done_at (req_ctx req)) as [d|].
  - destruct (d <=? now w + Z.max 0 lat); eexists _, _, _, _;
      (split; [reflexivity|split; [reflexivity|]]); unfold course; simpl;
      rewrite !map_app, Hsent; auto.
  - eexists _, _, _, _; (split; [reflexivity|split; [reflexivity|]]);
      unfold course; simpl; rewrite !map_app, Hsent; auto.
Qed.

Lemma poll_alike c c' ctx req :
  alike c c' ->
  forall fuel tk w w',
    course w = course w' ->
    match poll rt fuel c ctx req tk w, poll rt fuel c' ctx req tk w' with
    | Some (r, v), Some (r', v') => r = r' /\ course v = course v'
    | None, None => True
    | _, _ => False
    end.
Proof.
  intros Hal. induction fuel as [|fuel IH]; intros tk w w' Hc; simpl; [exact I|].
  destruct (select_course ctx tk w w' Hc) as (s & tk1 & w1 & w1' & -> & -> & Hc1).
  destruct s; [auto|].
  destruct (Do_course c c' req w1 w1' Hal Hc1) as (a & a' & w2 & w2' & -> & -> & Hc2 & Ha).
  specialize (IH tk1 w2 w2' Hc2).
  destruct Ha as [<- | [Hr Hr']].
  - destruct a as [cause|code body]; [exact IH|].
    destruct (negb (code =? StatusNotFound)); [auto | exact IH].
  - unfold retried in Hr, Hr'.
    destruct a as [cause|code body], a' as [cause'|code' body'];
      rewrite ?Hr, ?Hr'; simpl; exact IH.
Qed.

End Alike.

(** ** A peer that answers within the polling interval *)

Section Prompt.

Variable rt : Runtime.

(** A peer that answers every request within one period, and never with a
    final answer: the attempts start one period apart until the context is
    done. *)
Lemma poll_prompt c ctx req d t0 :
  req_ctx req = ctx -> done_at ctx = Some d ->
  (forall i, retried (snd (HTTPClient c (URL req) i)) = true) ->
  (forall i, fst (HTTPClient c (URL req) i) <= DefaultHTTPRetryBackoff) ->
  forall m j tk w k,
    period tk = DefaultHTTPRetryBackoff -> C tk = false ->
    due tk = t0 + (Z.of_nat j + 1) * DefaultHTTPRetryBackoff ->
    t0 + Z.of_nat j * DefaultHTTPRetryBackoff <= now w <= due tk ->
    now w <= d ->
    d < t0 + Z.of_nat (j + m) * DefaultHTTPRetryBackoff ->
    exists w' new,
      poll rt (m + k) c ctx req tk w = Some (Cancelled, w') /\
      exchanged w w' new /\ now w' = d /\
      d - t0 <= (Z.of_nat (j + List.length new) + 1) * DefaultHTTPRetryBackoff /\
      (forall i x, new !! i = Some x ->
         started x = t0 + (Z.of_nat (j + i) + 1) * DefaultHTTPRetryBackoff).
Proof.
  intros Hctx Hd Hretry Hlat. pose proof backoff_pos as HI.
  induction m as [|m IH]; intros j tk w k Hper HC Hdue Hnow Hle Hm.
  { exfalso. rewrite Nat.add_0_r in Hm. lia. }
  simpl. destruct (select rt ctx tk w) as [[s tk1] w1] eqn:Hsel.
  assert (Hp : 0 < period tk) by lia.
  pose proof (select_inv rt _ _ _ _ _ _ Hp Hsel)
    as (Hw1 & Hper1 & Haft & Hmono & Hub & Hstep & Hs).
  pose proof (wake_bounds ctx tk w Hp) as [Hge Hwake]. cbv zeta in *.
  set (t := wake ctx tk w) in *.
  assert (Ht : t <= due tk /\ t <= d).
  { destruct Hwake as [[-> _] | (_ & HC0 & Hlt & Hle' & Hcap & _)]; [lia|].
    specialize (Hcap d Hd). split; [|lia].
    pose proof (deliver_mono (now w) tk Hp).
    destruct (Z_lt_le_dec (now w) (due tk)) as [Hlt'|Hge'].
    - rewrite deliver_idle in Hle' by assumption. lia.
    - pose proof (deliver_due (now w) tk Hp Hge') as [HC' _]. congruence. }
  destruct s.
  - destruct Hs as (Hdone & _). apply isDone_true in Hdone as (d' & Hd' & Hle').
    assert (d' = d) by congruence. subst d'.
    exists w1, []. unfold exchanged. rewrite Hw1. simpl. rewrite app_nil_r.
    repeat split; auto; try lia. intros i x. rewrite lookup_nil. discriminate.
  - destruct Hs as (HC1 & _ & Hfed).
    destruct Hfed as [|Hfed]; [congruence|]. specialize (Hstep Hfed).
    assert (Hteq : t = due tk) by lia.
    destruct (Do c req w1) as [a w2] eqn:HDo.
    pose proof (Do_inv _ _ _ _ _ HDo) as (Hsent2 & _ & Hnow2 & Hres). cbv zeta in Hres.
    rewrite Hctx in Hres.
    assert (Hnow1 : now w1 = t) by (rewrite Hw1; reflexivity).
    assert (Hsent1 : sent w1 = sent w) by (rewrite Hw1; reflexivity).
    rewrite Hnow1 in *. rewrite Hsent1 in *.
    specialize (Hlat (List.length (sent w))). specialize (Hretry (List.length (sent w))).
    assert (Ha : retried a = true /\ t <= now w2 <= t + DefaultHTTPRetryBackoff /\ now w2 <= d).
    { destruct Hres as [(Hnd & Harr & ->) | (d' & Hd' & Hle' & Hmax & ->)].
      - rewrite isDone_false in Hnd. specialize (Hnd d Hd). split; [exact Hretry|]. lia.
      - assert (d' = d) by congruence. subst d'. split; [reflexivity|]. lia. }
    destruct Ha as (Hra & Hnow2' & Hle2).
    destruct (IH (S j) tk1 w2 k ltac:(lia) HC1 ltac:(lia) ltac:(lia) ltac:(lia) ltac:(lia))
      as (w' & new & Hpoll & Hex & Hend & Hcount & Hstart).
    exists w', ({| started := t; finished := now w2; outcome := a |} :: new).
    split; [|split; [|split; [|split]]].
    + unfold retried in Hra. destruct a as [cause|code body]; [exact Hpoll|].
      rewrite Hra. simpl. exact Hpoll.
    + unfold exchanged in *. rewrite Hex, Hsent2, <- app_assoc. reflexivity.
    + exact Hend.
    + simpl List.length. lia.
    + intros [|i] x; simpl.
      * intros [= <-]. simpl. lia.
      * intros Hx. rewrite (Hstart i x Hx). lia.
Qed.

End Prompt.

(** ** The calls *)

Section Results.

Variable rt : Runtime.

Lemma call_fetchJSON op fuel c ctx w :
  call rt op fuel c ctx w =
  fetchJSON rt fuel c (polling_ctx op ctx w) (endpoint_of op) zero w.
Proof. destruct op; reflexivity. Qed.

Lemma fetchJSON_poll {T} `{Decodable T} fuel c ctx endpoint (ptr : T) w :
  url_error rt (BaseURL c ++ endpoint) = None ->
  fetchJSON rt fuel c ctx endpoint ptr w =
  match poll rt fuel c ctx
          {| req_ctx := ctx; Method := "GET"; URL := BaseURL c ++ endpoint |}
          (NewTicker DefaultHTTPRetryBackoff (now w)) w with
  | None => None
  | Some (Cancelled, w') => Some (ptr, Some (errTimeout endpoint), w')
  | Some (Final code body, w') => Some (settle code body ptr, w')
  end.
Proof.
  intros Hurl. unfold fetchJSON, NewRequestWithContext, settle. rewrite Hurl.
  destruct (poll _ _ _ _ _ _ _) as [[[|code body] w']|]; try reflexivity.
  destruct (StatusBadRequest <=? code); [reflexivity|].
  destruct (Decode body ptr) as [ptr' [e|]]; reflexivity.
Qed.

(** After [n] retried answers, the first final answer settles the call,
    provided the context leaves the time. *)
Lemma fetchJSON_reaches {T} `{Decodable T} c ctx endpoint (ptr : T) w n k code body :
  url_error rt (BaseURL c ++ endpoint) = None ->
  retried_then (HTTPClient c (BaseURL c ++ endpoint)) w n (Response code body) ->
  code <> StatusNotFound ->
  in_time ctx (HTTPClient c (BaseURL c ++ endpoint)) w (S n) ->
  exists w' new t,
    fetchJSON rt (S n + k) c ctx endpoint ptr w = Some (settle code body ptr, w') /\
    exchanged w w' new /\ List.length new = S n /\
    last new = Some {| started := t; finished := now w';
                       outcome := Response code body |} /\
    (forall d, done_at ctx = Some d -> now w' < d).
Proof.
  intros Hurl [Hretry Hfinal] Hcode Hin.
  rewrite fetchJSON_poll by exact Hurl.
  set (req := {| req_ctx := ctx; Method := "GET"; URL := BaseURL c ++ endpoint |}).
  destruct (poll_reaches rt c ctx req code body eq_refl Hcode n
              (NewTicker DefaultHTTPRetryBackoff (now w)) w k)
    as (w' & new & t & Hpoll & Hex & Hlen & Hlast & Hnow); auto.
  - simpl. lia.
  - exists w', new, t. rewrite Hpoll. repeat split; auto.
    intros d Hd. specialize (Hin d Hd). simpl URL in Hnow. lia.
Qed.

(** Under a context done at [d] the call returns, and what it returns
    agrees with what was exchanged. *)
Lemma fetchJSON_returns {T} `{Decodable T} c ctx d endpoint (ptr : T) w :
  url_error rt (BaseURL c ++ endpoint) = None ->
  done_at ctx = Some d ->
  exists fuel, forall k, exists v e w' new,
    fetchJSON rt (fuel + k) c ctx endpoint ptr w = Some (v, e, w') /\
    exchanged w w' new /\ Forall (given_up_at d) new /\
    now w <= now w' <= Z.max (now w) d /\
    (Forall was_retried new ->
       v = ptr /\ e = Some (errTimeout endpoint) /\ now w' = Z.max (now w) d) /\
    (e = Some (errTimeout endpoint) ->
       Forall was_retried new /\ now w' = Z.max (now w) d).
Proof.
  intros Hurl Hd. pose proof backoff_pos as HI.
  set (req := {| req_ctx := ctx; Method := "GET"; URL := BaseURL c ++ endpoint |}).
  set (tk := NewTicker DefaultHTTPRetryBackoff (now w)).
  set (m := Z.to_nat ((d - now w) / DefaultHTTPRetryBackoff)).
  exists (S m). intros k.
  destruct (poll_terminates rt c ctx req d eq_refl Hd m tk w k) as [[r w'] Hpoll].
  { exact HI. } { right. simpl. lia. } { apply budget_new. }
  destruct (poll_sound rt c ctx req eq_refl _ tk w r w' HI Hpoll)
    as (new & Hex & Hle & Hall & Hr).
  destruct (Hall d Hd) as [Hgu Hcap].
  rewrite fetchJSON_poll by exact Hurl. fold req tk. rewrite Hpoll.
  destruct r as [|code body].
  - destruct Hr as (Hf & _ & Heq). specialize (Heq d Hd).
    exists ptr, (Some (errTimeout endpoint)), w', new. repeat split; auto; lia.
  - destruct Hr as (Hcode & _ & pre & t & -> & Hpre).
    destruct (settle code body ptr) as [v e] eqn:Hset.
    exists v, e, w', (pre ++ [{| started := t; finished := now w';
                                outcome := Response code body |}])%list.
    assert (Hnot : ~ Forall was_retried
                     (pre ++ [{| started := t; finished := now w';
                                 outcome := Response code body |}])%list).
    { intros Hf. apply Forall_app in Hf as [_ Hf]. inversion Hf as [|? ? Hx _]; subst.
      unfold was_retried in Hx. simpl in Hx.
      apply Z.eqb_eq in Hx. contradiction. }
    assert (Hne : e <> Some (errTimeout endpoint)).
    { intros ->. revert Hset. unfold settle.
      destruct (StatusBadRequest <=? code); [discriminate|].
      destruct (Decode body ptr) as [? [?|]]; discriminate. }
    split; [reflexivity|]. split; [exact Hex|]. split; [exact Hgu|].
    split; [lia|]. split; intros; contradiction.
Qed.

(** In a call that returns, a response with a status other than 404 is the
    last request of the call: the call returns when it arrives, with what
    this response settles. *)
Lemma fetchJSON_final_answer {T} `{Decodable T} fuel c ctx endpoint (ptr : T) w
  v e w' new i x code body :
  url_error rt (BaseURL c ++ endpoint) = None ->
  fetchJSON rt fuel c ctx endpoint ptr w = Some (v, e, w') ->
  exchanged w w' new ->
  new !! i = Some x -> outcome x = Response code body -> code <> StatusNotFound ->
  S i = List.length new /\ finished x = now w' /\ (v, e) = settle code body ptr /\
  Forall was_retried (take i new).
Proof.
  intros Hurl Hfetch Hex Hi Hout Hcode. pose proof backoff_pos as HI.
  rewrite fetchJSON_poll in Hfetch by exact Hurl.
  destruct (poll rt fuel c ctx _ _ w) as [[r w1]|] eqn:Hpoll; [|discriminate].
  destruct (poll_sound rt c ctx
              {| req_ctx := ctx; Method := "GET"; URL := BaseURL c ++ endpoint |}
              eq_refl _ (NewTicker DefaultHTTPRetryBackoff (now w)) w r w1 HI Hpoll)
    as (new0 & Hex0 & _ & _ & Hr).
  assert (Hw : w1 = w') by (destruct r; congruence). subst w1.
  unfold exchanged in Hex, Hex0. rewrite Hex in Hex0.
  apply app_inv_head in Hex0. subst new0.
  assert (Hnot : ~ was_retried x).
  { unfold was_retried. rewrite Hout. simpl.
    destruct (Z.eqb_spec code StatusNotFound); [contradiction | discriminate]. }
  destruct r as [|code' body'].
  - destruct Hr as (Hall & _). exfalso. apply Hnot.
    exact (Forall_lookup_1 _ _ _ _ Hall Hi).
  - destruct Hr as (_ & _ & pre & t & -> & Hpre).
    destruct (Nat.lt_ge_cases i (List.length pre)) as [Hlt|Hge].
    + exfalso. apply Hnot. rewrite lookup_app_l in Hi by exact Hlt.
      exact (Forall_lookup_1 _ _ _ _ Hpre Hi).
    + rewrite lookup_app_r in Hi by exact Hge.
      destruct (i - List.length pre)%nat as [|j] eqn:Hj; [|discriminate].
      simpl in Hi. injection Hi as <-. simpl in Hout. injection Hout as <- <-.
      assert (i = List.length pre) by lia. subst i.
      rewrite length_app, take_app_length. simpl.
      split; [lia|]. split; [reflexivity|]. split; [|exact Hpre].
      destruct (settle code' body' ptr). congruence.
Qed.

End Results.

(** ** Calls that return, calls that do not *)

Section More.

Variable rt : Runtime.

Lemma fetchJSON_more {T} `{Decodable T} fuel k c ctx endpoint (ptr : T) w r :
  fetchJSON rt fuel c ctx endpoint ptr w = Some r ->
  fetchJSON rt (fuel + k) c ctx endpoint ptr w = Some r.
Proof.
  unfold fetchJSON. destruct (NewRequestWithContext rt ctx "GET" _) as [e|req]; [auto|].
  destruct (poll rt fuel c ctx req _ w) as [p|] eqn:Hpoll; [|discriminate].
  rewrite (poll_more rt _ k _ _ _ _ _ _ Hpoll). auto.
Qed.

Lemma fetchJSON_agree {T} `{Decodable T} fuel fuel' c ctx endpoint (ptr : T) w r r' :
  fetchJSON rt fuel c ctx endpoint ptr w = Some r ->
  fetchJSON rt fuel' c ctx endpoint ptr w = Some r' -> r = r'.
Proof.
  intros Hr Hr'.
  apply (fetchJSON_more _ fuel') in Hr. apply (fetchJSON_more _ fuel) in Hr'.
  rewrite (Nat.add_comm fuel' fuel) in Hr'. congruence.
Qed.

(** A context that is done when the loop is entered: the first select
    leaves through [ctx.Done()], the new ticker has not ticked. *)
Lemma poll_entry c ctx req w k :
  isDone ctx (now w) = true ->
  poll rt (S k) c ctx req (NewTicker DefaultHTTPRetryBackoff (now w)) w =
  Some (Cancelled, {| now := now w; sent := sent w; selects := S (selects w) |}).
Proof.
  intros Hdone. pose proof backoff_pos as HI. simpl. unfold select.
  rewrite (deliver_idle (now w)) by (simpl; lia).
  rewrite Hdone. simpl. rewrite (deliver_idle (now w)) by (simpl; lia).
  rewrite Hdone. reflexivity.
Qed.

(** A peer that never gives a final answer. *)
Lemma poll_never_final c ctx req :
  req_ctx req = ctx ->
  (forall i, retried (snd (HTTPClient c (URL req) i)) = true) ->
  forall fuel tk w r w',
    poll rt fuel c ctx req tk w = Some (r, w') -> r = Cancelled.
Proof.
  intros Hctx Hretry. induction fuel as [|fuel IH]; intros tk w r w'; simpl; [discriminate|].
  destruct (select rt ctx tk w) as [[[|] tk1] w1]; [congruence|].
  destruct (Do c req w1) as [a w2] eqn:HDo.
  pose proof (Do_inv _ _ _ _ _ HDo) as (_ & _ & _ & Hres). cbv zeta in Hres.
  assert (Ha : retried a = true).
  { destruct Hres as [(_ & _ & ->) | (d & _ & _ & _ & ->)]; [apply Hretry | reflexivity]. }
  unfold retried in Ha. destruct a as [cause|code body]; [apply IH|].
  rewrite Ha. simpl. apply IH.
Qed.

Lemma fetchJSON_never_final {T} `{Decodable T} c ctx d endpoint (ptr : T) w :
  url_error rt (BaseURL c ++ endpoint) = None ->
  done_at ctx = Some d ->
  (forall i, retried (snd (HTTPClient c (BaseURL c ++ endpoint) i)) = true) ->
  exists fuel, forall k, exists w',
    fetchJSON rt (fuel + k) c ctx endpoint ptr w
      = Some (ptr, Some (errTimeout endpoint), w') /\
    now w' = Z.max (now w) d.
Proof.
  intros Hurl Hd Hretry.
  destruct (fetchJSON_returns rt c ctx d endpoint ptr w Hurl Hd) as [fuel Hret].
  exists fuel. intros k. destruct (Hret k) as (v & e & w' & new & Hfetch & _ & _ & _ & _ & Hto).
  exists w'. revert Hfetch. rewrite fetchJSON_poll by exact Hurl.
  destruct (poll rt (fuel + k) c ctx _ _ w) as [[r w1]|] eqn:Hpoll; [|discriminate].
  rewrite (poll_never_final c ctx
             {| req_ctx := ctx; Method := "GET"; URL := BaseURL c ++ endpoint |}
             eq_refl Hretry _ _ _ _ _ Hpoll).
  intros [= <- <- <-]. split; [reflexivity|]. apply Hto. reflexivity.
Qed.

Lemma fetchJSON_forever {T} `{Decodable T} c ctx endpoint (ptr : T) w fuel :
  url_error rt (BaseURL c ++ endpoint) = None ->
  done_at ctx = None ->
  (forall i, retried (snd (HTTPClient c (BaseURL c ++ endpoint) i)) = true) ->
  fetchJSON rt fuel c ctx endpoint ptr w = None.
Proof.
  intros Hurl Hnone Hretry. rewrite fetchJSON_poll by exact Hurl.
  rewrite (poll_forever rt c ctx
             {| req_ctx := ctx; Method := "GET"; URL := BaseURL c ++ endpoint |}
             eq_refl Hnone Hretry); [reflexivity|].
  exact backoff_pos.
Qed.

End More.

(** ** The pace of the requests *)

Section Pace.

Variable rt : Runtime.

Lemma sequential_bounds l : forall t t' i x,
  sequential t l t' -> l !! i = Some x ->
  t <= started x /\ started x <= finished x /\ finished x <= t'.
Proof.
  induction l as [|y l IH]; intros t t' i x Hs Hi; [discriminate|].
  destruct Hs as (H1 & H2 & Hs).
  assert (Hend : finished y <= t').
  { clear -Hs. revert Hs. generalize (finished y).
    induction l as [|z l IHl]; intros u; simpl; [auto|].
    intros (? & ? & Hs). specialize (IHl _ Hs). lia. }
  destruct i as [|i]; simpl in Hi.
  - injection Hi as <-. lia.
  - destruct (IH _ _ _ _ Hs Hi). lia.
Qed.

(** Each request takes a tick of its own, and the tick number [j] is due
    [j] periods after the ticker was made. *)
Lemma poll_paced c ctx req t0 :
  forall fuel k tk w r w',
    period tk = DefaultHTTPRetryBackoff -> C tk = false ->
    t0 + (Z.of_nat k + 1) * DefaultHTTPRetryBackoff <= due tk ->
    poll rt fuel c ctx req tk w = Some (r, w') ->
    exists new,
      exchanged w w' new /\ sequential (now w) new (now w') /\
      forall i x, new !! i = Some x ->
        t0 + (Z.of_nat (k + i) + 1) * DefaultHTTPRetryBackoff <= started x.
Proof.
  pose proof backoff_pos as HI.
  induction fuel as [|fuel IH]; intros k tk w r w' Hper HC Hdue; simpl; [discriminate|].
  destruct (select rt ctx tk w) as [[s tk1] w1] eqn:Hsel.
  assert (Hp : 0 < period tk) by lia.
  pose proof (select_inv rt _ _ _ _ _ _ Hp Hsel) as (Hw1 & Hper1 & _ & _ & _ & Hstep & Hs).
  pose proof (wake_bounds ctx tk w Hp) as [Hge _]. cbv zeta in *.
  destruct s.
  - intros [= <- <-]. exists []. unfold exchanged. rewrite Hw1. simpl.
    rewrite app_nil_r. repeat split; auto. intros i x. rewrite lookup_nil. discriminate.
  - destruct Hs as (HC1 & _ & Hfed). destruct Hfed as [|Hfed]; [congruence|].
    specialize (Hstep Hfed).
    destruct (Do c req w1) as [a w2] eqn:HDo.
    pose proof (Do_inv _ _ _ _ _ HDo) as (Hsent2 & _ & Hnow2 & _).
    assert (Hnow1 : now w1 = wake ctx tk w) by (rewrite Hw1; reflexivity).
    assert (Hsent1 : sent w1 = sent w) by (rewrite Hw1; reflexivity).
    set (x := {| started := now w1; finished := now w2; outcome := a |}) in *.
    assert (Hrec : forall r w',
      poll rt fuel c ctx req tk1 w2 = Some (r, w') ->
      exists new,
        exchanged w w' new /\ sequential (now w) new (now w') /\
        forall i y, new !! i = Some y ->
          t0 + (Z.of_nat (k + i) + 1) * DefaultHTTPRetryBackoff <= started y).
    { intros r0 w0 Hpoll.
      destruct (IH (S k) tk1 w2 r0 w0 ltac:(lia) HC1 ltac:(lia) Hpoll)
        as (new & Hex & Hseq & Hpace).
      exists (x :: new). unfold exchanged in *.
      split; [rewrite Hex, Hsent2, Hsent1, <- app_assoc; reflexivity|].
      split; [simpl; repeat split; auto; lia|].
      intros [|i] y; simpl.
      - intros [= <-]. simpl. lia.
      - intros Hy. specialize (Hpace i y Hy). lia. }
    destruct a as [cause|code body]; [apply Hrec|].
    destruct (negb (code =? StatusNotFound)); [|apply Hrec].
    intros [= <- <-]. exists [x]. unfold exchanged. rewrite Hsent2, Hsent1.
    split; [reflexivity|]. split; [simpl; repeat split; auto; lia|].
    intros [|i] y; simpl; [|rewrite lookup_nil; discriminate].
    intros [= <-]. simpl. lia.
Qed.

Lemma fetchJSON_paced {T} `{Decodable T} fuel c ctx endpoint (ptr : T) w v e w' new :
  fetchJSON rt fuel c ctx endpoint ptr w = Some (v, e, w') ->
  exchanged w w' new ->
  sequential (now w) new (now w') /\
  forall i x, new !! i = Some x ->
    now w + (Z.of_nat i + 1) * DefaultHTTPRetryBackoff <= started x.
Proof.
  unfold fetchJSON. destruct (NewRequestWithContext rt ctx "GET" _) as [msg|req].
  - intros [= <- <- <-] Hex. unfold exchanged in Hex.
    rewrite <- (app_nil_r (sent w)) in Hex at 1. apply app_inv_head in Hex. subst new.
    split; [simpl; lia|]. intros i x. rewrite lookup_nil. discriminate.
  - destruct (poll rt fuel c ctx req _ w) as [[r w1]|] eqn:Hpoll; [|discriminate].
    intros Hret Hex.
    assert (w1 = w').
    { destruct r as [|code body]; [congruence|].
      destruct (StatusBadRequest <=? code); [congruence|].
      destruct (Decode body ptr) as [? [?|]]; congruence. }
    subst w1.
    destruct (poll_paced c ctx req (now w) fuel O
                (NewTicker DefaultHTTPRetryBackoff (now w)) w r w' eq_refl eq_refl
                ltac:(simpl; lia) Hpoll) as (new0 & Hex0 & Hseq & Hpace).
    unfold exchanged in Hex, Hex0. rewrite Hex in Hex0. apply app_inv_head in Hex0.
    subst new0. split; [exact Hseq|]. intros i x Hi. exact (Hpace i x Hi).
Qed.

(** A tick is received when it is due, or at once when it is overdue. *)
Lemma select_at_tick ctx tk w tk1 w1 :
  0 < period tk -> C tk = false ->
  select rt ctx tk w = (CaseTick, tk1, w1) ->
  now w1 = Z.max (now w) (due tk) /\ due tk1 = due (deliver (now w1) tk).
Proof.
  intros Hp HC. unfold select.
  destruct (Z_le_gt_dec (due tk) (now w)) as [Hle|Hgt].
  - destruct (deliver_due (now w) tk Hp Hle) as (HC0 & Hdue0 & _).
    rewrite HC0, orb_true_r.
    rewrite (deliver_idle (now w) (deliver (now w) tk)) by lia.
    destruct (isDone ctx (now w) && _); intros [= <- <-]; simpl.
    split; [lia | reflexivity].
  - rewrite (deliver_idle (now w) tk) by lia. rewrite HC, orb_false_r.
    destruct (isDone ctx (now w)) eqn:Hdone.
    + rewrite (deliver_idle (now w) tk) by lia. rewrite Hdone, HC. simpl. discriminate.
    + set (t := match done_at ctx with Some d => Z.min d (due tk) | None => due tk end).
      destruct (Z_lt_le_dec t (due tk)) as [Hlt|Hge].
      * rewrite (deliver_idle t tk) by exact Hlt. rewrite HC. simpl.
        assert (Hd : isDone ctx t = true).
        { apply isDone_true. unfold t in *. destruct (done_at ctx) as [d|]; [|lia].
          exists d. split; [reflexivity | lia]. }
        rewrite Hd. simpl. discriminate.
      * assert (Ht : t = due tk) by (unfold t in *; destruct (done_at ctx); lia).
        destruct (isDone ctx t && _); intros [= <- <-]; simpl.
        split; [lia | rewrite Ht; reflexivity].
Qed.

Lemma deliver_next_tick t0 s t tk :
  period tk = DefaultHTTPRetryBackoff -> due tk = next_tick t0 s -> due tk <= t ->
  due (deliver t tk) = next_tick t0 t.
Proof.
  intros Hper Hdue Hle. pose proof backoff_pos as HI. unfold deliver.
  destruct (Z.leb_spec (due tk) t) as [_|]; [|lia]. simpl.
  rewrite Hper, Hdue. unfold next_tick.
  set (q := (s - t0) / DefaultHTTPRetryBackoff + 1).
  replace (t - (t0 + DefaultHTTPRetryBackoff * q))
    with (t - t0 + (- q) * DefaultHTTPRetryBackoff) by ring.
  rewrite Z.div_add by lia. ring.
Qed.

(** The loop takes the ticks as they come: the first request waits for the
    first tick it can have, and each later one for the first tick after the
    start of the one before. *)
Lemma poll_on_ticks c ctx req t0 :
  forall fuel s tk w r w',
    period tk = DefaultHTTPRetryBackoff -> C tk = false ->
    due tk = next_tick t0 s ->
    poll rt fuel c ctx req tk w = Some (r, w') ->
    exists new, exchanged w w' new /\ on_ticks t0 s (now w) new.
Proof.
  pose proof backoff_pos as HI.
  induction fuel as [|fuel IH]; intros s tk w r w' Hper HC Hdue; simpl; [discriminate|].
  destruct (select rt ctx tk w) as [[sel tk1] w1] eqn:Hsel.
  assert (Hp : 0 < period tk) by lia.
  pose proof (select_inv rt _ _ _ _ _ _ Hp Hsel) as (Hw1 & Hper1 & _ & _ & _ & _ & Hs).
  cbv zeta in *.
  destruct sel.
  - intros [= <- <-]. exists []. unfold exchanged. rewrite Hw1. simpl.
    rewrite app_nil_r. auto.
  - destruct Hs as (HC1 & _ & _).
    destruct (select_at_tick ctx tk w tk1 w1 Hp HC Hsel) as [Hnow1 Hdue1].
    rewrite (deliver_next_tick t0 s (now w1) tk Hper Hdue ltac:(lia)) in Hdue1.
    assert (Hsent1 : sent w1 = sent w) by (rewrite Hw1; reflexivity).
    destruct (Do c req w1) as [a w2] eqn:HDo.
    pose proof (Do_inv _ _ _ _ _ HDo) as (Hsent2 & _ & _ & _).
    set (x := {| started := now w1; finished := now w2; outcome := a |}) in *.
    assert (Hrec : forall r w',
      poll rt fuel c ctx req tk1 w2 = Some (r, w') ->
      exists new, exchanged w w' new /\ on_ticks t0 s (now w) new).
    { intros r0 w0 Hpoll.
      destruct (IH (now w1) tk1 w2 r0 w0 ltac:(lia) HC1 Hdue1 Hpoll) as (new & Hex & Hon).
      exists (x :: new). unfold exchanged in *.
      split; [rewrite Hex, Hsent2, Hsent1, <- app_assoc; reflexivity|].
      simpl. split; [rewrite Hnow1, Hdue; reflexivity | exact Hon]. }
    destruct a as [cause|code body]; [apply Hrec|].
    destruct (negb (code =? StatusNotFound)); [|apply Hrec].
    intros [= <- <-]. exists [x]. unfold exchanged. rewrite Hsent2, Hsent1.
    split; [reflexivity|]. simpl. split; [rewrite Hnow1, Hdue; reflexivity | exact I].
Qed.

Lemma fetchJSON_on_ticks {T} `{Decodable T} fuel c ctx endpoint (ptr : T) w v e w' new :
  fetchJSON rt fuel c ctx endpoint ptr w = Some (v, e, w') ->
  exchanged w w' new ->
  on_ticks (now w) (now w) (now w) new.
Proof.
  pose proof backoff_pos as HI.
  unfold fetchJSON. destruct (NewRequestWithContext rt ctx "GET" _) as [msg|req].
  - intros [= <- <- <-] Hex. unfold exchanged in Hex.
    rewrite <- (app_nil_r (sent w)) in Hex at 1. apply app_inv_head in Hex. subst new.
    exact I.
  - destruct (poll rt fuel c ctx req _ w) as [[r w1]|] eqn:Hpoll; [|discriminate].
    intros Hret Hex.
    assert (w1 = w').
    { destruct r as [|code body]; [congruence|].
      destruct (StatusBadRequest <=? code); [congruence|].
      destruct (Decode body ptr) as [? [?|]]; congruence. }
    subst w1.
    destruct (poll_on_ticks c ctx req (now w) fuel (now w)
                (NewTicker DefaultHTTPRetryBackoff (now w)) w r w' eq_refl eq_refl)
      as (new0 & Hex0 & Hon); [|exact Hpoll|].
    + unfold next_tick. simpl. rewrite Z.sub_diag, Z.div_0_l by lia. ring.
    + unfold exchanged in Hex, Hex0. rewrite Hex in Hex0. apply app_inv_head in Hex0.
      subst new0. exact Hon.
Qed.

(** Two requests in a row of a list that follows the ticks. *)
Lemma on_ticks_next t0 l : forall s f i x y,
  on_ticks t0 s f l -> l !! i = Some x -> l !! S i = Some y ->
  started y = Z.max (finished x) (next_tick t0 (started x)).
Proof.
  induction l as [|z l IH]; intros s f i x y Hon Hx Hy; [discriminate|].
  destruct Hon as [_ Hon]. destruct i as [|i]; simpl in Hx, Hy.
  - injection Hx as <-. destruct l as [|y' l]; [discriminate|].
    injection Hy as <-. destruct Hon as [Hst _]. exact Hst.
  - exact (IH _ _ _ _ _ Hon Hx Hy).
Qed.

End Pace.

(** ** What a call that returns has done *)

Section Course.

Variable rt : Runtime.

Lemma exchanged_same w w' new new' :
  exchanged w w' new -> exchanged w w' new' -> new = new'.
Proof. unfold exchanged. intros -> H. exact (app_inv_head _ _ _ H). Qed.

Lemma exchanged_none w new : exchanged w w new -> new = [].
Proof.
  unfold exchanged. intros H. rewrite <- (app_nil_r (sent w)) in H at 1.
  symmetry. exact (app_inv_head _ _ _ H).
Qed.

(** The two ways out of [fetchJSON]. *)
Lemma fetchJSON_inv {T} `{Decodable T} fuel c ctx endpoint (ptr : T) w v e w' :
  fetchJSON rt fuel c ctx endpoint ptr w = Some (v, e, w') ->
  (exists cause,
     url_error rt (BaseURL c ++ endpoint) = Some cause /\
     v = ptr /\ e = Some (errCreateRequest cause) /\ w' = w) \/
  (url_error rt (BaseURL c ++ endpoint) = None /\
   exists r,
     poll rt fuel c ctx (request_of c ctx endpoint)
       (NewTicker DefaultHTTPRetryBackoff (now w)) w = Some (r, w') /\
     match r with
     | Cancelled => v = ptr /\ e = Some (errTimeout endpoint)
     | Final code body => settle code body ptr = (v, e)
     end).
Proof.
  destruct (url_error rt (BaseURL c ++ endpoint)) as [cause|] eqn:Hurl.
  - unfold fetchJSON, NewRequestWithContext. rewrite Hurl.
    intros [= <- <- <-]. left. eauto.
  - rewrite fetchJSON_poll by exact Hurl. fold (request_of c ctx endpoint).
    destruct (poll rt fuel c ctx _ _ w) as [[r w1]|]; [|discriminate].
    intros Hret. right. split; [reflexivity|]. exists r.
    destruct r as [|code body].
    + injection Hret as <- <- <-. auto.
    + destruct (settle code body ptr) as [v0 e0]. injection Hret as <- <- <-. auto.
Qed.

Lemma settle_inv {T} `{Decodable T} code body (ptr v : T) e :
  settle code body ptr = (v, e) ->
  (StatusBadRequest <= code /\ v = ptr /\ e = Some (errStatus code)) \/
  (code < StatusBadRequest /\
   ((e = None /\ Decode body ptr = (v, None)) \/
    exists cause, e = Some (errUnmarshal cause) /\ Decode body ptr = (v, Some cause))).
Proof.
  unfold settle. destruct (Z.leb_spec StatusBadRequest code) as [Hle|Hlt].
  - intros [= <- <-]. left. auto.
  - destruct (Decode body ptr) as [p [cause|]]; intros [= <- <-];
      right; (split; [exact Hlt|]); eauto.
Qed.

Lemma fetchJSON_course {T} `{Decodable T} fuel c ctx endpoint (ptr : T) w v e w' new :
  fetchJSON rt fuel c ctx endpoint ptr w = Some (v, e, w') ->
  exchanged w w' new ->
  course_of_outcome rt c ctx endpoint ptr w v e w' new.
Proof.
  intros Hret Hex. pose proof backoff_pos as HI.
  destruct (fetchJSON_inv _ _ _ _ _ _ _ _ _ Hret)
    as [(cause & Hurl & -> & -> & ->) | (Hurl & r & Hpoll & Hr)].
  - simpl. repeat split; auto. exact (exchanged_none _ _ Hex).
  - destruct (poll_sound rt c ctx (request_of c ctx endpoint) eq_refl _
                (NewTicker DefaultHTTPRetryBackoff (now w)) w r w' HI Hpoll)
      as (new0 & Hex0 & _ & _ & Hsound).
    rewrite (exchanged_same _ _ _ _ Hex Hex0).
    destruct r as [|code body].
    + destruct Hr as [-> ->]. destruct Hsound as (Hall & Hdone & _).
      simpl. auto.
    + destruct Hsound as (Hne & _ & pre & t & -> & Hpre).
      assert (Hends : ends_with
                (pre ++ [{| started := t; finished := now w';
                            outcome := Response code body |}])%list (now w') code body)
        by (exists pre, t; auto).
      destruct (settle_inv _ _ _ _ _ Hr)
        as [(Hge & -> & ->) | (Hlt & [[-> Hdec] | (cause & -> & Hdec)])]; simpl; eauto 10.
Qed.

(** Under a context done at [d] a call is over by then, and what is not a
    timeout has come before. *)
Lemma fetchJSON_by_deadline {T} `{Decodable T} fuel c ctx d endpoint (ptr : T) w v e w' :
  fetchJSON rt fuel c ctx endpoint ptr w = Some (v, e, w') ->
  done_at ctx = Some d ->
  now w <= now w' <= Z.max (now w) d /\
  (url_error rt (BaseURL c ++ endpoint) = None ->
   e <> Some (errTimeout endpoint) -> now w' < d).
Proof.
  intros Hret Hd. pose proof backoff_pos as HI.
  destruct (fetchJSON_inv _ _ _ _ _ _ _ _ _ Hret)
    as [(cause & Hurl & -> & -> & ->) | (Hurl & r & Hpoll & Hr)].
  - split; [lia|]. congruence.
  - destruct (poll_sound rt c ctx (request_of c ctx endpoint) eq_refl _
                (NewTicker DefaultHTTPRetryBackoff (now w)) w r w' HI Hpoll)
      as (new0 & _ & Hle & Hall & Hsound).
    destruct (Hall d Hd) as [_ Hcap]. split; [lia|].
    intros _ Hne. destruct r as [|code body].
    + destruct Hr as [_ ->]. contradiction.
    + destruct Hsound as (_ & Hnd & _). rewrite isDone_false in Hnd. exact (Hnd d Hd).
Qed.

(** No more requests than polling intervals gone by. *)
Lemma fetchJSON_count {T} `{Decodable T} fuel c ctx endpoint (ptr : T) w v e w' new :
  fetchJSON rt fuel c ctx endpoint ptr w = Some (v, e, w') ->
  exchanged w w' new ->
  Z.of_nat (List.length new) * DefaultHTTPRetryBackoff <= now w' - now w.
Proof.
  intros Hret Hex. pose proof backoff_pos as HI.
  destruct (fetchJSON_paced rt _ _ _ _ _ _ _ _ _ _ Hret Hex) as [Hseq Hpace].
  destruct new as [|x0 new0] eqn:Hnew using rev_ind.
  - simpl in *. lia.
  - clear IHnew0. rewrite length_app. simpl.
    assert (Hi : (new0 ++ [x0])%list !! List.length new0 = Some x0)
      by (rewrite lookup_app_r by lia; rewrite Nat.sub_diag; reflexivity).
    specialize (Hpace _ _ Hi).
    destruct (sequential_bounds _ _ _ _ _ Hseq Hi) as (_ & ? & Hfin).
    lia.
Qed.

(** The loop with a deadline that comes before the first tick. *)
Lemma poll_short c ctx req d w k :
  done_at ctx = Some d -> d < now w + DefaultHTTPRetryBackoff ->
  poll rt (S k) c ctx req (NewTicker DefaultHTTPRetryBackoff (now w)) w =
  Some (Cancelled, {| now := Z.max (now w) d; sent := sent w; selects := S (selects w) |}).
Proof.
  intros Hd Hlt. pose proof backoff_pos as HI.
  destruct (Z_le_gt_dec d (now w)) as [Hle|Hgt].
  - rewrite poll_entry by (apply isDone_true; eauto).
    rewrite Z.max_l by lia. reflexivity.
  - simpl. unfold select.
    rewrite (deliver_idle (now w)) by (simpl; lia).
    assert (Hnd : isDone ctx (now w) = false)
      by (apply isDone_false; intros d' Hd'; assert (d' = d) by congruence; lia).
    rewrite Hnd, Hd. simpl.
    rewrite Z.min_l by lia. rewrite (deliver_idle d) by (simpl; lia).
    assert (Hdone : isDone ctx d = true) by (apply isDone_true; exists d; split; [auto|lia]).
    rewrite Hdone. simpl. rewrite Z.max_r by lia. reflexivity.
Qed.

(** A call only looks at what the peer answers on the URL it requests. *)
Lemma poll_same_route c c' ctx req :
  (forall i, HTTPClient c (URL req) i = HTTPClient c' (URL req) i) ->
  forall fuel tk w,
    poll rt fuel c ctx req tk w = poll rt fuel c' ctx req tk w.
Proof.
  intros Hsame. induction fuel as [|fuel IH]; intros tk w; simpl; [reflexivity|].
  destruct (select rt ctx tk w) as [[[|] tk1] w1]; [reflexivity|].
  unfold Do. rewrite Hsame.
  destruct (HTTPClient c' (URL req) (List.length (sent w1))) as [lat ans].
  destruct (done_at (req_ctx req)) as [d|].
  - destruct (d <=? now w1 + Z.max 0 lat); [apply IH|].
    destruct ans as [cause|code body]; [apply IH|].
    destruct (negb (code =? StatusNotFound)); [reflexivity | apply IH].
  - destruct ans as [cause|code body]; [apply IH|].
    destruct (negb (code =? StatusNotFound)); [reflexivity | apply IH].
Qed.

(** The first answer that is not retried, when there is one. *)
Lemma first_final (f : nat -> bool) n :
  f n = false -> exists m, f m = false /\ forall i, (i < m)%nat -> f i = true.
Proof.
  intros Hn.
  assert (Hscan : forall k,
            (forall i, (i < k)%nat -> f i = true) \/
            (exists m, f m = false /\ forall i, (i < m)%nat -> f i = true)).
  { induction k as [|k [Hall|Hex]].
    - left. intros i Hi. lia.
    - destruct (f k) eqn:Hk.
      + left. intros i Hi. destruct (decide (i = k)) as [->|]; [exact Hk|].
        apply Hall. lia.
      + right. exists k. auto.
    - right. exact Hex. }
  destruct (Hscan (S n)) as [Hall|Hex]; [|exact Hex].
  rewrite Hall in Hn by lia. discriminate.
Qed.

(** A call with a parsable URL ends in one of two ways: on the context,
    after retried answers only, or on the first final answer. *)
Lemma fetchJSON_ending {T} `{Decodable T} fuel c ctx endpoint (ptr : T) w v e w' new :
  url_error rt (BaseURL c ++ endpoint) = None ->
  fetchJSON rt fuel c ctx endpoint ptr w = Some (v, e, w') ->
  exchanged w w' new ->
  (v = ptr /\ e = Some (errTimeout endpoint) /\ Forall was_retried new /\
   isDone ctx (now w') = true) \/
  (exists code body,
     ends_with new (now w') code body /\ code <> StatusNotFound /\
     isDone ctx (now w') = false /\ settle code body ptr = (v, e)).
Proof.
  intros Hurl Hret Hex. pose proof backoff_pos as HI.
  destruct (fetchJSON_inv _ _ _ _ _ _ _ _ _ Hret)
    as [(cause & Hbad & _) | (_ & r & Hpoll & Hr)]; [congruence|].
  destruct (poll_sound rt c ctx (request_of c ctx endpoint) eq_refl _
              (NewTicker DefaultHTTPRetryBackoff (now w)) w r w' HI Hpoll)
    as (new0 & Hex0 & _ & _ & Hsound).
  rewrite (exchanged_same _ _ _ _ Hex Hex0).
  destruct r as [|code body].
  - destruct Hr as [-> ->]. destruct Hsound as (Hall & Hdone & _). left. auto.
  - destruct Hsound as (Hne & Hnd & pre & t & -> & Hpre). right.
    exists code, body. split; [exists pre, t; auto|]. auto.
Qed.

(** Under a context that is never done no call times out. *)
Lemma fetchJSON_no_timeout {T} `{Decodable T} fuel c ctx endpoint (ptr : T) w v e w' :
  done_at ctx = None ->
  fetchJSON rt fuel c ctx endpoint ptr w = Some (v, e, w') ->
  e <> Some (errTimeout endpoint).
Proof.
  intros Hnone Hret ->. pose proof backoff_pos as HI.
  destruct (fetchJSON_inv _ _ _ _ _ _ _ _ _ Hret)
    as [(cause & _ & _ & [=] & _) | (_ & r & Hpoll & Hr)].
  destruct r as [|code body].
  - destruct (poll_sound rt c ctx (request_of c ctx endpoint) eq_refl _
                (NewTicker DefaultHTTPRetryBackoff (now w)) w _ w' HI Hpoll)
      as (new & _ & _ & _ & _ & Hdone & _).
    apply isDone_true in Hdone as (d & Hd & _). congruence.
  - destruct (settle_inv _ _ _ _ _ Hr)
      as [(_ & _ & [=]) | (_ & [[[=] _] | (cause & [=] & _)])].
Qed.

(** A call that gave up a round trip at the deadline ends with the timeout
    error. *)
Lemma fetchJSON_given_up {T} `{Decodable T} fuel c ctx d endpoint (ptr : T) w v e w' new i x :
  done_at ctx = Some d ->
  fetchJSON rt fuel c ctx endpoint ptr w = Some (v, e, w') ->
  exchanged w w' new ->
  new !! i = Some x -> d <= finished x ->
  v = ptr /\ e = Some (errTimeout endpoint) /\ now w' = Z.max (now w) d.
Proof.
  intros Hd Hret Hex Hi Hfin. pose proof backoff_pos as HI.
  destruct (fetchJSON_inv _ _ _ _ _ _ _ _ _ Hret)
    as [(cause & _ & _ & _ & ->) | (_ & r & Hpoll & Hr)].
  - rewrite (exchanged_none _ _ Hex) in Hi. discriminate.
  - destruct (poll_sound rt c ctx (request_of c ctx endpoint) eq_refl _
                (NewTicker DefaultHTTPRetryBackoff (now w)) w r w' HI Hpoll)
      as (new0 & Hex0 & _ & _ & Hsound).
    destruct r as [|code body].
    + destruct Hr as [-> ->]. destruct Hsound as (_ & _ & Hend). auto.
    + exfalso. destruct Hsound as (_ & Hnd & _).
      rewrite isDone_false in Hnd. specialize (Hnd d Hd).
      destruct (fetchJSON_paced rt _ _ _ _ _ _ _ _ _ _ Hret Hex) as [Hseq _].
      destruct (sequential_bounds _ _ _ _ _ Hseq Hi) as (_ & _ & Hle). lia.
Qed.

(** A round trip in flight when the context is done is given up at that
    instant, whatever the peer was about to answer, and the call ends there
    with the timeout error. *)
Lemma fetchJSON_cut {T} `{Decodable T} fuel c ctx d endpoint (ptr : T) w v e w' new :
  url_error rt (BaseURL c ++ endpoint) = None ->
  done_at ctx = Some d ->
  now w + DefaultHTTPRetryBackoff < d ->
  d <= now w + DefaultHTTPRetryBackoff
         + Z.max 0 (fst (HTTPClient c (BaseURL c ++ endpoint) (List.length (sent w)))) ->
  fetchJSON rt fuel c ctx endpoint ptr w = Some (v, e, w') ->
  exchanged w w' new ->
  (exists rest,
     new = {| started := now w + DefaultHTTPRetryBackoff; finished := d;
              outcome := TransportError "context deadline exceeded" |} :: rest) /\
  v = ptr /\ e = Some (errTimeout endpoint) /\ now w' = d.
Proof.
  intros Hurl Hd Hlt Hlate Hret Hex. pose proof backoff_pos as HI.
  assert (Hfirst : exists rest,
     new = {| started := now w + DefaultHTTPRetryBackoff; finished := d;
              outcome := TransportError "context deadline exceeded" |} :: rest).
  { destruct (fetchJSON_inv _ _ _ _ _ _ _ _ _ Hret)
      as [(cause & Hbad & _) | (_ & r & Hpoll & _)]; [congruence|].
    destruct fuel as [|fuel]; [discriminate|]. simpl in Hpoll.
    set (tk := NewTicker DefaultHTTPRetryBackoff (now w)) in *.
    destruct (select_tick rt ctx tk w HI ltac:(simpl; lia))
      as (tk1 & w1 & Hsel & Hsent1 & _ & _ & Hper1 & _).
    { apply isDone_false. intros d' Hd'. simpl. assert (d' = d) by congruence. lia. }
    destruct (select_at_tick rt ctx tk w tk1 w1 HI eq_refl Hsel) as [Hnow1 _].
    simpl in Hnow1. rewrite Z.max_r in Hnow1 by lia.
    rewrite Hsel in Hpoll.
    destruct (Do c (request_of c ctx endpoint) w1) as [a w2] eqn:HDo.
    pose proof (Do_inv _ _ _ _ _ HDo) as (Hsent2 & _ & _ & Hcase). cbv zeta in Hcase.
    simpl in Hcase. rewrite Hsent1, Hnow1 in Hcase.
    destruct Hcase as [(Hnd & _) | (d' & Hd' & _ & Hnow2 & Ha)].
    { rewrite isDone_false in Hnd. specialize (Hnd d Hd). lia. }
    assert (d' = d) by congruence. subst d'. rewrite Z.max_r in Hnow2 by lia.
    assert (Hrest : exists r0, poll rt fuel c ctx (request_of c ctx endpoint) tk1 w2
                               = Some (r0, w')).
    { subst a. eauto. }
    destruct Hrest as [r0 Hrest].
    destruct (poll_sound rt c ctx (request_of c ctx endpoint) eq_refl _ tk1 w2 r0 w'
                ltac:(rewrite Hper1; exact HI) Hrest) as (rest & Hex2 & _).
    exists rest. unfold exchanged in *.
    rewrite Hex2, Hsent2, Hsent1, <- app_assoc in Hex. apply app_inv_head in Hex.
    rewrite <- Hex, Hnow1, Hnow2, Ha. reflexivity. }
  split; [exact Hfirst|]. destruct Hfirst as [rest ->].
  destruct (fetchJSON_given_up _ _ _ _ _ _ _ _ _ _ _ O _ Hd Hret Hex
              eq_refl ltac:(simpl; lia)) as (-> & -> & ->).
  repeat split. lia.
Qed.

(** Facing a peer that gives retried answers only, each within one polling
    interval, the call makes an attempt at every tick up to the deadline. *)
Lemma fetchJSON_prompt {T} `{Decodable T} c ctx d endpoint (ptr : T) w :
  url_error rt (BaseURL c ++ endpoint) = None ->
  done_at ctx = Some d -> now w <= d ->
  (forall i, retried (snd (HTTPClient c (BaseURL c ++ endpoint) i)) = true) ->
  (forall i, fst (HTTPClient c (BaseURL c ++ endpoint) i) <= DefaultHTTPRetryBackoff) ->
  exists fuel, forall k, exists w' new,
    fetchJSON rt (fuel + k) c ctx endpoint ptr w
      = Some (ptr, Some (errTimeout endpoint), w') /\
    exchanged w w' new /\ now w' = d /\
    (forall i x, new !! i = Some x ->
       started x = now w + (Z.of_nat i + 1) * DefaultHTTPRetryBackoff) /\
    (d - now w) / DefaultHTTPRetryBackoff - 1 <= Z.of_nat (List.length new).
Proof.
  intros Hurl Hd Hle Hretry Hlat. pose proof backoff_pos as HI.
  set (m := S (Z.to_nat ((d - now w) / DefaultHTTPRetryBackoff))).
  pose proof (Z.div_mod (d - now w) DefaultHTTPRetryBackoff ltac:(lia)) as Hdm.
  pose proof (Z.mod_pos_bound (d - now w) DefaultHTTPRetryBackoff HI) as Hb.
  pose proof (Z.div_pos (d - now w) DefaultHTTPRetryBackoff ltac:(lia) HI) as Hq.
  exists m. intros k.
  destruct (poll_prompt rt c ctx
              {| req_ctx := ctx; Method := "GET"; URL := BaseURL c ++ endpoint |}
              d (now w) eq_refl Hd Hretry Hlat m O
              (NewTicker DefaultHTTPRetryBackoff (now w)) w k
              eq_refl eq_refl ltac:(simpl; lia) ltac:(simpl; lia) Hle
              ltac:(unfold m; lia))
    as (w' & new & Hpoll & Hex & Hend & Hcount & Hstart).
  exists w', new. rewrite fetchJSON_poll by exact Hurl. rewrite Hpoll.
  simpl in Hcount.
  repeat split; auto; try nia.
Qed.

Lemma fetchJSON_exchanged {T} `{Decodable T} fuel c ctx endpoint (ptr : T) w v e w' :
  fetchJSON rt fuel c ctx endpoint ptr w = Some (v, e, w') ->
  exists new, exchanged w w' new.
Proof.
  intros Hret. pose proof backoff_pos as HI.
  destruct (fetchJSON_inv _ _ _ _ _ _ _ _ _ Hret)
    as [(cause & _ & _ & _ & ->) | (_ & r & Hpoll & _)].
  - exists []. unfold exchanged. rewrite app_nil_r. reflexivity.
  - destruct (poll_sound rt c ctx (request_of c ctx endpoint) eq_refl _
                (NewTicker DefaultHTTPRetryBackoff (now w)) w r w' HI Hpoll)
      as (new & Hex & _).
    exists new. exact Hex.
Qed.

(** A request that ended in a transport error is followed by another one at
    the next tick, unless the call ended with the timeout error. *)
Lemma fetchJSON_after_transport_error {T} `{Decodable T} fuel c ctx endpoint (ptr : T) w
  v e w' new i x cause :
  url_error rt (BaseURL c ++ endpoint) = None ->
  fetchJSON rt fuel c ctx endpoint ptr w = Some (v, e, w') ->
  exchanged w w' new ->
  new !! i = Some x -> outcome x = TransportError cause ->
  (exists y, new !! S i = Some y /\
             started y = Z.max (finished x) (next_tick (now w) (started x))) \/
  (S i = List.length new /\ e = Some (errTimeout endpoint)).
Proof.
  intros Hurl Hret Hex Hi Hout.
  pose proof (fetchJSON_on_ticks rt _ _ _ _ _ _ _ _ _ _ Hret Hex) as Hon.
  destruct (new !! S i) as [y|] eqn:Hy.
  - left. exists y. split; [reflexivity|]. exact (on_ticks_next _ _ _ _ _ _ _ Hon Hi Hy).
  - right. apply lookup_ge_None in Hy. pose proof (lookup_lt_Some _ _ _ Hi) as Hlt.
    split; [lia|].
    destruct (fetchJSON_ending _ _ _ _ _ _ _ _ _ _ Hurl Hret Hex)
      as [(_ & He & _) | (code & body & (pre & t & Hnew & _) & _)]; [exact He|].
    exfalso. subst new. rewrite length_app in Hy, Hlt. simpl in Hy, Hlt.
    assert (i = List.length pre) by lia. subst i.
    rewrite lookup_app_r in Hi by lia. rewrite Nat.sub_diag in Hi.
    injection Hi as <-. discriminate Hout.
Qed.

End Course.

(** ** The statements of the specification *)

Lemma not_found_retried serve w n final :
  not_found_then serve w n final -> retried_then serve w n final.
Proof.
  intros [Hnf Hfinal]. split; [|exact Hfinal].
  intros i Hi. destruct (Hnf i Hi) as [body ->]. reflexivity.
Qed.

Lemma settle_ok {T} `{Decodable T} code body (ptr v : T) :
  code < StatusBadRequest -> Decode body ptr = (v, None) ->
  settle code body ptr = (v, None).
Proof.
  intros Hcode Hdec. unfold settle.
  destruct (Z.leb_spec StatusBadRequest code); [lia|]. rewrite Hdec. reflexivity.
Qed.

(** C1.  For each of the four operations, and a body that decodes as its
    result type.  In a call that returns, a 200 response with this body is
    the last request of the call, those before it were all retried, and the
    call returns the decoded value and a nil error when it arrives.  And when
    the first [n] requests are answered with 404 and the next one with this
    200, the context leaving the time for these attempts, the call does
    return so, after exactly [n + 1] requests. *)
Theorem not_found_retried_then_success rt op c ctx w body (v : result_type op) :
  url_error rt (BaseURL c ++ endpoint_of op) = None ->
  Decode body (zero : result_type op) = (v, None) ->
  (forall fuel r e w' new i x,
     call rt op fuel c ctx w = Some (r, e, w') ->
     exchanged w w' new ->
     new !! i = Some x -> outcome x = Response StatusOK body ->
     r = v /\ e = None /\ S i = List.length new /\ finished x = now w' /\
     Forall was_retried (take i new)) /\
  (forall n k,
     not_found_then (HTTPClient c (BaseURL c ++ endpoint_of op)) w n
       (Response StatusOK body) ->
     in_time (polling_ctx op ctx w) (HTTPClient c (BaseURL c ++ endpoint_of op)) w (S n) ->
     exists w' new t,
       call rt op (S n + k) c ctx w = Some (v, None, w') /\
       exchanged w w' new /\ List.length new = S n /\
       last new = Some {| started := t; finished := now w';
                          outcome := Response StatusOK body |}).
Proof.
  intros Hurl Hdec. split.
  - intros fuel r e w' new i x Hcall Hex Hi Hout. rewrite call_fetchJSON in Hcall.
    destruct (fetchJSON_final_answer rt _ _ _ _ _ _ _ _ _ _ _ _ _ _ Hurl Hcall Hex Hi Hout
                ltac:(discriminate)) as (Hlast & Hfin & Hset & Hpre).
    rewrite (settle_ok _ _ _ v) in Hset by (auto; reflexivity).
    injection Hset as -> ->. auto.
  - intros n k Hnf Hin. rewrite call_fetchJSON.
    destruct (fetchJSON_reaches rt c (polling_ctx op ctx w) (endpoint_of op)
                (zero : result_type op) w n k StatusOK body Hurl
                (not_found_retried _ _ _ _ Hnf) ltac:(discriminate) Hin)
      as (w' & new & t & Hfetch & Hex & Hlen & Hlast & _).
    exists w', new, t. rewrite Hfetch, (settle_ok _ _ _ v) by (auto; reflexivity).
    auto.
Qed.

Lemma not_found_retried_then_success_witness :
  exists w' new t,
    call go_runtime OpMetrics 4 starting_agent (within Second) boot
      = Some (metrics_value, None, w') /\
    exchanged boot w' new /\ List.length new = 4%nat /\
    last new = Some {| started := t; finished := now w';
                       outcome := Response StatusOK metrics_body |}.
Proof.
  refine (proj2 (not_found_retried_then_success go_runtime OpMetrics starting_agent
                   (within Second) boot metrics_body metrics_value _ _) 3%nat O _ _).
  - reflexivity.
  - vm_compute. reflexivity.
  - split; [|reflexivity].
    intros [|[|[|i]]] Hi; try (exists "Not Found"; reflexivity). simpl in Hi. lia.
  - intros d [= <-]. vm_compute. reflexivity.
Defined.

(** C2.  Under a context that is done at [d], the call returns; when no
    final answer was received in its course, it fails with the timeout
    error, which carries the endpoint, at the instant the context is done,
    and leaves the destination untouched. *)
Theorem deadline_gives_timeout {T} `{Decodable T} rt c ctx d endpoint (ptr : T) w :
  url_error rt (BaseURL c ++ endpoint) = None ->
  done_at ctx = Some d ->
  exists fuel, forall k, exists v e w' new,
    fetchJSON rt (fuel + k) c ctx endpoint ptr w = Some (v, e, w') /\
    exchanged w w' new /\
    (Forall was_retried new ->
       e = Some (errTimeout endpoint) /\
       error_string (errTimeout endpoint) = "timeout while trying to reach: " ++ endpoint /\
       v = ptr /\ now w' = Z.max (now w) d).
Proof.
  intros Hurl Hd.
  destruct (fetchJSON_returns rt c ctx d endpoint ptr w Hurl Hd) as [fuel Hret].
  exists fuel. intros k.
  destruct (Hret k) as (v & e & w' & new & Hfetch & Hex & _ & _ & Hto & _).
  exists v, e, w', new. split; [exact Hfetch|]. split; [exact Hex|].
  intros Hall. destruct (Hto Hall) as (-> & -> & ->). auto.
Qed.

Lemma deadline_gives_timeout_witness :
  exists fuel, forall k, exists v e w' new,
    fetchJSON go_runtime (fuel + k) down_agent (within Second) "/api/v1/metrics"
      (zero : Metrics) boot = Some (v, e, w') /\
    exchanged boot w' new /\
    (Forall was_retried new ->
       e = Some (errTimeout "/api/v1/metrics") /\
       error_string (errTimeout "/api/v1/metrics")
         = "timeout while trying to reach: " ++ "/api/v1/metrics" /\
       v = zero /\ now w' = Z.max (now boot) Second).
Proof.
  apply (deadline_gives_timeout go_runtime down_agent (within Second) Second
           "/api/v1/metrics" (zero : Metrics) boot); reflexivity.
Defined.

(** C3.  A response with a status of 400 or more, other than 404.  In a call
    that returns, such a response is the last request of the call, those
    before it were all retried, and the call fails with that status when it
    arrives.  And when the first [n] answers are retried ones and the next
    is such a response, the context leaving the time for these attempts, the
    call does return so, after exactly [n + 1] requests and before the
    context is done. *)
Theorem error_status_fails_at_once {T} `{Decodable T} rt c ctx endpoint (ptr : T) w
  code body :
  url_error rt (BaseURL c ++ endpoint) = None ->
  code <> StatusNotFound -> StatusBadRequest <= code ->
  (forall fuel v e w' new i x,
     fetchJSON rt fuel c ctx endpoint ptr w = Some (v, e, w') ->
     exchanged w w' new ->
     new !! i = Some x -> outcome x = Response code body ->
     v = ptr /\ e = Some (errStatus code) /\ S i = List.length new /\
     finished x = now w' /\ Forall was_retried (take i new)) /\
  error_string (errStatus code) = "failed with status code " ++ pretty code /\
  (forall n k,
     retried_then (HTTPClient c (BaseURL c ++ endpoint)) w n (Response code body) ->
     in_time ctx (HTTPClient c (BaseURL c ++ endpoint)) w (S n) ->
     exists w' new t,
       fetchJSON rt (S n + k) c ctx endpoint ptr w
         = Some (ptr, Some (errStatus code), w') /\
       exchanged w w' new /\ List.length new = S n /\
       last new = Some {| started := t; finished := now w';
                          outcome := Response code body |} /\
       (forall d, done_at ctx = Some d -> now w' < d)).
Proof.
  intros Hurl Hne Hcode.
  assert (Hset : settle code body ptr = (ptr, Some (errStatus code))).
  { unfold settle. destruct (Z.leb_spec StatusBadRequest code); [reflexivity | lia]. }
  split; [|split; [reflexivity|]].
  - intros fuel v e w' new i x Hfetch Hex Hi Hout.
    destruct (fetchJSON_final_answer rt _ _ _ _ _ _ _ _ _ _ _ _ _ _ Hurl Hfetch Hex Hi Hout
                Hne) as (Hlast & Hfin & Hve & Hpre).
    rewrite Hset in Hve. injection Hve as -> ->. auto.
  - intros n k Hthen Hin.
    destruct (fetchJSON_reaches rt c ctx endpoint ptr w n k code body Hurl Hthen Hne Hin)
      as (w' & new & t & Hfetch & Hex & Hlen & Hlast & Hbefore).
    exists w', new, t. rewrite Hfetch, Hset. auto 10.
Qed.

Lemma error_status_fails_at_once_witness :
  exists w' new t,
    fetchJSON go_runtime 2 broken_agent (within (3 * Second)) "/api/v1/uptime"
      (zero : UpTime) boot = Some (zero, Some (errStatus 500), w') /\
    exchanged boot w' new /\ List.length new = 2%nat /\
    last new = Some {| started := t; finished := now w';
                       outcome := Response 500 "Internal Server Error" |} /\
    (forall d, done_at (within (3 * Second)) = Some d -> now w' < d).
Proof.
  refine (proj2 (proj2 (error_status_fails_at_once go_runtime broken_agent
                          (within (3 * Second)) "/api/v1/uptime" (zero : UpTime) boot
                          500 "Internal Server Error" _ _ _)) 1%nat O _ _).
  - reflexivity.
  - discriminate.
  - vm_compute. discriminate.
  - split; [|reflexivity]. intros [|i] Hi; [reflexivity | simpl in Hi; lia].
  - intros d [= <-]. vm_compute. reflexivity.
Defined.

(** C4.  A response with a status below 400 whose body does not decode.  In
    a call that returns, such a response is the last request of the call and
    the call fails with the decoder's error wrapped.  And when the first [n]
    answers are retried ones and the next is such a response, the context
    leaving the time for these attempts, the call does return so, after
    exactly [n + 1] requests. *)
Theorem decode_failure_is_final {T} `{Decodable T} rt c ctx endpoint (ptr ptr' : T) w
  code body cause :
  url_error rt (BaseURL c ++ endpoint) = None ->
  code <> StatusNotFound -> code < StatusBadRequest ->
  Decode body ptr = (ptr', Some cause) ->
  (forall fuel v e w' new i x,
     fetchJSON rt fuel c ctx endpoint ptr w = Some (v, e, w') ->
     exchanged w w' new ->
     new !! i = Some x -> outcome x = Response code body ->
     v = ptr' /\ e = Some (errUnmarshal cause) /\ S i = List.length new /\
     finished x = now w') /\
  error_string (errUnmarshal cause)
    = "could not json unmarshal response: " ++ JSONError_string cause /\
  (forall n k,
     retried_then (HTTPClient c (BaseURL c ++ endpoint)) w n (Response code body) ->
     in_time ctx (HTTPClient c (BaseURL c ++ endpoint)) w (S n) ->
     exists w' new t,
       fetchJSON rt (S n + k) c ctx endpoint ptr w
         = Some (ptr', Some (errUnmarshal cause), w') /\
       exchanged w w' new /\ List.length new = S n /\
       last new = Some {| started := t; finished := now w';
                          outcome := Response code body |}).
Proof.
  intros Hurl Hne Hcode Hdec.
  assert (Hset : settle code body ptr = (ptr', Some (errUnmarshal cause))).
  { unfold settle. destruct (Z.leb_spec StatusBadRequest code); [lia|].
    rewrite Hdec. reflexivity. }
  split; [|split; [reflexivity|]].
  - intros fuel v e w' new i x Hfetch Hex Hi Hout.
    destruct (fetchJSON_final_answer rt _ _ _ _ _ _ _ _ _ _ _ _ _ _ Hurl Hfetch Hex Hi Hout
                Hne) as (Hlast & Hfin & Hve & _).
    rewrite Hset in Hve. injection Hve as -> ->. auto.
  - intros n k Hthen Hin.
    destruct (fetchJSON_reaches rt c ctx endpoint ptr w n k code body Hurl Hthen Hne Hin)
      as (w' & new & t & Hfetch & Hex & Hlen & Hlast & _).
    exists w', new, t. rewrite Hfetch, Hset. auto 10.
Qed.

Lemma decode_failure_is_final_witness :
  exists w' new t,
    fetchJSON go_runtime 1 other_server Background "/api/v1/uptime" (zero : UpTime) boot
      = Some (zero, Some (errUnmarshal SyntaxError), w') /\
    exchanged boot w' new /\ List.length new = 1%nat /\
    last new = Some {| started := t; finished := now w';
                       outcome := Response StatusOK "<html></html>" |}.
Proof.
  refine (proj2 (proj2 (decode_failure_is_final go_runtime other_server Background
                          "/api/v1/uptime" (zero : UpTime) zero boot StatusOK
                          "<html></html>" SyntaxError _ _ _ _)) O O _ _).
  - reflexivity.
  - discriminate.
  - reflexivity.
  - vm_compute. reflexivity.
  - split; [|reflexivity]. intros i Hi. simpl in Hi. lia.
  - intros d [=].
Defined.

(** C5.  A transport error is handled as a 404 is.  In any call that
    returns, the requests follow the ticks: the first starts at the first
    tick, and each later one at the first tick after the start of the one
    before, or when that one ends if the tick has come by then.  A request
    that ended in a transport error is followed by another one, unless it
    is the last of a call that ended with the timeout error; the call ends
    with the timeout error once the context is done, every request having
    been retried, or on the first final answer, with another result, and in
    no other way.  When the answers to come are [n] retried ones, transport
    errors or 404, and then a final one, and the context leaves the time,
    the call returns what the final one settles after exactly [n + 1]
    requests.  A peer that only ever fails at the transport level makes the
    call end with the timeout error the instant the context is done, after
    an attempt at every tick when each failure comes within one polling
    interval.  Two peers that differ only in which of the two, transport
    error or 404, they answer with give calls that return the same value
    and error at the same instants after as many requests. *)
Theorem transport_error_like_not_found {T} `{Decodable T} rt c ctx endpoint (ptr : T) w :
  url_error rt (BaseURL c ++ endpoint) = None ->
  (forall fuel v e w' new,
     fetchJSON rt fuel c ctx endpoint ptr w = Some (v, e, w') ->
     exchanged w w' new ->
     on_ticks (now w) (now w) (now w) new /\
     (forall i x cause,
        new !! i = Some x -> outcome x = TransportError cause ->
        (exists y, new !! S i = Some y /\
                   started y = Z.max (finished x) (next_tick (now w) (started x))) \/
        (S i = List.length new /\ e = Some (errTimeout endpoint))) /\
     ((v = ptr /\ e = Some (errTimeout endpoint) /\ Forall was_retried new /\
       isDone ctx (now w') = true) \/
      (exists code body t',
         ends_with new t' code body /\ code <> StatusNotFound /\
         e <> Some (errTimeout endpoint)))) /\
  (forall n code body k,
     retried_then (HTTPClient c (BaseURL c ++ endpoint)) w n (Response code body) ->
     code <> StatusNotFound ->
     in_time ctx (HTTPClient c (BaseURL c ++ endpoint)) w (S n) ->
     exists w' new t,
       fetchJSON rt (S n + k) c ctx endpoint ptr w = Some (settle code body ptr, w') /\
       exchanged w w' new /\ List.length new = S n /\
       last new = Some {| started := t; finished := now w';
                          outcome := Response code body |}) /\
  (forall d,
     done_at ctx = Some d ->
     (forall i, exists cause,
        snd (HTTPClient c (BaseURL c ++ endpoint) i) = TransportError cause) ->
     exists fuel, forall k, exists w' new,
       fetchJSON rt (fuel + k) c ctx endpoint ptr w
         = Some (ptr, Some (errTimeout endpoint), w') /\
       exchanged w w' new /\ now w' = Z.max (now w) d /\
       (now w <= d ->
        (forall i, fst (HTTPClient c (BaseURL c ++ endpoint) i)
                   <= DefaultHTTPRetryBackoff) ->
        (forall i x, new !! i = Some x ->
           started x = now w + (Z.of_nat i + 1) * DefaultHTTPRetryBackoff) /\
        (d - now w) / DefaultHTTPRetryBackoff - 1 <= Z.of_nat (List.length new))) /\
  (forall c', alike c c' ->
   forall fuel,
     match fetchJSON rt fuel c ctx endpoint ptr w,
           fetchJSON rt fuel c' ctx endpoint ptr w with
     | Some (v, e, w1), Some (v', e', w1') => v = v' /\ e = e' /\ course w1 = course w1'
     | None, None => True
     | _, _ => False
     end).
Proof.
  intros Hurl. split; [|split; [|split]].
  - intros fuel v e w' new Hret Hex.
    split; [exact (fetchJSON_on_ticks rt _ _ _ _ _ _ _ _ _ _ Hret Hex)|].
    split.
    { intros i x cause Hi Hout.
      exact (fetchJSON_after_transport_error rt _ _ _ _ _ _ _ _ _ _ _ _ _
               Hurl Hret Hex Hi Hout). }
    destruct (fetchJSON_ending rt _ _ _ _ _ _ _ _ _ _ Hurl Hret Hex)
      as [Hto | (code & body & Hends & Hne & _ & Hset)]; [left; exact Hto|].
    right. exists code, body, (now w'). split; [exact Hends|]. split; [exact Hne|].
    intros ->.
    destruct (settle_inv _ _ _ _ _ Hset)
      as [(_ & _ & [=]) | (_ & [[[=] _] | (cause & [=] & _)])].
  - intros n code body k Hthen Hne Htime.
    destruct (fetchJSON_reaches rt c ctx endpoint ptr w n k code body Hurl Hthen Hne Htime)
      as (w' & new & t & Hfetch & Hex & Hlen & Hlast & _).
    exists w', new, t. auto.
  - intros d Hd Herr.
    assert (Hretry : forall i,
              retried (snd (HTTPClient c (BaseURL c ++ endpoint) i)) = true).
    { intros i. destruct (Herr i) as [cause ->]. reflexivity. }
    destruct (fetchJSON_never_final rt c ctx d endpoint ptr w Hurl Hd Hretry)
      as [fuel Hret].
    exists fuel. intros k. destruct (Hret k) as (w' & Hfetch & Hnow).
    destruct (fetchJSON_exchanged rt _ _ _ _ _ _ _ _ _ Hfetch) as [new Hex].
    exists w', new. split; [exact Hfetch|]. split; [exact Hex|]. split; [exact Hnow|].
    intros Hle Hlat.
    destruct (fetchJSON_prompt rt c ctx d endpoint ptr w Hurl Hd Hle Hretry Hlat)
      as [fuel' Hprompt].
    destruct (Hprompt O) as (w2 & new2 & Hfetch2 & Hex2 & _ & Hstart & Hcount).
    pose proof (fetchJSON_agree rt _ _ _ _ _ _ _ _ _ Hfetch Hfetch2) as [= <-].
    rewrite (exchanged_same _ _ _ _ Hex Hex2). auto.
  - intros c' Hal fuel. unfold fetchJSON, NewRequestWithContext.
    destruct Hal as [Hbase Hans]. rewrite <- Hbase. rewrite Hurl.
    pose proof (poll_alike rt c c' ctx
                  {| req_ctx := ctx; Method := "GET"; URL := BaseURL c ++ endpoint |}
                  (conj Hbase Hans) fuel (NewTicker DefaultHTTPRetryBackoff (now w))
                  w w eq_refl) as Hpoll.
    destruct (poll rt fuel c _ _ _ w) as [[r w1]|];
      destruct (poll rt fuel c' _ _ _ w) as [[r' w1']|]; try contradiction; [|exact I].
    destruct Hpoll as [<- Hc]. destruct r as [|code body]; [auto|].
    destruct (StatusBadRequest <=? code); [auto|].
    destruct (Decode body ptr) as [ptr' [e|]]; auto.
Qed.

Lemma transport_error_like_not_found_witness :
  (forall k, exists w' new t,
     fetchJSON go_runtime (2 + k) broken_agent (within Second) "/api/v1/uptime"
       (zero : UpTime) boot
       = Some (settle 500 "Internal Server Error" (zero : UpTime), w') /\
     exchanged boot w' new /\ List.length new = 2%nat /\
     last new = Some {| started := t; finished := now w';
                        outcome := Response 500 "Internal Server Error" |}) /\
  ((exists y, sent broken_course !! 1%nat = Some y /\
              started y = Z.max (151 * Millisecond)
                            (next_tick (now boot) (150 * Millisecond))) \/
   (1%nat = List.length (sent broken_course) /\
    Some (errStatus 500) = Some (errTimeout "/api/v1/uptime"))) /\
  (exists fuel, forall k, exists w' new,
     fetchJSON go_runtime (fuel + k) down_agent (within Second) "/" (zero : BuildInfo) boot
       = Some (zero, Some (errTimeout "/"), w') /\
     exchanged boot w' new /\ now w' = Z.max (now boot) Second /\
     (now boot <= Second ->
      (forall i, fst (HTTPClient down_agent (BaseURL down_agent ++ "/") i)
                 <= DefaultHTTPRetryBackoff) ->
      (forall i x, new !! i = Some x ->
         started x = now boot + (Z.of_nat i + 1) * DefaultHTTPRetryBackoff) /\
      (Second - now boot) / DefaultHTTPRetryBackoff - 1 <= Z.of_nat (List.length new))) /\
  (forall fuel,
     match fetchJSON go_runtime fuel down_agent (within Second) "/" (zero : BuildInfo) boot,
           fetchJSON go_runtime fuel missing_route (within Second) "/" (zero : BuildInfo) boot
     with
     | Some (v, e, w1), Some (v', e', w1') => v = v' /\ e = e' /\ course w1 = course w1'
     | None, None => True
     | _, _ => False
     end).
Proof.
  pose proof (transport_error_like_not_found go_runtime broken_agent (within Second)
                "/api/v1/uptime" (zero : UpTime) boot eq_refl)
    as (Hsafe & Hlive & _).
  pose proof (transport_error_like_not_found go_runtime down_agent (within Second)
                "/" (zero : BuildInfo) boot eq_refl)
    as (_ & _ & Hdown & Halike).
  split; [|split; [|split]].
  - intros k. apply (Hlive 1%nat 500 "Internal Server Error" k).
    + split; [|reflexivity]. intros i Hi. assert (i = O) by lia. subst i. reflexivity.
    + discriminate.
    + intros d [= <-]. vm_compute. reflexivity.
  - assert (Hrun : fetchJSON go_runtime 2 broken_agent (within Second) "/api/v1/uptime"
                     (zero : UpTime) boot
                   = Some (zero, Some (errStatus 500), broken_course))
      by (vm_compute; reflexivity).
    destruct (Hsafe 2%nat zero (Some (errStatus 500)) broken_course (sent broken_course)
                Hrun eq_refl) as (_ & Hnext & _).
    exact (Hnext O _ "connection refused" eq_refl eq_refl).
  - apply (Hdown Second eq_refl). intros i. exists "connection refused". reflexivity.
  - apply (Halike missing_route).
    split; [reflexivity|]. intros url i. split; [reflexivity|]. right. split; reflexivity.
Defined.

(** C6, as the code has it.  Under a context done at [d] the call returns.
    The context is looked at by every select, so at the entry of the loop
    and between two attempts: a context already done at the entry gives the
    timeout error at once, with no request sent.  The request carries the
    context too: no attempt outlasts [d], and one still in flight at [d] is
    given up at that instant with an error of the transport; a call in which
    that happened returns the timeout error at [d], whatever the ticks and
    whatever the peer was about to answer.  So when the first attempt,
    started at the first tick, is still in flight at [d], the call returns
    the timeout error at [d].  The timeout error is returned exactly when
    every attempt was retried, at [d], or at the call when [d] is past. *)
Theorem cancellation_at_the_deadline {T} `{Decodable T} rt c ctx d endpoint (ptr : T) w :
  url_error rt (BaseURL c ++ endpoint) = None ->
  done_at ctx = Some d ->
  (exists fuel, forall k, exists r,
     fetchJSON rt (fuel + k) c ctx endpoint ptr w = Some r) /\
  (forall fuel v e w' new,
     fetchJSON rt fuel c ctx endpoint ptr w = Some (v, e, w') ->
     exchanged w w' new ->
     Forall (given_up_at d) new /\
     (d <= now w ->
        new = [] /\ v = ptr /\ e = Some (errTimeout endpoint) /\ now w' = now w) /\
     (forall i x, new !! i = Some x -> d <= finished x ->
        v = ptr /\ e = Some (errTimeout endpoint) /\ now w' = Z.max (now w) d) /\
     (now w + DefaultHTTPRetryBackoff < d ->
      d <= now w + DefaultHTTPRetryBackoff
             + Z.max 0 (fst (HTTPClient c (BaseURL c ++ endpoint)
                               (List.length (sent w)))) ->
      (exists rest,
         new = {| started := now w + DefaultHTTPRetryBackoff; finished := d;
                  outcome := TransportError "context deadline exceeded" |} :: rest) /\
      v = ptr /\ e = Some (errTimeout endpoint) /\ now w' = d) /\
     (Forall was_retried new ->
        v = ptr /\ e = Some (errTimeout endpoint) /\ now w' = Z.max (now w) d) /\
     (e = Some (errTimeout endpoint) ->
        Forall was_retried new /\ now w' = Z.max (now w) d)).
Proof.
  intros Hurl Hd.
  destruct (fetchJSON_returns rt c ctx d endpoint ptr w Hurl Hd) as [fuel Hret].
  split.
  - exists fuel. intros k.
    destruct (Hret k) as (v & e & w' & new & Hfetch & _). eauto.
  - intros fuel' v e w' new Hfetch Hex.
    destruct (Hret O) as (v0 & e0 & w0 & new0 & Hfetch0 & Hex0 & Hgu & _ & Hall & Hto).
    pose proof (fetchJSON_agree rt _ _ _ _ _ _ _ _ _ Hfetch Hfetch0) as [= <- <- <-].
    rewrite <- (exchanged_same _ _ _ _ Hex Hex0) in *.
    split; [exact Hgu|]. split; [|split; [|split; [|split]]].
    + intros Hpast.
      assert (Hentry : fetchJSON rt 1 c ctx endpoint ptr w
                       = Some (ptr, Some (errTimeout endpoint),
                               {| now := now w; sent := sent w;
                                  selects := S (selects w) |})).
      { rewrite fetchJSON_poll by exact Hurl.
        rewrite poll_entry by (apply isDone_true; eauto). reflexivity. }
      pose proof (fetchJSON_agree rt _ _ _ _ _ _ _ _ _ Hfetch Hentry) as [= -> -> ->].
      split; [|auto]. apply (exchanged_none w). exact Hex.
    + intros i x Hi Hfin.
      exact (fetchJSON_given_up rt _ _ _ _ _ _ _ _ _ _ _ _ _ Hd Hfetch Hex Hi Hfin).
    + intros Hlt Hlate.
      exact (fetchJSON_cut rt _ _ _ _ _ _ _ _ _ _ _ Hurl Hd Hlt Hlate Hfetch Hex).
    + exact Hall.
    + exact Hto.
Qed.

Lemma cancellation_at_the_deadline_witness :
  (exists fuel, forall k, exists r,
     fetchJSON go_runtime (fuel + k) late_agent (within (200 * Millisecond))
       "/api/v1/uptime" (zero : UpTime) boot = Some r) /\
  (forall fuel v e w' new,
     fetchJSON go_runtime fuel late_agent (within (200 * Millisecond))
       "/api/v1/uptime" (zero : UpTime) boot = Some (v, e, w') ->
     exchanged boot w' new ->
     (exists rest,
        new = {| started := now boot + DefaultHTTPRetryBackoff;
                 finished := 200 * Millisecond;
                 outcome := TransportError "context deadline exceeded" |} :: rest) /\
     v = zero /\ e = Some (errTimeout "/api/v1/uptime") /\ now w' = 200 * Millisecond).
Proof.
  destruct (cancellation_at_the_deadline go_runtime late_agent (within (200 * Millisecond))
              (200 * Millisecond) "/api/v1/uptime" (zero : UpTime) boot eq_refl eq_refl)
    as [Hreturns Hsafe].
  split; [exact Hreturns|].
  intros fuel v e w' new Hfetch Hex.
  destruct (Hsafe fuel v e w' new Hfetch Hex) as (_ & _ & _ & Hcut & _).
  apply Hcut; vm_compute; [reflexivity | discriminate].
Defined.

(** C6, as stated, fails: with a deadline 200 ms after the call and an agent
    that needs 100 ms to answer, the request sent at the first tick is given
    up at 200 ms, 50 ms into its flight, and the timeout is returned then,
    not at a tick. *)
Lemma cancellation_interrupts_request :
  fetchJSON go_runtime 2 late_agent (within (200 * Millisecond)) "/api/v1/uptime"
    (zero : UpTime) boot
  = Some (zero, Some (errTimeout "/api/v1/uptime"),
          {| now := 200 * Millisecond;
             sent := [{| started := 150 * Millisecond; finished := 200 * Millisecond;
                         outcome := TransportError "context deadline exceeded" |}];
             selects := 2 |}) /\
  ~ stated_no_interruption go_runtime late_agent (within (200 * Millisecond))
      "/api/v1/uptime" (zero : UpTime) boot /\
  ~ stated_exit_at_tick go_runtime late_agent (within (200 * Millisecond))
      "/api/v1/uptime" (zero : UpTime) boot /\
  ~ stated_cancellation go_runtime late_agent (within (200 * Millisecond))
      "/api/v1/uptime" (zero : UpTime) boot.
Proof.
  assert (Hrun : fetchJSON go_runtime 2 late_agent (within (200 * Millisecond))
                   "/api/v1/uptime" (zero : UpTime) boot
    = Some (zero, Some (errTimeout "/api/v1/uptime"),
            {| now := 200 * Millisecond;
               sent := [{| started := 150 * Millisecond; finished := 200 * Millisecond;
                           outcome := TransportError "context deadline exceeded" |}];
               selects := 2 |})) by (vm_compute; reflexivity).
  assert (Hflight : ~ stated_no_interruption go_runtime late_agent
                      (within (200 * Millisecond)) "/api/v1/uptime" (zero : UpTime) boot).
  { intros Hstated.
    destruct (Hstated _ _ _ _ _ Hrun eq_refl O _ eq_refl) as [Hout _].
    discriminate Hout. }
  assert (Htick : ~ stated_exit_at_tick go_runtime late_agent
                    (within (200 * Millisecond)) "/api/v1/uptime" (zero : UpTime) boot).
  { intros Hstated. specialize (Hstated _ _ _ Hrun).
    vm_compute in Hstated. discriminate. }
  split; [exact Hrun|]. split; [exact Hflight|]. split; [exact Htick|].
  intros [Hstated _]. exact (Hflight Hstated).
Qed.




(** The bound of [prompt_peer_attempts] is reached: under its own three
    seconds, which are twenty polling intervals, [StorageMetrics] makes
    nineteen attempts against a missing route when the scheduler lets the
    deadline win over the twentieth tick. *)
Example storage_metrics_attempts :
  option_map (fun r => (List.length (sent (snd r)), now (snd r)))
    (Client_StorageMetrics go_runtime 20 missing_route Background boot)
  = Some (19%nat, 3 * Second).
Proof. vm_compute. reflexivity. Qed.

(** C8.  [StorageMetrics] polls under the tighter of the caller's deadline
    and three seconds from the call; [BuildInfo], [UpTime] and [Metrics]
    poll under the caller's context as it is, with no deadline of their
    own.  So, whatever the peer: each operation returns what the first
    final answer settles when that answer comes before its limit, the
    tighter instant for [StorageMetrics], the caller's deadline for the
    other three, and however late when these have none; under a limit the
    operation returns by then, with the timeout error at that very instant
    when no final answer came; and without a limit the other three never
    time out, and never return when the peer never gives a final answer. *)
Theorem deadline_of_each_operation rt c ctx w :
  (forall fuel,
     Client_StorageMetrics rt fuel c ctx w
       = fetchJSON rt fuel c
           {| done_at := Some (match done_at ctx with
                               | Some d => Z.min d (now w + 3 * Second)
                               | None => now w + 3 * Second
                               end) |}
           "/api/v1/storage" zero w /\
     Client_BuildInfo rt fuel c ctx w = fetchJSON rt fuel c ctx "/" zero w /\
     Client_UpTime rt fuel c ctx w = fetchJSON rt fuel c ctx "/api/v1/uptime" zero w /\
     Client_Metrics rt fuel c ctx w = fetchJSON rt fuel c ctx "/api/v1/metrics" zero w) /\
  (forall op,
     url_error rt (BaseURL c ++ endpoint_of op) = None ->
     let limit :=
       match op, done_at ctx with
       | OpStorageMetrics, Some d => Some (Z.min d (now w + 3 * Second))
       | OpStorageMetrics, None => Some (now w + 3 * Second)
       | _, caller => caller
       end in
     (forall n code body k,
        retried_then (HTTPClient c (BaseURL c ++ endpoint_of op)) w n
          (Response code body) ->
        code <> StatusNotFound ->
        (forall D, limit = Some D ->
           now w + Z.of_nat (S n) * DefaultHTTPRetryBackoff
             + latencies (HTTPClient c (BaseURL c ++ endpoint_of op))
                 (List.length (sent w)) (S n) < D) ->
        exists w' new,
          call rt op (S n + k) c ctx w = Some (settle code body zero, w') /\
          exchanged w w' new /\ List.length new = S n) /\
     match limit with
     | Some D =>
         exists fuel, forall k, exists v e w' new,
           call rt op (fuel + k) c ctx w = Some (v, e, w') /\
           exchanged w w' new /\
           now w <= now w' <= Z.max (now w) D /\
           (Forall was_retried new ->
              v = zero /\ e = Some (errTimeout (endpoint_of op)) /\
              now w' = Z.max (now w) D) /\
           (e = Some (errTimeout (endpoint_of op)) -> now w' = Z.max (now w) D)
     | None =>
         (forall fuel v e w',
            call rt op fuel c ctx w = Some (v, e, w') ->
            e <> Some (errTimeout (endpoint_of op))) /\
         ((forall i, retried (snd (HTTPClient c (BaseURL c ++ endpoint_of op) i)) = true) ->
          forall fuel, call rt op fuel c ctx w = None)
     end).
Proof.
  split; [intros fuel; repeat split; reflexivity|].
  intros op Hurl limit.
  assert (Hlim : done_at (polling_ctx op ctx w) = limit)
    by (unfold limit; destruct op; simpl; destruct (done_at ctx); reflexivity).
  clearbody limit. split.
  - intros n code body k Hthen Hne Htime.
    destruct (fetchJSON_reaches rt c (polling_ctx op ctx w) (endpoint_of op)
                (zero : result_type op) w n k code body Hurl Hthen Hne)
      as (w' & new & t & Hfetch & Hex & Hlen & _).
    { intros D HD. apply Htime. rewrite <- Hlim. exact HD. }
    exists w', new. rewrite call_fetchJSON. auto.
  - destruct limit as [D|].
    + destruct (fetchJSON_returns rt c (polling_ctx op ctx w) D (endpoint_of op)
                  (zero : result_type op) w Hurl Hlim) as [fuel Hret].
      exists fuel. intros k.
      destruct (Hret k) as (v & e & w' & new & Hfetch & Hex & _ & Hnow & Hall & Hto).
      exists v, e, w', new. rewrite call_fetchJSON.
      split; [exact Hfetch|]. split; [exact Hex|]. split; [exact Hnow|].
      split; [exact Hall|]. intros He. apply Hto. exact He.
    + split.
      * intros fuel v e w'. rewrite call_fetchJSON.
        apply fetchJSON_no_timeout. exact Hlim.
      * intros Hretry fuel. rewrite call_fetchJSON.
        apply fetchJSON_forever; [exact Hurl | exact Hlim | exact Hretry].
Qed.

Lemma deadline_of_each_operation_witness :
  (exists fuel, forall k, exists v e w' new,
     call go_runtime OpStorageMetrics (fuel + k) sleepy_agent Background boot
       = Some (v, e, w') /\
     exchanged boot w' new /\
     now boot <= now w' <= Z.max (now boot) (now boot + 3 * Second) /\
     (Forall was_retried new ->
        v = zero /\ e = Some (errTimeout "/api/v1/storage") /\
        now w' = Z.max (now boot) (now boot + 3 * Second)) /\
     (e = Some (errTimeout "/api/v1/storage") ->
        now w' = Z.max (now boot) (now boot + 3 * Second))) /\
  (forall k, exists w' new,
     call go_runtime OpUpTime (1 + k) sleepy_agent Background boot
       = Some (settle StatusOK uptime_body zero, w') /\
     exchanged boot w' new /\ List.length new = 1%nat) /\
  (forall fuel, call go_runtime OpMetrics fuel missing_route Background boot = None).
Proof.
  pose proof (proj2 (deadline_of_each_operation go_runtime sleepy_agent Background boot))
    as Hsleepy.
  pose proof (proj2 (deadline_of_each_operation go_runtime missing_route Background boot))
    as Hmissing.
  split; [|split].
  - exact (proj2 (Hsleepy OpStorageMetrics eq_refl)).
  - intros k. apply (proj1 (Hsleepy OpUpTime eq_refl) O StatusOK uptime_body k).
    + split; [|reflexivity]. intros i Hi. lia.
    + discriminate.
    + intros D [=].
  - apply (proj2 (proj2 (Hmissing OpMetrics eq_refl))). intros i. reflexivity.
Defined.

(** Against an agent that takes four seconds to answer, [StorageMetrics]
    gives up its one request at three seconds, while [UpTime], called with
    no deadline, gets the answer four seconds after the first tick. *)
Example storage_metrics_cuts_late_answer :
  Client_StorageMetrics go_runtime 2 sleepy_agent Background boot
  = Some (zero, Some (errTimeout "/api/v1/storage"),
          {| now := 3 * Second;
             sent := [{| started := 150 * Millisecond; finished := 3 * Second;
                         outcome := TransportError "context deadline exceeded" |}];
             selects := 2 |}) /\
  Client_UpTime go_runtime 1 sleepy_agent Background boot
  = Some ({| UpTimeSec := 5; UpTimeHr := "5s" |}, None,
          {| now := 4150 * Millisecond;
             sent := [{| started := 150 * Millisecond; finished := 4150 * Millisecond;
                         outcome := Response StatusOK uptime_body |}];
             selects := 1 |}).
Proof. split; vm_compute; reflexivity. Qed.

(** C9.  The body [{"uptime_sec": 5, "uptime_hr": "5s"}] scans as the object
    with these two members.  In a call of [UpTime] that returns, a 200
    response with this body is the last request of the call and the call
    returns [UpTime{UpTimeSec: 5, UpTimeHr: "5s"}] and a nil error.  And
    when this response comes after [n] retried answers, the context leaving
    the time for these attempts, the call does return so. *)
Theorem uptime_scenario rt c ctx w :
  url_error rt (BaseURL c ++ "/api/v1/uptime") = None ->
  scan uptime_body
    = inr (JObject [("uptime_sec", JNumber "5"); ("uptime_hr", JString "5s")]) /\
  (forall fuel r e w' new i x,
     Client_UpTime rt fuel c ctx w = Some (r, e, w') ->
     exchanged w w' new ->
     new !! i = Some x -> outcome x = Response StatusOK uptime_body ->
     r = {| UpTimeSec := 5; UpTimeHr := "5s" |} /\ e = None /\
     S i = List.length new) /\
  (forall n k,
     retried_then (HTTPClient c (BaseURL c ++ "/api/v1/uptime")) w n
       (Response StatusOK uptime_body) ->
     in_time ctx (HTTPClient c (BaseURL c ++ "/api/v1/uptime")) w (S n) ->
     exists w',
       Client_UpTime rt (S n + k) c ctx w
         = Some ({| UpTimeSec := 5; UpTimeHr := "5s" |}, None, w')).
Proof.
  intros Hurl. split; [reflexivity|]. split.
  - intros fuel r e w' new i x Hcall Hex Hi Hout. unfold Client_UpTime in Hcall.
    destruct (fetchJSON_final_answer rt _ _ _ _ _ _ _ _ _ _ _ _ _ _ Hurl Hcall Hex Hi Hout
                ltac:(discriminate)) as (Hlast & _ & Hset & _).
    injection Hset as -> ->. auto.
  - intros n k Hthen Hin. unfold Client_UpTime.
    destruct (fetchJSON_reaches rt c ctx "/api/v1/uptime" (zero : UpTime) w n k
                StatusOK uptime_body Hurl Hthen ltac:(discriminate) Hin)
      as (w' & new & t & Hfetch & _).
    exists w'. rewrite Hfetch. reflexivity.
Qed.

Lemma uptime_scenario_witness :
  exists w',
    Client_UpTime go_runtime 4 starting_agent Background boot
      = Some ({| UpTimeSec := 5; UpTimeHr := "5s" |}, None, w').
Proof.
  refine (proj2 (proj2 (uptime_scenario go_runtime starting_agent Background boot _))
            3%nat O _ _).
  - reflexivity.
  - split; [|reflexivity]. intros [|[|[|i]]] Hi; try reflexivity. simpl in Hi. lia.
  - intros d [=].
Defined.

(** The scenario of the specification for [/api/v1/metrics]. *)
Example metrics_scenario :
  Decode metrics_body (zero : Metrics) = (metrics_value, None) /\
  Input metrics_value !! "cpu.0" = Some {| Records := 10; Bytes := 200 |} /\
  dom (Input metrics_value) = {[ "cpu.0" ]} /\
  dom (Output metrics_value) = {[ "stdout.0" ]}.
Proof. repeat split; vm_compute; reflexivity. Qed.

(** C10.  For each of the four operations: a call that returns an error
    other than a decoding failure returns the zero value of its result
    type. *)
Theorem zero_value_on_error rt op fuel c ctx w (v : result_type op) e w' :
  call rt op fuel c ctx w = Some (v, Some e, w') ->
  (forall cause, e <> errUnmarshal cause) ->
  v = zero.
Proof.
  rewrite call_fetchJSON. unfold fetchJSON.
  destruct (NewRequestWithContext rt _ _ _) as [msg|req]; [congruence|].
  destruct (poll rt fuel c _ req _ w) as [[[|code body] w1]|]; try congruence.
  destruct (StatusBadRequest <=? code); [congruence|].
  destruct (Decode body zero) as [v' [cause|]]; [|congruence].
  intros [= <- <- <-] Hne. exfalso. apply (Hne cause). reflexivity.
Qed.

Lemma zero_value_on_error_witness :
  call go_runtime OpUpTime 2 missing_route (within (200 * Millisecond)) boot
    = Some ({| UpTimeSec := 0; UpTimeHr := EmptyString |},
            Some (errTimeout "/api/v1/uptime"), timed_out) /\
  {| UpTimeSec := 0; UpTimeHr := EmptyString |} = (zero : UpTime).
Proof.
  assert (Hrun : call go_runtime OpUpTime 2 missing_route (within (200 * Millisecond)) boot
                 = Some ({| UpTimeSec := 0; UpTimeHr := EmptyString |},
                         Some (errTimeout "/api/v1/uptime"), timed_out))
    by (vm_compute; reflexivity).
  split; [exact Hrun|].
  apply (zero_value_on_error go_runtime OpUpTime 2 missing_route
           (within (200 * Millisecond)) boot _ (errTimeout "/api/v1/uptime") timed_out Hrun).
  discriminate.
Defined.

(** A decoding failure is the one error that can leave fields filled: the
    mismatch on [uptime_hr] is reported after [uptime_sec] was stored. *)
Example decode_failure_keeps_fields :
  Decode (json_text "{'uptime_sec': 5, 'uptime_hr': 7}") (zero : UpTime)
  = ({| UpTimeSec := 5; UpTimeHr := EmptyString |},
     Some (UnmarshalTypeError "number" "string")).
Proof. vm_compute. reflexivity. Qed.

(** * Further properties *)

(** ** Further properties of the calls *)

(** X1.  In a call that returns, the requests were made one after the
    other, each starting when the one before was over or later, and the
    request number [i], counting from 0, started no earlier than [i + 1]
    polling intervals after the call: the first one is never immediate. *)
Theorem requests_are_paced {T} `{Decodable T} rt fuel c ctx endpoint (ptr : T) w
  v e w' new :
  fetchJSON rt fuel c ctx endpoint ptr w = Some (v, e, w') ->
  exchanged w w' new ->
  sequential (now w) new (now w') /\
  forall i x, new !! i = Some x ->
    now w + (Z.of_nat i + 1) * DefaultHTTPRetryBackoff <= started x.
Proof. apply fetchJSON_paced. Qed.

Lemma requests_are_paced_witness :
  sequential (now boot) (sent slow_course) (now slow_course) /\
  forall i x, sent slow_course !! i = Some x ->
    now boot + (Z.of_nat i + 1) * DefaultHTTPRetryBackoff <= started x.
Proof.
  apply (requests_are_paced go_runtime 4 slow_agent (within (700 * Millisecond))
           "/api/v1/uptime" (zero : UpTime) boot zero
           (Some (errTimeout "/api/v1/uptime")) slow_course (sent slow_course)).
  - vm_compute. reflexivity.
  - reflexivity.
Defined.

(** X2.  Under a context done at [d], a call that returns has sent at most
    [floor ((d - now) / 150 ms)] requests, and none when [d] is past. *)
Theorem requests_bounded_by_deadline {T} `{Decodable T} rt fuel c ctx d endpoint
  (ptr : T) w v e w' new :
  done_at ctx = Some d ->
  fetchJSON rt fuel c ctx endpoint ptr w = Some (v, e, w') ->
  exchanged w w' new ->
  Z.of_nat (List.length new) <= Z.max 0 (d - now w) / DefaultHTTPRetryBackoff.
Proof.
  intros Hd Hret Hex. pose proof backoff_pos as HI.
  pose proof (fetchJSON_count rt _ _ _ _ _ _ _ _ _ _ Hret Hex) as Hcount.
  destruct (fetchJSON_by_deadline rt _ _ _ _ _ _ _ _ _ _ Hret Hd) as [Hnow _].
  apply Z.div_le_lower_bound; [exact HI|]. lia.
Qed.

Lemma requests_bounded_by_deadline_witness :
  Z.of_nat (List.length (sent slow_course))
    <= Z.max 0 (700 * Millisecond - now boot) / DefaultHTTPRetryBackoff.
Proof.
  apply (requests_bounded_by_deadline go_runtime 4 slow_agent (within (700 * Millisecond))
           (700 * Millisecond) "/api/v1/uptime" (zero : UpTime) boot zero
           (Some (errTimeout "/api/v1/uptime")) slow_course (sent slow_course)).
  - reflexivity.
  - vm_compute. reflexivity.
  - reflexivity.
Defined.

(** X3.  When the context is done less than one polling interval after the
    call, the call times out without sending any request, whatever the
    peer: it returns at the deadline, or at once if the deadline is past. *)
Theorem deadline_before_first_tick {T} `{Decodable T} rt c ctx d endpoint (ptr : T) w k :
  url_error rt (BaseURL c ++ endpoint) = None ->
  done_at ctx = Some d ->
  d < now w + DefaultHTTPRetryBackoff ->
  fetchJSON rt (S k) c ctx endpoint ptr w
  = Some (ptr, Some (errTimeout endpoint),
          {| now := Z.max (now w) d; sent := sent w; selects := S (selects w) |}).
Proof.
  intros Hurl Hd Hlt. rewrite fetchJSON_poll by exact Hurl.
  rewrite (poll_short rt c ctx _ d w k Hd Hlt). reflexivity.
Qed.

Lemma deadline_before_first_tick_witness :
  fetchJSON go_runtime 1 late_agent (within (140 * Millisecond)) "/api/v1/uptime"
    (zero : UpTime) boot
  = Some (zero, Some (errTimeout "/api/v1/uptime"),
          {| now := Z.max (now boot) (140 * Millisecond); sent := sent boot;
             selects := S (selects boot) |}).
Proof.
  apply (deadline_before_first_tick go_runtime late_agent (within (140 * Millisecond))
           (140 * Millisecond) "/api/v1/uptime" (zero : UpTime) boot O).
  - reflexivity.
  - reflexivity.
  - vm_compute. reflexivity.
Defined.

(** X4.  [StorageMetrics] always returns, whatever the peer, the base URL
    and the caller's context: within three seconds of the call, and after
    twenty requests at most. *)
Theorem storage_metrics_returns_in_time rt c ctx w :
  exists fuel, forall k, exists v e w' new,
    Client_StorageMetrics rt (fuel + k) c ctx w = Some (v, e, w') /\
    exchanged w w' new /\
    now w <= now w' <= now w + DefaultHTTPRetryTimeout /\
    (List.length new <= 20)%nat.
Proof.
  pose proof backoff_pos as HI. unfold Client_StorageMetrics.
  assert (HT : 0 < DefaultHTTPRetryTimeout) by reflexivity.
  set (ctx' := WithTimeout ctx (now w) DefaultHTTPRetryTimeout).
  set (d := tighter (done_at ctx) (now w + DefaultHTTPRetryTimeout)).
  assert (Hd : done_at ctx' = Some d) by reflexivity.
  assert (Hle : d <= now w + DefaultHTTPRetryTimeout).
  { unfold d, tighter. destruct (done_at ctx); lia. }
  assert (Hall : forall fuel v e w' new,
    fetchJSON rt fuel c ctx' "/api/v1/storage" (zero : StorageMetrics) w = Some (v, e, w') ->
    exchanged w w' new ->
    now w <= now w' <= now w + DefaultHTTPRetryTimeout /\ (List.length new <= 20)%nat).
  { intros fuel v e w' new Hret Hex.
    destruct (fetchJSON_by_deadline rt _ _ _ _ _ _ _ _ _ _ Hret Hd) as [Hnow _].
    pose proof (fetchJSON_count rt _ _ _ _ _ _ _ _ _ _ Hret Hex) as Hcount.
    split; [lia|].
    assert (Z.of_nat (List.length new) * DefaultHTTPRetryBackoff
            <= 20 * DefaultHTTPRetryBackoff)
      by (change (20 * DefaultHTTPRetryBackoff) with DefaultHTTPRetryTimeout; lia).
    nia. }
  destruct (url_error rt (BaseURL c ++ "/api/v1/storage")) as [cause|] eqn:Hurl.
  - exists O. intros k.
    assert (Hret : fetchJSON rt (0 + k) c ctx' "/api/v1/storage" (zero : StorageMetrics) w
                   = Some (zero, Some (errCreateRequest cause), w)).
    { unfold fetchJSON, NewRequestWithContext. rewrite Hurl. reflexivity. }
    exists zero, (Some (errCreateRequest cause)), w, [].
    split; [exact Hret|]. split; [unfold exchanged; rewrite app_nil_r; reflexivity|].
    apply (Hall _ _ _ _ _ Hret). unfold exchanged. rewrite app_nil_r. reflexivity.
  - destruct (fetchJSON_returns rt c ctx' d "/api/v1/storage" (zero : StorageMetrics) w
                Hurl Hd) as [fuel Hret].
    exists fuel. intros k. destruct (Hret k) as (v & e & w' & new & Hfetch & Hex & _).
    exists v, e, w', new. split; [exact Hfetch|]. split; [exact Hex|].
    exact (Hall _ _ _ _ _ Hfetch Hex).
Qed.

(** X5.  Under a context done at [d], a call that returns is over by [d],
    or at once when [d] is past; and a value or a status error is only ever
    returned strictly before [d]. *)
Theorem no_late_result {T} `{Decodable T} rt fuel c ctx d endpoint (ptr : T) w v e w' :
  done_at ctx = Some d ->
  fetchJSON rt fuel c ctx endpoint ptr w = Some (v, e, w') ->
  now w <= now w' <= Z.max (now w) d /\
  (e = None \/ (exists code, e = Some (errStatus code)) -> now w' < d).
Proof.
  intros Hd Hret.
  destruct (fetchJSON_by_deadline rt _ _ _ _ _ _ _ _ _ _ Hret Hd) as [Hnow Hbefore].
  split; [exact Hnow|]. intros He.
  destruct (fetchJSON_inv rt _ _ _ _ _ _ _ _ _ Hret)
    as [(cause & _ & _ & -> & _) | (Hurl & _)].
  - destruct He as [[=] | [code [=]]].
  - apply (Hbefore Hurl). intros ->. destruct He as [[=] | [code [=]]].
Qed.

Lemma no_late_result_witness :
  now boot <= now broken_course <= Z.max (now boot) Second /\
  (Some (errStatus 500) = None \/ (exists code, Some (errStatus 500) = Some (errStatus code))
   -> now broken_course < Second).
Proof.
  apply (no_late_result go_runtime 2 broken_agent (within Second) Second
           "/api/v1/uptime" (zero : UpTime) boot zero).
  - reflexivity.
  - vm_compute. reflexivity.
Defined.

(** X6.  The error of a call that returns tells its course.  A nil error: the
    last request got a response below 400, other than 404, whose body
    decoded into the value returned, and every request before it was
    retried.  A status error: the same with a status of 400 or more and the
    destination untouched.  A decoding error: the last request got a
    response below 400, other than 404, and every request before it was
    retried.  A timeout: every request was retried and the context is done.
    A request error: the URL does not parse, and nothing was sent nor any
    time spent. *)
Theorem outcome_tells_the_course {T} `{Decodable T} rt fuel c ctx endpoint (ptr : T) w
  v e w' new :
  fetchJSON rt fuel c ctx endpoint ptr w = Some (v, e, w') ->
  exchanged w w' new ->
  course_of_outcome rt c ctx endpoint ptr w v e w' new.
Proof. apply fetchJSON_course. Qed.

Lemma outcome_tells_the_course_witness :
  course_of_outcome go_runtime broken_agent (within Second) "/api/v1/uptime"
    (zero : UpTime) boot zero (Some (errStatus 500)) broken_course (sent broken_course).
Proof.
  apply (outcome_tells_the_course go_runtime 2 broken_agent (within Second)
           "/api/v1/uptime" (zero : UpTime) boot).
  - vm_compute. reflexivity.
  - reflexivity.
Defined.

(** X7.  Under a context that is never done, no call returns the timeout
    error.  When one of the answers to come is final, the call returns what
    the first of them settles, after as many requests as it took to get it
    and at the instant it arrives, however long the answers take; and it
    never returns when the peer has no final answer. *)
Theorem without_deadline {T} `{Decodable T} rt c ctx endpoint (ptr : T) w :
  url_error rt (BaseURL c ++ endpoint) = None ->
  done_at ctx = None ->
  (forall fuel v e w',
     fetchJSON rt fuel c ctx endpoint ptr w = Some (v, e, w') ->
     e <> Some (errTimeout endpoint)) /\
  (forall n,
     retried (snd (HTTPClient c (BaseURL c ++ endpoint) (List.length (sent w) + n))) = false ->
     exists m code body,
       (m <= n)%nat /\
       retried_then (HTTPClient c (BaseURL c ++ endpoint)) w m (Response code body) /\
       code <> StatusNotFound /\
       forall k, exists w' new t,
         fetchJSON rt (S m + k) c ctx endpoint ptr w = Some (settle code body ptr, w') /\
         exchanged w w' new /\ List.length new = S m /\
         last new = Some {| started := t; finished := now w';
                            outcome := Response code body |}) /\
  ((forall i, retried (snd (HTTPClient c (BaseURL c ++ endpoint) i)) = true) ->
   forall fuel, fetchJSON rt fuel c ctx endpoint ptr w = None).
Proof.
  intros Hurl Hnone. pose proof backoff_pos as HI. split; [|split].
  - intros fuel v e w'. apply fetchJSON_no_timeout. exact Hnone.
  - intros n Hn.
    destruct (first_final
                (fun i => retried (snd (HTTPClient c (BaseURL c ++ endpoint)
                                          (List.length (sent w) + i)))) n Hn)
      as (m & Hm & Hbefore).
    destruct (snd (HTTPClient c (BaseURL c ++ endpoint) (List.length (sent w) + m)))
      as [cause|code body] eqn:Hans; [discriminate|].
    simpl in Hm.
    assert (Hne : code <> StatusNotFound)
      by (intros Heq; rewrite Heq in Hm; discriminate).
    assert (Hthen : retried_then (HTTPClient c (BaseURL c ++ endpoint)) w m
                      (Response code body))
      by (split; [exact Hbefore | exact Hans]).
    exists m, code, body.
    split.
    { destruct (le_lt_dec m n) as [Hle|Hlt]; [exact Hle|].
      rewrite (Hbefore n Hlt) in Hn. discriminate. }
    split; [exact Hthen|]. split; [exact Hne|].
    intros k.
    destruct (fetchJSON_reaches rt c ctx endpoint ptr w m k code body Hurl Hthen Hne)
      as (w' & new & t & Hfetch & Hex & Hlen & Hlast & _).
    { intros d Hd. congruence. }
    exists w', new, t. auto.
  - intros Hall fuel. apply fetchJSON_forever; assumption.
Qed.

Lemma without_deadline_witness :
  exists m code body,
    (m <= 5)%nat /\
    retried_then (HTTPClient starting_agent (BaseURL starting_agent ++ "/api/v1/uptime"))
      boot m (Response code body) /\
    code <> StatusNotFound /\
    forall k, exists w' new t,
      fetchJSON go_runtime (S m + k) starting_agent Background "/api/v1/uptime"
        (zero : UpTime) boot = Some (settle code body zero, w') /\
      exchanged boot w' new /\ List.length new = S m /\
      last new = Some {| started := t; finished := now w';
                         outcome := Response code body |}.
Proof.
  refine (proj1 (proj2 (without_deadline go_runtime starting_agent Background
                          "/api/v1/uptime" (zero : UpTime) boot _ _)) 5%nat _).
  - reflexivity.
  - reflexivity.
  - reflexivity.
Defined.

(** X8.  Each operation only looks at what the peer answers on its own
    endpoint: two clients with the same base URL whose peers answer alike
    there give the same result and leave the same world, whatever their
    peers answer elsewhere. *)
Theorem only_its_endpoint rt op c c' fuel ctx w :
  BaseURL c = BaseURL c' ->
  (forall i, HTTPClient c (BaseURL c ++ endpoint_of op) i
             = HTTPClient c' (BaseURL c ++ endpoint_of op) i) ->
  call rt op fuel c ctx w = call rt op fuel c' ctx w.
Proof.
  intros Hbase Hsame. rewrite !call_fetchJSON.
  unfold fetchJSON, NewRequestWithContext. rewrite <- Hbase.
  destruct (url_error rt (BaseURL c ++ endpoint_of op)) as [cause|]; [reflexivity|].
  rewrite (poll_same_route rt c c' (polling_ctx op ctx w)
             {| req_ctx := polling_ctx op ctx w; Method := "GET";
                URL := BaseURL c ++ endpoint_of op |} Hsame).
  reflexivity.
Qed.

Lemma only_its_endpoint_witness :
  call go_runtime OpUpTime 4 starting_agent Background boot
  = call go_runtime OpUpTime 4
      (only_route starting_agent (agent_url ++ "/api/v1/uptime")) Background boot.
Proof.
  apply (only_its_endpoint go_runtime OpUpTime starting_agent
           (only_route starting_agent (agent_url ++ "/api/v1/uptime")) 4 Background boot).
  - reflexivity.
  - intros i. reflexivity.
Defined.

(** X12.  A call never returns a value, a status error or a decoding error
    before one polling interval has gone by since the call, however ready
    the peer: the first request waits for the first tick. *)
Theorem no_result_before_first_tick {T} `{Decodable T} rt fuel c ctx endpoint (ptr : T) w
  v e w' :
  url_error rt (BaseURL c ++ endpoint) = None ->
  fetchJSON rt fuel c ctx endpoint ptr w = Some (v, e, w') ->
  e <> Some (errTimeout endpoint) ->
  now w + DefaultHTTPRetryBackoff <= now w'.
Proof.
  intros Hurl Hret Hne. pose proof backoff_pos as HI.
  destruct (fetchJSON_inv rt _ _ _ _ _ _ _ _ _ Hret)
    as [(cause & Hbad & _) | (_ & r & Hpoll & Hr)]; [congruence|].
  destruct (poll_sound rt c ctx (request_of c ctx endpoint) eq_refl _
              (NewTicker DefaultHTTPRetryBackoff (now w)) w r w' HI Hpoll)
    as (new & Hex & _ & _ & Hsound).
  destruct r as [|code body]; [destruct Hr as [_ ->]; contradiction|].
  destruct Hsound as (_ & _ & pre & t & -> & _).
  destruct (fetchJSON_paced rt _ _ _ _ _ _ _ _ _ _ Hret Hex) as [Hseq Hpace].
  assert (Hi : (pre ++ [{| started := t; finished := now w';
                           outcome := Response code body |}])%list
               !! List.length pre
               = Some {| started := t; finished := now w';
                         outcome := Response code body |})
    by (rewrite lookup_app_r by lia; rewrite Nat.sub_diag; reflexivity).
  specialize (Hpace _ _ Hi). simpl in Hpace.
  destruct (sequential_bounds _ _ _ _ _ Hseq Hi) as (_ & Hdur & _). simpl in Hdur.
  nia.
Qed.

Lemma no_result_before_first_tick_witness :
  now boot + DefaultHTTPRetryBackoff <= now broken_course.
Proof.
  apply (no_result_before_first_tick go_runtime 2 broken_agent (within Second)
           "/api/v1/uptime" (zero : UpTime) boot zero (Some (errStatus 500))).
  - reflexivity.
  - vm_compute. reflexivity.
  - discriminate.
Defined.

(** ** Decoding the payloads *)

Lemma first_error_mismatch a b :
  mismatch_only a -> mismatch_only b -> mismatch_only (first_error a b).
Proof. destruct a; simpl; auto. Qed.

Lemma keeps_uint64 : keeps in_uint64 unmarshal_uint64.
Proof.
  intros j v Hv. unfold unmarshal_uint64, mismatch.
  destruct j; simpl; auto.
  unfold ParseUint64.
  destruct (all_digits literal && negb (is_empty literal)) eqn:Hd; simpl; auto.
  destruct (Z.ltb_spec (decimal literal 0) (2 ^ 64)) as [Hlt|Hge]; simpl; auto.
  split; [|exact I]. split; [|exact Hlt].
  assert (Hnn : forall s acc, 0 <= acc -> is_empty (snd (take_digits s)) = true ->
                              0 <= decimal s acc).
  { clear. induction s as [|ch s IH]; intros acc Hacc; simpl; [auto|].
    destruct (is_digit ch) eqn:Hdig.
    - destruct (take_digits s) as [ds rest] eqn:Htd. simpl. intros Hrest.
      apply IH; [|exact Hrest]. unfold is_digit in Hdig. unfold digit_val.
      apply andb_true_iff in Hdig as [H1 _]. apply N.leb_le in H1. lia.
    - simpl. discriminate. }
  apply andb_true_iff in Hd as [Hall _]. apply Hnn; [lia|].
  unfold all_digits in Hall. destruct (take_digits literal). exact Hall.
Qed.

Lemma keeps_string : keeps (fun _ => True) unmarshal_string.
Proof. intros j v _. destruct j; simpl; auto. Qed.

Lemma keeps_bool : keeps (fun _ => True) unmarshal_bool.
Proof. intros j v _. destruct j; simpl; auto. Qed.

Lemma keeps_slice {T} (zero : T) elem type :
  keeps (fun _ => True) elem ->
  keeps (fun _ => True) (unmarshal_slice zero elem type).
Proof.
  intros Helem j v _. split; [exact I|].
  destruct j as [| | | |l0|]; simpl; try exact I.
  assert (Hfold : forall l acc, mismatch_only (snd acc) ->
    mismatch_only (snd (fold_left
      (fun (acc : list T * option JSONError) (x : JSON) =>
         let '(e, err) := elem x zero in
         ((fst acc ++ [e])%list, first_error (snd acc) err)) l acc))).
  { induction l as [|x l IH]; intros acc Hacc; simpl; [exact Hacc|].
    apply IH. destruct (Helem x zero I) as [_ He].
    destruct (elem x zero) as [e err]. simpl in *.
    apply first_error_mismatch; assumption. }
  apply Hfold. exact I.
Qed.

Lemma keeps_map {T} (Q : T -> Prop) (zero : T) elem type :
  keeps Q elem -> Q zero ->
  keeps (map_Forall (fun _ => Q)) (unmarshal_map zero elem type).
Proof.
  intros Helem Hzero j v Hv.
  destruct j as [| | | | |l0]; simpl;
    try (split; [first [exact Hv | apply map_Forall_empty] | exact I]).
  assert (Hfold : forall l (acc : gmap string T * option JSONError),
    map_Forall (fun _ => Q) (fst acc) -> mismatch_only (snd acc) ->
    let r := fold_left
      (fun (acc : gmap string T * option JSONError) (kv : string * JSON) =>
         let '(e, err) := elem (snd kv) zero in
         (<[fst kv := e]> (fst acc), first_error (snd acc) err)) l acc in
    map_Forall (fun _ => Q) (fst r) /\ mismatch_only (snd r)).
  { induction l as [|kv l IH]; intros acc Hacc Herr; simpl; [auto|].
    destruct (Helem (snd kv) zero Hzero) as [Hq He].
    destruct (elem (snd kv) zero) as [e err]. simpl in *.
    apply IH; simpl.
    - apply map_Forall_insert_2; assumption.
    - apply first_error_mismatch; assumption. }
  apply Hfold; simpl; auto.
Qed.

Lemma find_field_in {T} (fields : list (string * Unmarshal T)) key store :
  find_field fields key = Some store -> exists f, In f fields /\ snd f = store.
Proof.
  unfold find_field. intros Hfind.
  destruct (find (fun f => String.eqb (fst f) key) fields) as [f|] eqn:Hf.
  - injection Hfind as <-. apply find_some in Hf as [Hin _]. eauto.
  - destruct (find (fun f => String.eqb (fold_case (fst f)) (fold_case key)) fields)
      as [f|] eqn:Hf'; [|discriminate].
    injection Hfind as <-. apply find_some in Hf' as [Hin _]. eauto.
Qed.

Lemma keeps_struct {T} (P : T -> Prop) fields type :
  (forall f, In f fields -> keeps P (snd f)) ->
  keeps P (unmarshal_struct fields type).
Proof.
  intros Hfields j v Hv.
  destruct j as [| | | | |l0]; simpl; try (split; [exact Hv | exact I]).
  assert (Hfold : forall l (acc : T * option JSONError),
    P (fst acc) -> mismatch_only (snd acc) ->
    let r := fold_left
      (fun (acc : T * option JSONError) (kv : string * JSON) =>
         match find_field fields (fst kv) with
         | Some store =>
             let '(v', err) := store (snd kv) (fst acc) in
             (v', first_error (snd acc) err)
         | None => acc
         end) l acc in
    P (fst r) /\ mismatch_only (snd r)).
  { induction l as [|kv l IH]; intros acc Hacc Herr; simpl; [auto|].
    apply IH.
    - destruct (find_field fields (fst kv)) as [store|] eqn:Hfind; [|exact Hacc].
      destruct (find_field_in _ _ _ Hfind) as (f & Hin & <-).
      destruct (Hfields f Hin (snd kv) (fst acc) Hacc) as [Hp _].
      destruct (snd f (snd kv) (fst acc)). exact Hp.
    - destruct (find_field fields (fst kv)) as [store|] eqn:Hfind; [|exact Herr].
      destruct (find_field_in _ _ _ Hfind) as (f & Hin & <-).
      destruct (Hfields f Hin (snd kv) (fst acc) Hacc) as [_ He].
      destruct (snd f (snd kv) (fst acc)). simpl in *.
      apply first_error_mismatch; assumption. }
  apply Hfold; simpl; auto.
Qed.

Lemma keeps_field {T F} (P : T -> Prop) (Q : F -> Prop) tag get set store :
  (forall v, P v -> Q (get v)) ->
  (forall x v, P v -> Q x -> P (set x v)) ->
  keeps Q store ->
  keeps P (snd (field tag get set store)).
Proof.
  intros Hget Hset Hstore j v Hv. unfold field. simpl.
  destruct (Hstore j (get v) (Hget v Hv)) as [Hq He].
  destruct (store j (get v)) as [x err]. simpl in *. auto.
Qed.

Create HintDb keeps.

#[local] Hint Resolve keeps_uint64 keeps_string keeps_bool : keeps.
#[local] Hint Resolve keeps_slice keeps_map : keeps.
#[local] Hint Unfold UpTime_ok MetricInput_ok MetricOutput_ok Metrics_ok
  PluginStorage_Chunks_ok PluginStorage_ok StorageLayer_Chunks_ok StorageMetrics_ok : keeps.

(** The fields of a struct, one after the other: the unmarshaller of the
    field first, which tells what it keeps, then the getter and the setter. *)
Ltac keeps_fields :=
  apply keeps_struct; intros f Hin; simpl in Hin;
  repeat (destruct Hin as [<- | Hin];
          [eapply keeps_field; cycle 2;
           [solve [eauto with keeps]
           | intros v Hv; autounfold with keeps in *; simpl; tauto
           | intros x v Hv Hx; autounfold with keeps in *; simpl; tauto] |]);
  try contradiction.

Lemma in_uint64_zero : in_uint64 0.
Proof. unfold in_uint64. lia. Qed.

Lemma keeps_UpTime : keeps UpTime_ok unmarshal.
Proof. keeps_fields. Qed.

Lemma keeps_MetricInput : keeps MetricInput_ok unmarshal.
Proof. keeps_fields. Qed.

Lemma keeps_MetricOutput : keeps MetricOutput_ok unmarshal.
Proof. keeps_fields. Qed.

Lemma MetricInput_zero : MetricInput_ok zero.
Proof. repeat split; apply in_uint64_zero. Qed.

Lemma MetricOutput_zero : MetricOutput_ok zero.
Proof. repeat split; apply in_uint64_zero. Qed.

#[local] Hint Resolve keeps_MetricInput keeps_MetricOutput : keeps.
#[local] Hint Resolve MetricInput_zero MetricOutput_zero : keeps.

Lemma keeps_Metrics : keeps Metrics_ok unmarshal.
Proof. keeps_fields. Qed.

Lemma keeps_PluginStorage_Status :
  keeps (fun _ : PluginStorage_Status => True) unmarshal.
Proof. keeps_fields. Qed.

Lemma keeps_PluginStorage_Chunks : keeps PluginStorage_Chunks_ok unmarshal.
Proof. keeps_fields. Qed.

#[local] Hint Resolve keeps_PluginStorage_Status keeps_PluginStorage_Chunks : keeps.

Lemma keeps_PluginStorage : keeps PluginStorage_ok unmarshal.
Proof. keeps_fields. Qed.

Lemma PluginStorage_zero : PluginStorage_ok zero.
Proof. repeat split; apply in_uint64_zero. Qed.

Lemma keeps_StorageLayer_Chunks : keeps StorageLayer_Chunks_ok unmarshal.
Proof. keeps_fields. Qed.

#[local] Hint Resolve keeps_PluginStorage PluginStorage_zero : keeps.
#[local] Hint Resolve keeps_StorageLayer_Chunks : keeps.

Lemma keeps_StorageMetrics_StorageLayer :
  keeps (fun v => StorageLayer_Chunks_ok (LayerChunks v)) unmarshal.
Proof. keeps_fields. Qed.

#[local] Hint Resolve keeps_StorageMetrics_StorageLayer : keeps.

Lemma keeps_StorageMetrics : keeps StorageMetrics_ok unmarshal.
Proof. keeps_fields. Qed.

Lemma keeps_BuildInfo_FluentBit :
  keeps (fun _ : BuildInfo_FluentBit => True) unmarshal.
Proof. keeps_fields. Qed.

#[local] Hint Resolve keeps_BuildInfo_FluentBit : keeps.

Lemma keeps_BuildInfo : keeps (fun _ : BuildInfo => True) unmarshal.
Proof. keeps_fields. Qed.

Lemma keeps_result op : keeps (result_ok op) unmarshal.
Proof.
  destruct op; simpl.
  - exact keeps_BuildInfo.
  - exact keeps_UpTime.
  - exact keeps_Metrics.
  - exact keeps_StorageMetrics.
Qed.

Lemma result_ok_zero op : result_ok op zero.
Proof.
  destruct op; simpl.
  - exact I.
  - exact in_uint64_zero.
  - split; apply map_Forall_empty.
  - split; [repeat split; apply in_uint64_zero | apply map_Forall_empty].
Qed.

(** Decoding keeps the counters in range, and fails at storing with a
    mismatch only. *)
Lemma Decode_keeps op body (v : result_type op) :
  result_ok op v ->
  result_ok op (fst (Decode body v)) /\
  (forall e, snd (Decode body v) = Some e ->
     (exists a b, e = UnmarshalTypeError a b) \/ fst (Decode body v) = v).
Proof.
  intros Hv. unfold Decode. destruct (scan body) as [e|j]; simpl.
  - split; [exact Hv|]. auto.
  - destruct (keeps_result op j v Hv) as [Hok Herr]. split; [exact Hok|].
    intros e He. rewrite He in Herr. destruct e; simpl in Herr; try contradiction.
    left. eauto.
Qed.

(** ** Counters *)

Lemma digit_char c :
  is_digit c = true ->
  pretty_N_char (Z.to_N (digit_val c)) = c /\ 0 <= digit_val c < 10 /\
  (c <> "0"%char -> 0 < digit_val c).
Proof.
  destruct c as [[] [] [] [] [] [] [] []]; try discriminate; intros _;
    (split; [reflexivity|]); (split; [vm_compute; split; congruence|]);
    intros Hc; try reflexivity; contradiction Hc; reflexivity.
Qed.

Lemma all_digits_only s : all_digits s = true -> only_digits s = true.
Proof.
  unfold all_digits. induction s as [|c r IH]; simpl; [reflexivity|].
  destruct (is_digit c); [|discriminate].
  destruct (take_digits r) as [ds rest]. simpl. exact IH.
Qed.

Lemma only_digits_all s : only_digits s = true -> take_digits s = (s, EmptyString).
Proof.
  induction s as [|c r IH]; simpl; [reflexivity|].
  destruct (is_digit c); [|discriminate]. simpl. intros Hr. rewrite (IH Hr). reflexivity.
Qed.

Lemma decimal_pos r : forall acc, only_digits r = true -> 0 < acc -> 0 < decimal r acc.
Proof.
  induction r as [|c r IH]; intros acc; simpl; [auto|].
  intros [Hc Hr]%andb_prop Hacc. destruct (digit_char c Hc) as (_ & ? & _).
  apply IH; [exact Hr | lia].
Qed.

Lemma pretty_decimal_go r : forall acc s,
  only_digits r = true -> 0 < acc ->
  pretty_N_go (Z.to_N (decimal r acc)) s = pretty_N_go (Z.to_N acc) (r ++ s).
Proof.
  induction r as [|c r IH]; intros acc s; simpl; [reflexivity|].
  intros [Hc Hr]%andb_prop Hacc. destruct (digit_char c Hc) as (Hchar & Hd & _).
  rewrite IH by (auto; lia).
  rewrite pretty_N_go_step by lia.
  replace (Z.to_N (acc * 10 + digit_val c))
    with (Z.to_N (digit_val c) + Z.to_N acc * 10)%N by lia.
  rewrite N.div_add, N.Div0.mod_add by lia.
  rewrite N.div_small, N.mod_small by lia.
  rewrite Hchar. reflexivity.
Qed.

Lemma append_empty (s : string) : s ++ "" = s.
Proof.
  induction s as [|a s IH]; [reflexivity|].
  change (String a (s ++ "") = String a s). rewrite IH. reflexivity.
Qed.

(** Printing what was parsed gives the numeral back. *)
Lemma pretty_decimal lit : numeral lit -> pretty (decimal lit 0) = lit.
Proof.
  intros [Hds [-> | (c & r & -> & Hc)]]; [reflexivity|].
  simpl in Hds. apply andb_prop in Hds as [Hd Hr].
  destruct (digit_char c Hd) as (Hchar & Hrange & Hpos). specialize (Hpos Hc).
  pose proof (decimal_pos r (digit_val c) Hr Hpos) as Hz.
  pose proof (pretty_decimal_go r (digit_val c) "" Hr Hpos) as Hgo.
  change (decimal (String c r) 0) with (decimal r (digit_val c)).
  destruct (decimal r (digit_val c)) as [|p|p] eqn:Hp; try lia.
  unfold pretty, pretty_Z, pretty, pretty_positive, pretty, pretty_N.
  rewrite decide_False by discriminate.
  change (N.pos p) with (Z.to_N (Z.pos p)). rewrite Hgo.
  rewrite pretty_N_go_step by lia.
  rewrite N.div_small, N.mod_small by lia.
  rewrite Hchar, pretty_N_go_0, append_empty. reflexivity.
Qed.

(** What the printer writes is a numeral. *)
Lemma pretty_N_go_digits x : forall s,
  only_digits s = true -> only_digits (pretty_N_go x s) = true.
Proof.
  induction (N.lt_wf_0 x) as [x _ IH]; intros s Hs.
  destruct (N.eq_dec x 0) as [->|Hx]; [rewrite pretty_N_go_0; exact Hs|].
  rewrite pretty_N_go_step by lia. apply IH.
  - apply N.div_lt; lia.
  - simpl. rewrite Hs, andb_true_r.
    pose proof (N.mod_lt x 10 ltac:(lia)) as Hm.
    generalize dependent (x mod 10)%N. intros m Hm.
    assert (Hcases : (m = 0 \/ m = 1 \/ m = 2 \/ m = 3 \/ m = 4 \/ m = 5 \/ m = 6 \/
                      m = 7 \/ m = 8 \/ m = 9)%N) by lia.
    repeat (destruct Hcases as [-> | Hcases]; [reflexivity|]).
    rewrite Hcases. reflexivity.
Qed.

Lemma pretty_N_go_front x : forall s,
  (0 < x)%N -> exists c r, pretty_N_go x s = String c r /\ c <> "0"%char.
Proof.
  induction (N.lt_wf_0 x) as [x _ IH]; intros s Hx.
  rewrite pretty_N_go_step by exact Hx.
  destruct (N.eq_dec (x / 10) 0) as [Hq|Hq].
  - rewrite Hq, pretty_N_go_0. eexists _, _. split; [reflexivity|].
    assert (Hsmall : (x < 10)%N) by (apply N.div_small_iff in Hq; lia).
    rewrite N.mod_small by exact Hsmall.
    assert (Hcases : (x = 1 \/ x = 2 \/ x = 3 \/ x = 4 \/ x = 5 \/ x = 6 \/ x = 7 \/
                      x = 8 \/ x = 9)%N) by lia.
    repeat (destruct Hcases as [-> | Hcases]; [discriminate|]).
    rewrite Hcases. discriminate.
  - apply IH; [apply N.div_lt; lia | apply N.neq_0_lt_0; exact Hq].
Qed.

Lemma pretty_numeral n : 0 <= n -> numeral (pretty n).
Proof.
  intros Hn. destruct n as [|p|p]; [split; [reflexivity | left; reflexivity] | | lia].
  unfold pretty, pretty_Z, pretty, pretty_positive, pretty, pretty_N.
  rewrite decide_False by discriminate. split.
  - apply pretty_N_go_digits. reflexivity.
  - right. apply pretty_N_go_front. lia.
Qed.

(** Parsing what was printed gives the number back. *)
Lemma decimal_pretty n : 0 <= n -> decimal (pretty n) 0 = n.
Proof.
  intros Hn. pose proof (pretty_decimal _ (pretty_numeral n Hn)) as Heq.
  apply (inj pretty) in Heq. exact Heq.
Qed.

(** A JSON number literal that is made of digits is a numeral. *)
Lemma scanned_numeral lit :
  scan_number lit = inr (lit, EmptyString) -> only_digits lit = true ->
  lit <> EmptyString -> numeral lit.
Proof.
  intros Hscan Hds Hne. split; [exact Hds|].
  destruct lit as [|c r]; [contradiction|].
  destruct (Ascii.eqb_spec c "0"%char) as [->|Hc]; [|right; eauto].
  left. simpl in Hds. unfold scan_number in Hscan.
  destruct r as [|a r]; [reflexivity|]. exfalso.
  simpl in Hds. apply andb_prop in Hds as [Ha Hr].
  destruct a as [[] [] [] [] [] [] [] []]; try discriminate Ha; simpl in Hscan;
    injection Hscan as Hbad; discriminate Hbad.
Qed.

Lemma find_none {A} (g : A -> bool) l :
  (forall x, In x l -> g x = false) -> find g l = None.
Proof.
  induction l as [|x l IH]; intros Hall; simpl; [reflexivity|].
  rewrite (Hall x (or_introl eq_refl)). apply IH. intros y Hy. apply Hall. right. exact Hy.
Qed.

Lemma find_field_none {T} (fields : list (string * Unmarshal T)) key :
  ~ In (fold_case key) (map (fun f => fold_case (fst f)) fields) ->
  find_field fields key = None.
Proof.
  intros Hnot.
  assert (Hfold : forall f, In f fields -> fold_case (fst f) <> fold_case key).
  { intros f Hin Heq. apply Hnot. rewrite <- Heq.
    apply (in_map (fun f => fold_case (fst f))). exact Hin. }
  unfold find_field. rewrite find_none.
  - rewrite find_none; [reflexivity|]. intros f Hin.
    apply String.eqb_neq. apply Hfold. exact Hin.
  - intros f Hin. apply String.eqb_neq. intros Heq. apply (Hfold f Hin).
    rewrite Heq. reflexivity.
Qed.

Lemma unmarshal_struct_unknown {T} (fields : list (string * Unmarshal T)) type
  l1 key j l2 v :
  find_field fields key = None ->
  unmarshal_struct fields type (JObject (l1 ++ (key, j) :: l2)) v
  = unmarshal_struct fields type (JObject (l1 ++ l2)) v.
Proof.
  intros Hnone. simpl. rewrite !fold_left_app. simpl. rewrite Hnone. reflexivity.
Qed.

(** ** Further properties of the payloads *)

(** X9.  A member whose name is none of the tags of the result type, even
    up to the case of its letters, changes nothing to what is decoded and to
    the error reported: two bodies that the scanner accepts, alike but for
    such a member, wherever it stands in the object, decode alike. *)
Theorem unknown_members_are_ignored op body body' l1 key j l2 (v : result_type op) :
  scan body = inr (JObject (l1 ++ (key, j) :: l2)) ->
  scan body' = inr (JObject (l1 ++ l2)) ->
  ~ In (fold_case key) (map fold_case (tags_of op)) ->
  Decode body v = Decode body' v.
Proof.
  intros Hbody Hbody' Hnot. unfold Decode. rewrite Hbody, Hbody'.
  destruct op; apply unmarshal_struct_unknown; apply find_field_none; exact Hnot.
Qed.

Lemma unknown_members_are_ignored_witness :
  Decode (json_text "{'uptime_sec': 5, 'pid': [null], 'uptime_hr': '5s'}") (zero : UpTime)
  = Decode (json_text "{'uptime_sec': 5, 'uptime_hr': '5s'}") (zero : UpTime).
Proof.
  apply (unknown_members_are_ignored OpUpTime _ _
           [("uptime_sec", JNumber "5")] "pid" (JArray [JNull])
           [("uptime_hr", JString "5s")]).
  - vm_compute. reflexivity.
  - vm_compute. reflexivity.
  - vm_compute. intros [H|[H|[]]]; discriminate H.
Defined.

(** A member name written with the long s (U+017F) is the tag
    [uptime_sec] up to case, and its number is stored. *)
Example long_s_names_the_field :
  Decode (json_text ("{'uptime_" ++ String "197" (String "191" "ec': 9}"))) (zero : UpTime)
  = ({| UpTimeSec := 9; UpTimeHr := EmptyString |}, None).
Proof. vm_compute. reflexivity. Qed.

(** X10.  A number is stored into a counter only when its literal is the
    decimal numeral of a natural number below 2^64, and the counter then
    holds exactly that number; any other literal, negative, with a fraction
    or an exponent, or too large, leaves the counter as it was and is
    reported as a mismatch that names it: a counter is never wrapped,
    truncated or rounded. *)
Theorem counters_are_exact lit (v : Z) :
  scan_number lit = inr (lit, EmptyString) ->
  (forall n, 0 <= n < 2 ^ 64 -> lit = pretty n ->
     unmarshal (JNumber lit) v = (n, None)) /\
  ((forall n, 0 <= n < 2 ^ 64 -> lit <> pretty n) ->
   unmarshal (JNumber lit) v
   = (v, Some (UnmarshalTypeError ("number " ++ lit) "uint64"))).
Proof.
  intros Hscan. split.
  - intros n Hn ->. simpl. unfold ParseUint64.
    destruct (pretty_numeral n ltac:(lia)) as [Hds Hfront].
    unfold all_digits. rewrite (only_digits_all _ Hds). simpl.
    assert (Hne : is_empty (pretty n) = false)
      by (destruct Hfront as [-> | (c & r & -> & _)]; reflexivity).
    rewrite Hne. simpl. rewrite decimal_pretty by lia.
    destruct (Z.ltb_spec n (2 ^ 64)) as [_|]; [reflexivity | lia].
  - intros Hnot. simpl. unfold ParseUint64.
    destruct (all_digits lit) eqn:Hall; [|reflexivity].
    destruct (is_empty lit) eqn:Hemp; [reflexivity|]. simpl.
    destruct (Z.ltb_spec (decimal lit 0) (2 ^ 64)) as [Hlt|]; [|reflexivity].
    exfalso.
    assert (Hnum : numeral lit).
    { apply scanned_numeral; [exact Hscan | exact (all_digits_only _ Hall) |].
      intros ->. discriminate. }
    apply (Hnot (decimal lit 0)); [|symmetry; exact (pretty_decimal _ Hnum)].
    split; [|exact Hlt].
    destruct Hnum as [Hds [-> | (c & r & -> & Hc)]]; [reflexivity|].
    simpl in Hds. apply andb_prop in Hds as [Hd Hr].
    destruct (digit_char c Hd) as (_ & _ & Hpos).
    pose proof (decimal_pos r (digit_val c) Hr (Hpos Hc)) as Hz.
    change (decimal (String c r) 0) with (decimal r (digit_val c)). lia.
Qed.

Lemma counters_are_exact_witness :
  unmarshal (JNumber "18446744073709551615") 7 = (18446744073709551615, None) /\
  unmarshal (JNumber "18446744073709551616") 7
  = (7, Some (UnmarshalTypeError "number 18446744073709551616" "uint64")).
Proof.
  split.
  - apply (proj1 (counters_are_exact "18446744073709551615" 7 eq_refl)
             18446744073709551615).
    + vm_compute. split; [discriminate | reflexivity].
    + vm_compute. reflexivity.
  - apply (proj2 (counters_are_exact "18446744073709551616" 7 eq_refl)).
    intros n Hn Heq.
    assert (Hval : decimal "18446744073709551616" 0 = n)
      by (rewrite Heq; apply decimal_pretty; lia).
    vm_compute in Hval. subst n. vm_compute in Hn. destruct Hn as [_ Hn]. discriminate Hn.
Defined.

(** The counter of [UpTime] at the edge of its range, and the literals that
    it refuses. *)
Example uptime_sec_in_range :
  Decode (json_text "{'uptime_sec': 18446744073709551615}") (zero : UpTime)
  = ({| UpTimeSec := 2 ^ 64 - 1; UpTimeHr := EmptyString |}, None) /\
  Decode (json_text "{'uptime_sec': 18446744073709551616}") (zero : UpTime)
  = (zero, Some (UnmarshalTypeError "number 18446744073709551616" "uint64")) /\
  Decode (json_text "{'uptime_sec': -1}") (zero : UpTime)
  = (zero, Some (UnmarshalTypeError "number -1" "uint64")) /\
  Decode (json_text "{'uptime_sec': 1.0}") (zero : UpTime)
  = (zero, Some (UnmarshalTypeError "number 1.0" "uint64")) /\
  Decode (json_text "{'uptime_sec': 1e3}") (zero : UpTime)
  = (zero, Some (UnmarshalTypeError "number 1e3" "uint64")).
Proof. repeat split; vm_compute; reflexivity. Qed.

(** X11.  When one of the four operations fails on a body that is not JSON
    (a syntax error, a truncated or an empty body), as opposed to JSON of
    another shape than the result type, the value returned is the zero value:
    only a mismatch can leave fields filled. *)
Theorem malformed_body_leaves_zero rt op fuel c ctx w (v : result_type op) cause w' :
  call rt op fuel c ctx w = Some (v, Some (errUnmarshal cause), w') ->
  (forall value type, cause <> UnmarshalTypeError value type) ->
  v = zero.
Proof.
  rewrite call_fetchJSON. intros Hret Hcause.
  destruct (fetchJSON_inv rt _ _ _ _ _ _ _ _ _ Hret)
    as [(msg & _ & -> & _) | (_ & r & _ & Hr)]; [reflexivity|].
  destruct r as [|code body]; [destruct Hr as [-> _]; reflexivity|].
  destruct (settle_inv _ _ _ _ _ Hr)
    as [(_ & -> & _) | (_ & [[[=] _] | (cause' & [= <-] & Hdec)])]; [reflexivity|].
  destruct (Decode_keeps op body zero (result_ok_zero op)) as [_ Herr].
  rewrite Hdec in Herr. simpl in Herr.
  destruct (Herr cause eq_refl) as [(a & b & ->) | Hsame]; [|exact Hsame].
  exfalso. exact (Hcause a b eq_refl).
Qed.

Lemma malformed_body_leaves_zero_witness :
  {| UpTimeSec := 0; UpTimeHr := EmptyString |} = (zero : UpTime).
Proof.
  apply (malformed_body_leaves_zero go_runtime OpUpTime 1 other_server Background boot
           {| UpTimeSec := 0; UpTimeHr := EmptyString |} SyntaxError html_course).
  - vm_compute. reflexivity.
  - discriminate.
Defined.
